(** * Echogarden: speech-synthesis orchestration, transport client, ASCII codec

    A shallow embedding of three source files of the repository:

    - [src/api/Synthesis.ts]: [synthesizeSegments], [synthesizeSegment],
      the SSML parameter conversions, [requestVoiceList],
      [selectBestOfflineEngineForLanguage], [getAllLangCodesFromVoiceList];
    - the transport [Client] (message handler and [onMessage]);
    - [encodeAscii], [decodeAscii] and [ChunkedAsciiDecoder].

    Conventions of the embedding.

    - Text handled by the synthesis pipeline is a [string]; each character
      stands for one UTF-16 code unit below 256.  The ASCII codec, whose
      behaviour depends on code units of any size, works on [JsString],
      a list of code units.
    - A JavaScript [number] is an exact rational ([Qc]): the arithmetic of
      the source is read without rounding error, and without NaN and the
      infinities (a division by zero, which yields them in the source, is 0
      in [Qc]; no statement below rests on one).  The two SSML parameter
      conversions are the exception: they round down, so that a rounding
      error of the arithmetic before can change the digits they print.
      They are computed on IEEE 754 doubles ([Js.Double], over the binary64
      operations of [SpecFloat]), each operation rounded to nearest, ties
      to even; a [number] handed to them is read as the double nearest to
      it.
    - [throw] is the [Err] result; [await]ed collaborators of other modules
      (back ends, alignment, DSP, audio utilities, the locale tables) are
      fields of the class [Collaborators], and every call of an effectful
      one is recorded in a trace.  Logging is not modelled. *)

From Stdlib Require Import ZArith NArith QArith Qcanon Qround Qpower String Ascii List Lia.
From Stdlib Require Import DecimalString Lqa.
From Corelib Require Import SpecFloat.
From stdpp Require Import base option list gmap strings.

Set Default Proof Using "Type".
Set Warnings "-register-all".

(* ================================================================== *)
(** * Part I: definitions                                               *)
(* ================================================================== *)

(** ** The ASCII codec *)

Module Encodings.

(** A JavaScript string: its UTF-16 code units, each below 65536. *)
Abbreviation JsString := (list N).

(** The code units of a literal of the source text. *)
Definition lit (s : string) : JsString :=
  map (fun a => N_of_ascii a) (list_ascii_of_string s).

(** [`${n}`] for a non-negative integer. *)
Definition showN (n : N) : JsString :=
  lit (NilEmpty.string_of_uint (N.to_uint n)).

(** The completion of a call: a value, or a thrown [Error] with its message. *)
Inductive Completion (A : Type) : Type :=
| Normal (value : A)
| Throw (message : JsString).
Arguments Normal {A} value.
Arguments Throw {A} message.

Definition throws {A} (c : Completion A) : Prop :=
  match c with Normal _ => False | Throw _ => True end.

(** [new Uint8Array(len)]: [len] zero bytes. *)
Definition newUint8Array (len : nat) : list N := replicate len 0%N.

(** [buffer[i] = v] on a [Uint8Array]: the value is stored modulo 256; an
    index out of range stores nothing. *)
Definition setByte (buffer : list N) (i : nat) (v : N) : list N :=
  <[i := (v mod 256)%N]> buffer.

(** The body of the [for] loop of [encodeAscii], from index [i], with
    [remaining = len - i] iterations left. *)
Fixpoint encodeAsciiFrom (asciiString : JsString) (remaining i : nat)
    (buffer : list N) : Completion (list N) :=
  match remaining with
  | O => Normal buffer
  | S remaining' =>
    match asciiString !! i with
    | Some charCode =>
      if (128 <=? charCode)%N then
        Throw (lit "Character '" ++ [charCode] ++ lit "' (code: " ++ showN charCode
               ++ lit ") can't be encoded as a standard ASCII character")
      else
        encodeAsciiFrom asciiString remaining' (S i) (setByte buffer i charCode)
    | None =>
      (* [charCodeAt] past the end is NaN: no throw, and NaN is stored as 0 *)
      encodeAsciiFrom asciiString remaining' (S i) (setByte buffer i 0%N)
    end
  end.

Definition encodeAscii (asciiString : JsString) : Completion (list N) :=
  let len := length asciiString in
  let buffer := newUint8Array len in
  encodeAsciiFrom asciiString len 0 buffer.

(** [new TextDecoder('windows-1252').decode]: the code unit of one byte
    (the index of the Encoding Standard for bytes 0x80 to 0x9F, the byte
    itself otherwise). *)
Definition windows1252 (b : N) : N :=
  match b with
  | 0x80 => 0x20AC | 0x82 => 0x201A | 0x83 => 0x0192 | 0x84 => 0x201E
  | 0x85 => 0x2026 | 0x86 => 0x2020 | 0x87 => 0x2021 | 0x88 => 0x02C6
  | 0x89 => 0x2030 | 0x8A => 0x0160 | 0x8B => 0x2039 | 0x8C => 0x0152
  | 0x8E => 0x017D | 0x91 => 0x2018 | 0x92 => 0x2019 | 0x93 => 0x201C
  | 0x94 => 0x201D | 0x95 => 0x2022 | 0x96 => 0x2013 | 0x97 => 0x2014
  | 0x98 => 0x02DC | 0x99 => 0x2122 | 0x9A => 0x0161 | 0x9B => 0x203A
  | 0x9C => 0x0153 | 0x9E => 0x017E | 0x9F => 0x0178
  | _ => b
  end%N.

Definition textDecode (chunk : list N) : JsString := map windows1252 chunk.

(** [class ChunkedAsciiDecoder]. *)
Record ChunkedAsciiDecoder := { str : JsString }.

Definition newChunkedAsciiDecoder : ChunkedAsciiDecoder := {| str := [] |}.

Definition writeChunk (d : ChunkedAsciiDecoder) (chunk : list N) : ChunkedAsciiDecoder :=
  let decodedChunk := textDecode chunk in
  {| str := str d ++ decodedChunk |}.

Definition toString (d : ChunkedAsciiDecoder) : JsString := str d.

(** Prefix and suffix of a list at an index counted in [N] (chunk bounds are
    of the order of 2^24). *)
Fixpoint takeN {A} (n : N) (l : list A) : list A :=
  match l with
  | [] => []
  | x :: l' => if (n =? 0)%N then [] else x :: takeN (N.pred n) l'
  end.

Fixpoint dropN {A} (n : N) (l : list A) : list A :=
  match l with
  | [] => []
  | x :: l' => if (n =? 0)%N then l else dropN (N.pred n) l'
  end.

(** [buffer.subarray(begin, end)], both bounds clamped to the length. *)
Definition subarray (buffer : list N) (begin end_ : N) : list N :=
  takeN (end_ - begin) (dropN begin buffer).

Definition maxChunkSize : N := 2 ^ 24.

(** The [for] loop of [decodeAscii] with chunk size [chunkSize]; every
    iteration advances [offset], so [fuel] bounds the iterations left. *)
Fixpoint decodeAsciiFrom (chunkSize : N) (fuel : nat) (buffer : list N) (offset : N)
    (decoder : ChunkedAsciiDecoder) : ChunkedAsciiDecoder :=
  match fuel with
  | O => decoder
  | S fuel' =>
    if (offset <? N.of_nat (length buffer))%N then
      let chunk := subarray buffer offset (offset + chunkSize) in
      decodeAsciiFrom chunkSize fuel' buffer (offset + chunkSize) (writeChunk decoder chunk)
    else decoder
  end.

Definition decodeAscii (buffer : list N) : JsString :=
  let decoder := newChunkedAsciiDecoder in
  toString (decodeAsciiFrom maxChunkSize (S (length buffer)) buffer 0 decoder).

End Encodings.

(** ** The transport client *)

Module Transport.

(** A value decoded from a MessagePack frame. *)
Inductive JsValue : Type :=
| JsNull
| JsUndefined
| JsBool (b : bool)
| JsNumber (n : Qc)
| JsNaN
| JsStr (s : string)
| JsBinary (bytes : list N)
| JsArray (items : list JsValue)
| JsObject (props : list (string * JsValue)).

(** What a handler can throw: the [TypeError] of the language, or whatever a
    collaborator threw. *)
Inductive Exception : Type :=
| TypeError (message : string)
| Thrown (value : JsValue).

(** The lines the client writes with [log]. *)
Inductive LogLine : Type :=
| UnexpectedStringMessage (messageData : list N)
| FailedToDecode (reason : Exception)
| MessageWithoutRequestId.

Inductive Effect (Listener : Type) : Type :=
| Log (line : LogLine)
| Invoke (listener : Listener) (message : JsValue).
Arguments Log {Listener} line.
Arguments Invoke {Listener} listener message.

(** How a handler ends. *)
Inductive Completion : Type :=
| Returns
| Throws (e : Exception).

(** The run of a handler: what it did, in order, and how it ended. *)
Record Outcome (Listener : Type) : Type := {
  effects : list (Effect Listener);
  completion : Completion
}.
Arguments effects {Listener} o.
Arguments completion {Listener} o.

(** [ToBoolean]. *)
Definition truthy (v : JsValue) : bool :=
  match v with
  | JsNull | JsUndefined | JsNaN => false
  | JsBool b => b
  | JsNumber n => if decide (n = 0%Qc) then false else true
  | JsStr s => if decide (s = EmptyString) then false else true
  | JsBinary _ | JsArray _ | JsObject _ => true
  end.

(** The last binding of [key] among the entries of a decoded map (a later
    entry of the same key overwrites an earlier one). *)
Fixpoint lastBinding (key : string) (props : list (string * JsValue)) : option JsValue :=
  match props with
  | [] => None
  | (k, v) :: props' =>
    match lastBinding key props' with
    | Some v' => Some v'
    | None => if decide (k = key) then Some v else None
    end
  end.

(** [value.requestId]: a [TypeError] on [null] and [undefined]; the property
    of an object, [undefined] when it has none; [undefined] on the other
    values, whose prototypes have no such property. *)
Definition getRequestId (value : JsValue) : Exception + JsValue :=
  match value with
  | JsNull => inl (TypeError "Cannot read properties of null (reading 'requestId')")
  | JsUndefined => inl (TypeError "Cannot read properties of undefined (reading 'requestId')")
  | JsObject props => inr (default JsUndefined (lastBinding "requestId" props))
  | _ => inr JsUndefined
  end.

(** [class Client]: the listeners registered by [sendRequest], by request
    identifier. *)
Record Client (Listener : Type) : Type := {
  responseListeners : gmap string Listener
}.
Arguments responseListeners {Listener} c.

Section ClientMethods.
Context {Listener : Type}.

(** [decodeMsgPack] of msgpack-lite: the decoded value, or what it threw. *)
Variable decodeMsgPack : list N -> Exception + JsValue.

(** How the call of a registered listener ends. *)
Variable callListener : Listener -> JsValue -> Completion.

(** [this.responseListeners.get(requestId)]: the keys are strings, and only
    a string equals one. *)
Definition getListener (this : Client Listener) (requestId : JsValue) : option Listener :=
  match requestId with
  | JsStr s => responseListeners this !! s
  | _ => None
  end.

(** [sendRequest] registers the listener under the fresh identifier. *)
Definition registerListener (this : Client Listener) (requestId : string)
    (onResponse : Listener) : Client Listener :=
  {| responseListeners := <[requestId := onResponse]> (responseListeners this) |}.

Definition onMessage (this : Client Listener) (incomingMessage : JsValue) : Outcome Listener :=
  match getRequestId incomingMessage with
  | inl e => {| effects := []; completion := Throws e |}
  | inr requestId =>
    if negb (truthy requestId) then
      {| effects := [Log MessageWithoutRequestId]; completion := Returns |}
    else
      match getListener this requestId with
      | Some listener =>
        {| effects := [Invoke listener incomingMessage];
           completion := callListener listener incomingMessage |}
      | None => {| effects := []; completion := Returns |}
      end
  end.

(** The handler the constructor installs with [ws.on("message", ...)]. *)
Definition onWebSocketMessage (this : Client Listener) (messageData : list N)
    (isBinary : bool) : Outcome Listener :=
  if negb isBinary then
    {| effects := [Log (UnexpectedStringMessage messageData)]; completion := Returns |}
  else
    match decodeMsgPack messageData with
    | inl e => {| effects := [Log (FailedToDecode e)]; completion := Returns |}
    | inr incomingMessage => onMessage this incomingMessage
    end.

End ClientMethods.

(** No listener was called during a run. *)
Definition invokesNoListener {Listener} (o : Outcome Listener) : Prop :=
  Forall (fun e => match e with Invoke _ _ => False | Log _ => True end) (effects o).

(** The one-byte formats of MessagePack ([nil], [false], [true], positive
    fixint); any other frame is refused.  Used to run the handler on
    concrete frames. *)
Definition decodeOneByte (frame : list N) : Exception + JsValue :=
  match frame with
  | [b] =>
    if (b =? 0xC0)%N then inr JsNull
    else if (b =? 0xC2)%N then inr (JsBool false)
    else if (b =? 0xC3)%N then inr (JsBool true)
    else if (b <? 0x80)%N then inr (JsNumber (Q2Qc (inject_Z (Z.of_N b))))
    else inl (Thrown (JsStr "unsupported format"))
  | _ => inl (Thrown (JsStr "unsupported format"))
  end.

(** *** Requests *)

(** [object[key] = value]: an existing property keeps its place and takes
    the value; a new property comes last. *)
Fixpoint setProperty (key : string) (value : JsValue) (props : list (string * JsValue))
    : list (string * JsValue) :=
  match props with
  | [] => [(key, value)]
  | (k, v) :: props' =>
    if decide (k = key) then (k, value) :: props'
    else (k, v) :: setProperty key value props'
  end.

(** [{ requestId, ...request }] for an object [request]: the identifier
    first, then the properties of [request] in their order, each defined on
    the new object. *)
Definition withRequestId (requestId : string) (request : list (string * JsValue))
    : list (string * JsValue) :=
  fold_left (fun object property => setProperty property.1 property.2 object)
            request [("requestId", JsStr requestId)].

(** What [sendRequest] leaves: the client, the frames handed to
    [ws.send], and how the call ended. *)
Record SendOutcome (Listener : Type) : Type := {
  after : Client Listener;
  sent : list (list N);
  ended : Completion
}.
Arguments after {Listener} _.
Arguments sent {Listener} _.
Arguments ended {Listener} _.

Section ClientRequests.
Context {Listener : Type}.

(** [encodeMsgPack] of msgpack-lite: the encoded bytes, or what it threw. *)
Variable encodeMsgPack : JsValue -> Exception + list N.

(** How [this.ws.send] ends on a frame. *)
Variable wsSend : list N -> Completion.

(** [sendRequest]; [requestId] is what [getRandomHexString(16)] returned,
    [request] the properties of the request object. *)
Definition sendRequest (this : Client Listener) (requestId : string)
    (request : list (string * JsValue)) (onResponse : Listener) : SendOutcome Listener :=
  let request := JsObject (withRequestId requestId request) in
  match encodeMsgPack request with
  | inl e => {| after := this; sent := []; ended := Throws e |}
  | inr encodedRequest =>
    match wsSend encodedRequest with
    | Throws e => {| after := this; sent := [encodedRequest]; ended := Throws e |}
    | Returns =>
      {| after := registerListener this requestId onResponse;
         sent := [encodedRequest]; ended := Returns |}
    end
  end.

End ClientRequests.

(** The [onResponse] closure of [synthesizeSegments], with the callbacks it
    captured, and that of [requestVoiceList]; each settles the promise of
    its own request. *)
Inductive ResponseListener (Callback : Type) : Type :=
| SynthesizeSegmentsListener (onSegment onSentence : option Callback)
| VoiceListListener.
Arguments SynthesizeSegmentsListener {Callback} onSegment onSentence.
Arguments VoiceListListener {Callback}.

(** What a request method and its closure do to the caller: settle the
    promise of the request, call a callback. *)
Inductive RequestEffect (Callback : Type) : Type :=
| Resolve (value : JsValue)
| Reject (reason : Exception)
| CallBack (callback : Callback) (message : JsValue).
Arguments Resolve {Callback} value.
Arguments Reject {Callback} reason.
Arguments CallBack {Callback} callback message.

(** [responseMessage.messageType] of a message of the declared types: an
    object whose [messageType] is a string.  Other values are outside the
    declared types, and are not modelled. *)
Definition messageTypeOf (responseMessage : JsValue) : option string :=
  match responseMessage with
  | JsObject props =>
    match lastBinding "messageType" props with
    | Some (JsStr messageType) => Some messageType
    | _ => None
    end
  | _ => None
  end.

(** What a request leaves: the client, the frames sent, and what became of
    the promise it returns. *)
Record RequestOutcome (Callback : Type) : Type := {
  client : Client (ResponseListener Callback);
  frames : list (list N);
  settled : list (RequestEffect Callback)
}.
Arguments client {Callback} _.
Arguments frames {Callback} _.
Arguments settled {Callback} _.

Section ClientApi.
Context {Callback : Type}.
Variable encodeMsgPack : JsValue -> Exception + list N.
Variable wsSend : list N -> Completion.

(** [callback(message)] for a callback that was given. *)
Definition invoke (callback : option Callback) (message : JsValue)
    : list (RequestEffect Callback) :=
  match callback with
  | Some callback => [CallBack callback message]
  | None => []
  end.

(** The two [onResponse] closures, on a message of the declared types. *)
Definition onResponse (listener : ResponseListener Callback) (responseMessage : JsValue)
    : option (list (RequestEffect Callback)) :=
  match messageTypeOf responseMessage with
  | Some messageType =>
    Some
      match listener with
      | SynthesizeSegmentsListener onSegment onSentence =>
        if bool_decide (messageType = "SynthesizeSegmentsResponse") then
          [Resolve responseMessage]
        else if bool_decide (messageType = "SynthesisSegmentEvent")
                && bool_decide (is_Some onSegment) then
          invoke onSegment responseMessage
        else if bool_decide (messageType = "SynthesisSentenceEvent")
                && bool_decide (is_Some onSentence) then
          invoke onSentence responseMessage
        else []
      | VoiceListListener =>
        if bool_decide (messageType = "VoiceListResponse") then [Resolve responseMessage]
        else []
      end
  | None => None
  end.

(** The [try] around [sendRequest]: what it threw rejects the promise. *)
Definition rejectOnThrow (outcome : SendOutcome (ResponseListener Callback))
    : RequestOutcome Callback :=
  {| client := after outcome;
     frames := sent outcome;
     settled := match ended outcome with
                | Throws e => [Reject e]
                | Returns => []
                end |}.

(** [Client.synthesizeSegments]; [segments] and [options] are the values
    the encoder receives. *)
Definition synthesizeSegments (this : Client (ResponseListener Callback))
    (requestId : string) (segments options : JsValue)
    (onSegment onSentence : option Callback) : RequestOutcome Callback :=
  let request := [("messageType", JsStr "SynthesizeSegmentsRequest");
                  ("segments", segments); ("options", options)] in
  rejectOnThrow
    (sendRequest encodeMsgPack wsSend this requestId request
                 (SynthesizeSegmentsListener onSegment onSentence)).

(** [Client.requestVoiceList]. *)
Definition requestVoiceList (this : Client (ResponseListener Callback))
    (requestId : string) (options : JsValue) : RequestOutcome Callback :=
  let request := [("messageType", JsStr "VoiceListRequest"); ("options", options)] in
  rejectOnThrow (sendRequest encodeMsgPack wsSend this requestId request VoiceListListener).

End ClientApi.

End Transport.

(** ** Numbers and text of the synthesis pipeline *)

Module Js.

(** A JavaScript [number], read as an exact rational. *)
Abbreviation number := Qc.

Definition num (z : Z) : number := Q2Qc (inject_Z z).
Definition ratio (a : Z) (b : positive) : number := Q2Qc (a # b).

Definition Math_floor (x : number) : Z := Qfloor x.
(** [Math.round] rounds half up. *)
Definition Math_round (x : number) : Z := Qfloor (x + ratio 1 2)%Qc.
Definition Math_max (x y : number) : number := if bool_decide (x <= y)%Qc then y else x.
Definition Math_abs (x : number) : number := if bool_decide (0 <= x)%Qc then x else (- x)%Qc.

(** [`${n}`] for an integer. *)
Definition showZ (z : Z) : string := NilEmpty.string_of_int (Z.to_int z).

(** [ToBoolean] of a [string | undefined]. *)
Definition truthyString (s : option string) : bool :=
  match s with Some v => negb (bool_decide (v = EmptyString)) | None => false end.

(** [a || b] on numbers and on strings. *)
Definition orNumber (a : option number) (b : number) : number :=
  match a with Some v => if bool_decide (v = 0%Qc) then b else v | None => b end.

Definition orString (a : option string) (b : string) : string :=
  match a with Some v => if bool_decide (v = EmptyString) then b else v | None => b end.

(** White space of [String.prototype.trim] among the code units below 256:
    TAB, LF, VT, FF, CR, SPACE and NO-BREAK SPACE. *)
Definition isWhiteSpace (c : ascii) : bool :=
  let n := N_of_ascii c in
  ((9 <=? n) && (n <=? 13) || (n =? 32) || (n =? 160))%N.

Fixpoint trimStart (s : string) : string :=
  match s with
  | String c s' => if isWhiteSpace c then trimStart s' else s
  | EmptyString => EmptyString
  end.

Fixpoint trimEnd (s : string) : string :=
  match s with
  | String c s' =>
    match trimEnd s' with
    | EmptyString => if isWhiteSpace c then EmptyString else String c EmptyString
    | rest => String c rest
    end
  | EmptyString => EmptyString
  end.

Definition trim (s : string) : string := trimEnd (trimStart s).

(** [toLowerCase] on code units below 256 (A-Z, and the capital letters of
    Latin-1 but the multiplication sign); [toLocaleLowerCase] is read in a
    locale without special casing rules. *)
Definition lowerChar (c : ascii) : ascii :=
  let n := N_of_ascii c in
  if ((65 <=? n) && (n <=? 90) || (192 <=? n) && (n <=? 222) && negb (n =? 215))%N
  then ascii_of_N (n + 32) else c.

Fixpoint toLowerCase (s : string) : string :=
  match s with
  | String c s' => String (lowerChar c) (toLowerCase s')
  | EmptyString => EmptyString
  end.

Definition toLocaleLowerCase (s : string) : string := toLowerCase s.

Definition startsWith (s pattern : string) : bool := String.prefix pattern s.

(** [s.includes(pattern)]. *)
Fixpoint includes (s pattern : string) : bool :=
  String.prefix pattern s ||
  match s with
  | String _ s' => includes s' pattern
  | EmptyString => false
  end.

(** [\w] of a regular expression without the unicode flag. *)
Definition isWordChar (c : ascii) : bool :=
  let n := N_of_ascii c in
  ((48 <=? n) && (n <=? 57) || (65 <=? n) && (n <=? 90)
   || (97 <=? n) && (n <=? 122) || (n =? 95))%N.

(** [s.split(/\b/g)]: the maximal runs of word characters and of other
    characters, in order ([split] cuts at no empty match at either end);
    the empty string gives one empty part. *)
Fixpoint splitAtWordBoundaries (s : string) : list string :=
  match s with
  | EmptyString => [EmptyString]
  | String c s' =>
    match s' with
    | EmptyString => [String c EmptyString]
    | String c' _ =>
      match splitAtWordBoundaries s' with
      | part :: parts =>
        if Bool.eqb (isWordChar c) (isWordChar c') then String c part :: parts
        else String c EmptyString :: part :: parts
      | [] => [String c EmptyString]
      end
    end
  end.

(** [xs.join(separator)]. *)
Definition join (separator : string) (xs : list string) : string :=
  String.concat separator xs.

(** *** Doubles

    The IEEE 754 binary64 numbers, as [SpecFloat] specifies them: 53 bits
    of precision, exponents up to 1024. *)
Module Double.

Definition prec : Z := 53.
Definition emax : Z := 1024.

(** An integer literal, and the double of an integer. *)
Definition ofZ (z : Z) : spec_float := binary_normalize prec emax z 0 false.

(** The double nearest to a rational, ties to even: the numerator divided
    by the denominator, rounded once.  This is the double a literal of that
    value denotes. *)
Definition ofNumber (x : number) : spec_float :=
  match Qnum x with
  | Z0 => S754_zero false
  | Zpos n => SFdiv prec emax (S754_finite false n 0) (S754_finite false (Qden x) 0)
  | Zneg n => SFdiv prec emax (S754_finite true n 0) (S754_finite false (Qden x) 0)
  end.

(** [x - y], [x * y], [x / y] and [x >= y]. *)
Definition sub : spec_float -> spec_float -> spec_float := SFsub prec emax.
Definition mul : spec_float -> spec_float -> spec_float := SFmul prec emax.
Definition div : spec_float -> spec_float -> spec_float := SFdiv prec emax.
Definition geb (x y : spec_float) : bool := SFleb y x.

(** [Math.floor]: NaN, the infinities and the zeros are left as they are,
    and so is a double without fractional bits. *)
Definition Math_floor (x : spec_float) : spec_float :=
  match x with
  | S754_finite s m e =>
    if (0 <=? e)%Z then x
    else binary_normalize prec emax (Z.shiftr (cond_Zopp s (Zpos m)) (- e)) 0 s
  | _ => x
  end.

(** The value of a finite double. *)
Definition pow2 (e : Z) : Q := (2 ^ e)%Q.

Definition toQ (x : spec_float) : Q :=
  match x with
  | S754_finite s m e => (inject_Z (cond_Zopp s (Zpos m)) * pow2 e)%Q
  | _ => 0%Q
  end.





End Double.

End Js.

(** ** The data model of [Synthesis.ts] *)

Module Synthesis.
Import Js.
Local Open Scope Qc_scope.
Local Open Scope string_scope.

(** [SynthesisVoice].  [gender] is whatever string the voice list holds
    ("male", "female", "unknown" by its type); [elevenLabsVoiceId] is the
    extra property the ElevenLabs listing attaches. *)
Record SynthesisVoice : Type := {
  name : string;
  languages : list string;
  gender : string;
  speakerCount : option Z;
  packageName : option string;
  elevenLabsVoiceId : option string
}.

(** [TimelineEntry]; an absent [timeline] is the empty list of children. *)
Inductive TimelineEntry : Type :=
  MkTimelineEntry (type text : string) (startTime endTime : number)
                  (timeline : list TimelineEntry).

Abbreviation Timeline := (list TimelineEntry).

Definition type (e : TimelineEntry) : string :=
  match e with MkTimelineEntry ty _ _ _ _ => ty end.
Definition text (e : TimelineEntry) : string :=
  match e with MkTimelineEntry _ tx _ _ _ => tx end.
Definition startTime (e : TimelineEntry) : number :=
  match e with MkTimelineEntry _ _ s _ _ => s end.
Definition endTime (e : TimelineEntry) : number :=
  match e with MkTimelineEntry _ _ _ e' _ => e' end.
Definition timeline (e : TimelineEntry) : Timeline :=
  match e with MkTimelineEntry _ _ _ _ tl => tl end.

(** Every time stamp of an entry: its own two, then those of its children,
    in order. *)
Fixpoint entryTimestamps (e : TimelineEntry) : list number :=
  match e with
  | MkTimelineEntry _ _ s e' children =>
    s :: e' :: flat_map entryTimestamps children
  end.

Definition timestamps (tl : Timeline) : list number := flat_map entryTimestamps tl.

(** Every text of an entry: its own, then those of its children. *)
Fixpoint entryTexts (e : TimelineEntry) : list string :=
  match e with
  | MkTimelineEntry _ tx _ _ children => tx :: flat_map entryTexts children
  end.

Definition texts (tl : Timeline) : list string := flat_map entryTexts tl.

(** Modelled from the spec: [addTimeOffsetToTimeline] of
    [utilities/Timeline.ts], which is not among the sources.  The spec has
    the time line "shifted by the exact duration", "time-offset by the
    cursor's value": the offset is added to the start and end time of every
    entry, children included; nothing else changes. *)
Fixpoint addTimeOffsetToEntry (timeOffset : number) (e : TimelineEntry) : TimelineEntry :=
  match e with
  | MkTimelineEntry ty tx s e' children =>
    MkTimelineEntry ty tx (s + timeOffset) (e' + timeOffset)
                    (map (addTimeOffsetToEntry timeOffset) children)
  end.

Definition addTimeOffsetToTimeline (targetTimeline : Timeline) (timeOffset : number) : Timeline :=
  map (addTimeOffsetToEntry timeOffset) targetTimeline.

(** Modelled from the spec: [multiplyTimelineByFactor] of
    [utilities/Timeline.ts], which is not among the sources.  The spec has
    "every timeline timestamp is rescaled by" the factor: the start and end
    time of every entry, children included, are multiplied by it. *)
Fixpoint multiplyEntryByFactor (factor : number) (e : TimelineEntry) : TimelineEntry :=
  match e with
  | MkTimelineEntry ty tx s e' children =>
    MkTimelineEntry ty tx (s * factor) (e' * factor)
                    (map (multiplyEntryByFactor factor) children)
  end.

Definition multiplyTimelineByFactor (targetTimeline : Timeline) (factor : number) : Timeline :=
  map (multiplyEntryByFactor factor) targetTimeline.

(** [RawAudio]: the samples of each channel and the sample rate. *)
Record RawAudio : Type := {
  audioChannels : list (list number);
  sampleRate : number
}.

(** [audio.audioChannels[0] = samples]. *)
Definition setChannel0 (audio : RawAudio) (samples : list number) : RawAudio :=
  {| audioChannels := match audioChannels audio with
                      | [] => [samples]
                      | _ :: others => samples :: others
                      end;
     sampleRate := sampleRate audio |}.

(** [SynthesisEngine]; [OtherEngine] is any other string found at run time
    in [options.engine] (the [default] branch of the dispatch). *)
Inductive SynthesisEngine : Type :=
| vits | pico | flite | espeak | sam | sapi | msspeech | coqui_server
| google_cloud | microsoft_azure | amazon_polly | elevenlabs
| google_translate | microsoft_edge | streamlabs_polly
| OtherEngine (engineName : string).

Definition engineName (e : SynthesisEngine) : string :=
  match e with
  | vits => "vits" | pico => "pico" | flite => "flite" | espeak => "espeak"
  | sam => "sam" | sapi => "sapi" | msspeech => "msspeech"
  | coqui_server => "coqui-server" | google_cloud => "google-cloud"
  | microsoft_azure => "microsoft-azure" | amazon_polly => "amazon-polly"
  | elevenlabs => "elevenlabs" | google_translate => "google-translate"
  | microsoft_edge => "microsoft-edge" | streamlabs_polly => "streamlabs-polly"
  | OtherEngine n => n
  end.

(** [!options.engine]. *)
Definition truthyEngine (e : option SynthesisEngine) : bool :=
  match e with
  | Some e' => negb (bool_decide (engineName e' = ""))
  | None => false
  end.

(** [SynthesisOptions] and [VoiceListRequestOptions].  Every field is
    optional, as in the source; the nested records are flattened, the field
    [a.b] of the source being [a_b] here. *)
Record SynthesisOptions : Type := {
  engine : option SynthesisEngine;
  language : option string;
  voice : option string;
  voiceGender : option string;
  speed : option number;
  pitch : option number;
  pitchVariation : option number;
  ssml : option bool;
  splitToSentences : option bool;
  segmentEndPause : option number;
  sentenceEndPause : option number;
  alignment_engine : option string;
  alignment_language : option string;
  postProcessing_normalizeAudio : option bool;
  postProcessing_targetPeakDb : option number;
  postProcessing_maxIncreaseDb : option number;
  postProcessing_speed : option number;
  postProcessing_pitch : option number;
  postProcessing_timePitchShiftingMethod : option string;
  vits_speakerId : option Z;
  vits_customLexiconPaths : option (list string);
  espeak_rate : option number;
  espeak_pitch : option number;
  espeak_pitchRange : option number;
  sam_pitch : option number;
  sam_speed : option number;
  sam_mouth : option number;
  sam_throat : option number;
  sapi_rate : option number;
  msspeech_rate : option number;
  coquiServer_serverUrl : option string;
  coquiServer_speakerId : option string;
  googleCloud_apiKey : option string;
  googleCloud_pitchDeltaSemitones : option number;
  microsoftAzure_subscriptionKey : option string;
  microsoftAzure_serviceRegion : option string;
  microsoftAzure_pitchDeltaHz : option number;
  awsPolly_region : option string;
  awsPolly_accessKeyId : option string;
  awsPolly_secretAccessKey : option string;
  awsPolly_pollyEngine : option string;
  awsPolly_lexiconNames : option (list string);
  elevenlabs_apiKey : option string;
  elevenlabs_stability : option number;
  elevenlabs_similarityBoost : option number;
  googleTranslate_tld : option string;
  microsoftEdge_trustedClientToken : option string;
  microsoftEdge_pitchDeltaHz : option number;
  cache_path : option string;
  cache_duration : option number
}.

(** The options with no field set ([{}]). *)
Definition emptyOptions : SynthesisOptions :=
  {| engine := None; language := None; voice := None; voiceGender := None;
     speed := None; pitch := None; pitchVariation := None; ssml := None;
     splitToSentences := None; segmentEndPause := None; sentenceEndPause := None;
     alignment_engine := None; alignment_language := None;
     postProcessing_normalizeAudio := None; postProcessing_targetPeakDb := None;
     postProcessing_maxIncreaseDb := None; postProcessing_speed := None;
     postProcessing_pitch := None; postProcessing_timePitchShiftingMethod := None;
     vits_speakerId := None; vits_customLexiconPaths := None;
     espeak_rate := None; espeak_pitch := None; espeak_pitchRange := None;
     sam_pitch := None; sam_speed := None; sam_mouth := None; sam_throat := None;
     sapi_rate := None; msspeech_rate := None;
     coquiServer_serverUrl := None; coquiServer_speakerId := None;
     googleCloud_apiKey := None; googleCloud_pitchDeltaSemitones := None;
     microsoftAzure_subscriptionKey := None; microsoftAzure_serviceRegion := None;
     microsoftAzure_pitchDeltaHz := None;
     awsPolly_region := None; awsPolly_accessKeyId := None;
     awsPolly_secretAccessKey := None; awsPolly_pollyEngine := None;
     awsPolly_lexiconNames := None;
     elevenlabs_apiKey := None; elevenlabs_stability := None;
     elevenlabs_similarityBoost := None;
     googleTranslate_tld := None;
     microsoftEdge_trustedClientToken := None; microsoftEdge_pitchDeltaHz := None;
     cache_path := None; cache_duration := None |}.

(** [defaultSynthesisOptions], with the [cache] defaults of
    [defaultVoiceListRequestOptions]. *)
Definition defaultSynthesisOptions : SynthesisOptions :=
  {| engine := None; language := None; voice := None; voiceGender := None;
     speed := Some 1; pitch := Some 1; pitchVariation := Some 1;
     ssml := Some false;
     splitToSentences := Some true;
     segmentEndPause := Some 1; sentenceEndPause := Some (ratio 3 4);
     alignment_engine := Some "dtw"; alignment_language := None;
     postProcessing_normalizeAudio := Some true;
     postProcessing_targetPeakDb := Some (num (-3));
     postProcessing_maxIncreaseDb := Some (num 30);
     postProcessing_speed := None; postProcessing_pitch := None;
     postProcessing_timePitchShiftingMethod := Some "sonic";
     vits_speakerId := None; vits_customLexiconPaths := None;
     espeak_rate := None; espeak_pitch := None; espeak_pitchRange := None;
     sam_pitch := None; sam_speed := None;
     sam_mouth := Some (num 128); sam_throat := Some (num 128);
     sapi_rate := Some 0; msspeech_rate := Some 0;
     coquiServer_serverUrl := Some "http://[::1]:5002"; coquiServer_speakerId := None;
     googleCloud_apiKey := None; googleCloud_pitchDeltaSemitones := None;
     microsoftAzure_subscriptionKey := None; microsoftAzure_serviceRegion := None;
     microsoftAzure_pitchDeltaHz := None;
     awsPolly_region := None; awsPolly_accessKeyId := None;
     awsPolly_secretAccessKey := None; awsPolly_pollyEngine := None;
     awsPolly_lexiconNames := None;
     elevenlabs_apiKey := None; elevenlabs_stability := Some 0;
     elevenlabs_similarityBoost := Some 0;
     googleTranslate_tld := Some "us";
     microsoftEdge_trustedClientToken := None; microsoftEdge_pitchDeltaHz := None;
     cache_path := None; cache_duration := Some (num 60) |}.

Definition defaultVoiceListRequestOptions : SynthesisOptions := defaultSynthesisOptions.

(** One leaf of [extendDeep]: the second value when it is set, the first
    otherwise. *)
Definition leaf {A} (base extension : option A) : option A :=
  match extension with Some v => Some v | None => base end.

(** Modelled from the spec: [extendDeep] of [utilities/ObjectUtilities.ts],
    which is not among the sources.  The spec has unset fields "fall back to
    documented defaults; defaults are merged recursively, never overwriting
    an explicitly-set leaf": a new record, leaf by leaf. *)
Definition extendDeep (base extension : SynthesisOptions) : SynthesisOptions :=
  {| engine := leaf (engine base) (engine extension);
     language := leaf (language base) (language extension);
     voice := leaf (voice base) (voice extension);
     voiceGender := leaf (voiceGender base) (voiceGender extension);
     speed := leaf (speed base) (speed extension);
     pitch := leaf (pitch base) (pitch extension);
     pitchVariation := leaf (pitchVariation base) (pitchVariation extension);
     ssml := leaf (ssml base) (ssml extension);
     splitToSentences := leaf (splitToSentences base) (splitToSentences extension);
     segmentEndPause := leaf (segmentEndPause base) (segmentEndPause extension);
     sentenceEndPause := leaf (sentenceEndPause base) (sentenceEndPause extension);
     alignment_engine := leaf (alignment_engine base) (alignment_engine extension);
     alignment_language := leaf (alignment_language base) (alignment_language extension);
     postProcessing_normalizeAudio :=
       leaf (postProcessing_normalizeAudio base) (postProcessing_normalizeAudio extension);
     postProcessing_targetPeakDb :=
       leaf (postProcessing_targetPeakDb base) (postProcessing_targetPeakDb extension);
     postProcessing_maxIncreaseDb :=
       leaf (postProcessing_maxIncreaseDb base) (postProcessing_maxIncreaseDb extension);
     postProcessing_speed := leaf (postProcessing_speed base) (postProcessing_speed extension);
     postProcessing_pitch := leaf (postProcessing_pitch base) (postProcessing_pitch extension);
     postProcessing_timePitchShiftingMethod :=
       leaf (postProcessing_timePitchShiftingMethod base)
            (postProcessing_timePitchShiftingMethod extension);
     vits_speakerId := leaf (vits_speakerId base) (vits_speakerId extension);
     vits_customLexiconPaths :=
       leaf (vits_customLexiconPaths base) (vits_customLexiconPaths extension);
     espeak_rate := leaf (espeak_rate base) (espeak_rate extension);
     espeak_pitch := leaf (espeak_pitch base) (espeak_pitch extension);
     espeak_pitchRange := leaf (espeak_pitchRange base) (espeak_pitchRange extension);
     sam_pitch := leaf (sam_pitch base) (sam_pitch extension);
     sam_speed := leaf (sam_speed base) (sam_speed extension);
     sam_mouth := leaf (sam_mouth base) (sam_mouth extension);
     sam_throat := leaf (sam_throat base) (sam_throat extension);
     sapi_rate := leaf (sapi_rate base) (sapi_rate extension);
     msspeech_rate := leaf (msspeech_rate base) (msspeech_rate extension);
     coquiServer_serverUrl := leaf (coquiServer_serverUrl base) (coquiServer_serverUrl extension);
     coquiServer_speakerId := leaf (coquiServer_speakerId base) (coquiServer_speakerId extension);
     googleCloud_apiKey := leaf (googleCloud_apiKey base) (googleCloud_apiKey extension);
     googleCloud_pitchDeltaSemitones :=
       leaf (googleCloud_pitchDeltaSemitones base) (googleCloud_pitchDeltaSemitones extension);
     microsoftAzure_subscriptionKey :=
       leaf (microsoftAzure_subscriptionKey base) (microsoftAzure_subscriptionKey extension);
     microsoftAzure_serviceRegion :=
       leaf (microsoftAzure_serviceRegion base) (microsoftAzure_serviceRegion extension);
     microsoftAzure_pitchDeltaHz :=
       leaf (microsoftAzure_pitchDeltaHz base) (microsoftAzure_pitchDeltaHz extension);
     awsPolly_region := leaf (awsPolly_region base) (awsPolly_region extension);
     awsPolly_accessKeyId := leaf (awsPolly_accessKeyId base) (awsPolly_accessKeyId extension);
     awsPolly_secretAccessKey :=
       leaf (awsPolly_secretAccessKey base) (awsPolly_secretAccessKey extension);
     awsPolly_pollyEngine := leaf (awsPolly_pollyEngine base) (awsPolly_pollyEngine extension);
     awsPolly_lexiconNames := leaf (awsPolly_lexiconNames base) (awsPolly_lexiconNames extension);
     elevenlabs_apiKey := leaf (elevenlabs_apiKey base) (elevenlabs_apiKey extension);
     elevenlabs_stability := leaf (elevenlabs_stability base) (elevenlabs_stability extension);
     elevenlabs_similarityBoost :=
       leaf (elevenlabs_similarityBoost base) (elevenlabs_similarityBoost extension);
     googleTranslate_tld := leaf (googleTranslate_tld base) (googleTranslate_tld extension);
     microsoftEdge_trustedClientToken :=
       leaf (microsoftEdge_trustedClientToken base) (microsoftEdge_trustedClientToken extension);
     microsoftEdge_pitchDeltaHz :=
       leaf (microsoftEdge_pitchDeltaHz base) (microsoftEdge_pitchDeltaHz extension);
     cache_path := leaf (cache_path base) (cache_path extension);
     cache_duration := leaf (cache_duration base) (cache_duration extension) |}.

(** [options.language = v]. *)
Definition set_language (o : SynthesisOptions) (v : option string) : SynthesisOptions :=
  {| engine := engine o; language := v; voice := voice o; voiceGender := voiceGender o;
     speed := speed o; pitch := pitch o; pitchVariation := pitchVariation o;
     ssml := ssml o; splitToSentences := splitToSentences o;
     segmentEndPause := segmentEndPause o; sentenceEndPause := sentenceEndPause o;
     alignment_engine := alignment_engine o; alignment_language := alignment_language o;
     postProcessing_normalizeAudio := postProcessing_normalizeAudio o;
     postProcessing_targetPeakDb := postProcessing_targetPeakDb o;
     postProcessing_maxIncreaseDb := postProcessing_maxIncreaseDb o;
     postProcessing_speed := postProcessing_speed o;
     postProcessing_pitch := postProcessing_pitch o;
     postProcessing_timePitchShiftingMethod := postProcessing_timePitchShiftingMethod o;
     vits_speakerId := vits_speakerId o;
     vits_customLexiconPaths := vits_customLexiconPaths o; espeak_rate := espeak_rate o;
     espeak_pitch := espeak_pitch o; espeak_pitchRange := espeak_pitchRange o;
     sam_pitch := sam_pitch o; sam_speed := sam_speed o; sam_mouth := sam_mouth o;
     sam_throat := sam_throat o; sapi_rate := sapi_rate o;
     msspeech_rate := msspeech_rate o; coquiServer_serverUrl := coquiServer_serverUrl o;
     coquiServer_speakerId := coquiServer_speakerId o;
     googleCloud_apiKey := googleCloud_apiKey o;
     googleCloud_pitchDeltaSemitones := googleCloud_pitchDeltaSemitones o;
     microsoftAzure_subscriptionKey := microsoftAzure_subscriptionKey o;
     microsoftAzure_serviceRegion := microsoftAzure_serviceRegion o;
     microsoftAzure_pitchDeltaHz := microsoftAzure_pitchDeltaHz o;
     awsPolly_region := awsPolly_region o;
     awsPolly_accessKeyId := awsPolly_accessKeyId o;
     awsPolly_secretAccessKey := awsPolly_secretAccessKey o;
     awsPolly_pollyEngine := awsPolly_pollyEngine o;
     awsPolly_lexiconNames := awsPolly_lexiconNames o;
     elevenlabs_apiKey := elevenlabs_apiKey o;
     elevenlabs_stability := elevenlabs_stability o;
     elevenlabs_similarityBoost := elevenlabs_similarityBoost o;
     googleTranslate_tld := googleTranslate_tld o;
     microsoftEdge_trustedClientToken := microsoftEdge_trustedClientToken o;
     microsoftEdge_pitchDeltaHz := microsoftEdge_pitchDeltaHz o;
     cache_path := cache_path o; cache_duration := cache_duration o |}.

(** [options.engine = v]. *)
Definition set_engine (o : SynthesisOptions) (v : option SynthesisEngine) : SynthesisOptions :=
  {| engine := v; language := language o; voice := voice o;
     voiceGender := voiceGender o; speed := speed o; pitch := pitch o;
     pitchVariation := pitchVariation o; ssml := ssml o;
     splitToSentences := splitToSentences o; segmentEndPause := segmentEndPause o;
     sentenceEndPause := sentenceEndPause o; alignment_engine := alignment_engine o;
     alignment_language := alignment_language o;
     postProcessing_normalizeAudio := postProcessing_normalizeAudio o;
     postProcessing_targetPeakDb := postProcessing_targetPeakDb o;
     postProcessing_maxIncreaseDb := postProcessing_maxIncreaseDb o;
     postProcessing_speed := postProcessing_speed o;
     postProcessing_pitch := postProcessing_pitch o;
     postProcessing_timePitchShiftingMethod := postProcessing_timePitchShiftingMethod o;
     vits_speakerId := vits_speakerId o;
     vits_customLexiconPaths := vits_customLexiconPaths o; espeak_rate := espeak_rate o;
     espeak_pitch := espeak_pitch o; espeak_pitchRange := espeak_pitchRange o;
     sam_pitch := sam_pitch o; sam_speed := sam_speed o; sam_mouth := sam_mouth o;
     sam_throat := sam_throat o; sapi_rate := sapi_rate o;
     msspeech_rate := msspeech_rate o; coquiServer_serverUrl := coquiServer_serverUrl o;
     coquiServer_speakerId := coquiServer_speakerId o;
     googleCloud_apiKey := googleCloud_apiKey o;
     googleCloud_pitchDeltaSemitones := googleCloud_pitchDeltaSemitones o;
     microsoftAzure_subscriptionKey := microsoftAzure_subscriptionKey o;
     microsoftAzure_serviceRegion := microsoftAzure_serviceRegion o;
     microsoftAzure_pitchDeltaHz := microsoftAzure_pitchDeltaHz o;
     awsPolly_region := awsPolly_region o;
     awsPolly_accessKeyId := awsPolly_accessKeyId o;
     awsPolly_secretAccessKey := awsPolly_secretAccessKey o;
     awsPolly_pollyEngine := awsPolly_pollyEngine o;
     awsPolly_lexiconNames := awsPolly_lexiconNames o;
     elevenlabs_apiKey := elevenlabs_apiKey o;
     elevenlabs_stability := elevenlabs_stability o;
     elevenlabs_similarityBoost := elevenlabs_similarityBoost o;
     googleTranslate_tld := googleTranslate_tld o;
     microsoftEdge_trustedClientToken := microsoftEdge_trustedClientToken o;
     microsoftEdge_pitchDeltaHz := microsoftEdge_pitchDeltaHz o;
     cache_path := cache_path o; cache_duration := cache_duration o |}.

(** [options.voice = v]. *)
Definition set_voice (o : SynthesisOptions) (v : option string) : SynthesisOptions :=
  {| engine := engine o; language := language o; voice := v;
     voiceGender := voiceGender o; speed := speed o; pitch := pitch o;
     pitchVariation := pitchVariation o; ssml := ssml o;
     splitToSentences := splitToSentences o; segmentEndPause := segmentEndPause o;
     sentenceEndPause := sentenceEndPause o; alignment_engine := alignment_engine o;
     alignment_language := alignment_language o;
     postProcessing_normalizeAudio := postProcessing_normalizeAudio o;
     postProcessing_targetPeakDb := postProcessing_targetPeakDb o;
     postProcessing_maxIncreaseDb := postProcessing_maxIncreaseDb o;
     postProcessing_speed := postProcessing_speed o;
     postProcessing_pitch := postProcessing_pitch o;
     postProcessing_timePitchShiftingMethod := postProcessing_timePitchShiftingMethod o;
     vits_speakerId := vits_speakerId o;
     vits_customLexiconPaths := vits_customLexiconPaths o; espeak_rate := espeak_rate o;
     espeak_pitch := espeak_pitch o; espeak_pitchRange := espeak_pitchRange o;
     sam_pitch := sam_pitch o; sam_speed := sam_speed o; sam_mouth := sam_mouth o;
     sam_throat := sam_throat o; sapi_rate := sapi_rate o;
     msspeech_rate := msspeech_rate o; coquiServer_serverUrl := coquiServer_serverUrl o;
     coquiServer_speakerId := coquiServer_speakerId o;
     googleCloud_apiKey := googleCloud_apiKey o;
     googleCloud_pitchDeltaSemitones := googleCloud_pitchDeltaSemitones o;
     microsoftAzure_subscriptionKey := microsoftAzure_subscriptionKey o;
     microsoftAzure_serviceRegion := microsoftAzure_serviceRegion o;
     microsoftAzure_pitchDeltaHz := microsoftAzure_pitchDeltaHz o;
     awsPolly_region := awsPolly_region o;
     awsPolly_accessKeyId := awsPolly_accessKeyId o;
     awsPolly_secretAccessKey := awsPolly_secretAccessKey o;
     awsPolly_pollyEngine := awsPolly_pollyEngine o;
     awsPolly_lexiconNames := awsPolly_lexiconNames o;
     elevenlabs_apiKey := elevenlabs_apiKey o;
     elevenlabs_stability := elevenlabs_stability o;
     elevenlabs_similarityBoost := elevenlabs_similarityBoost o;
     googleTranslate_tld := googleTranslate_tld o;
     microsoftEdge_trustedClientToken := microsoftEdge_trustedClientToken o;
     microsoftEdge_pitchDeltaHz := microsoftEdge_pitchDeltaHz o;
     cache_path := cache_path o; cache_duration := cache_duration o |}.

(** [options.alignment.language = v]. *)
Definition set_alignment_language (o : SynthesisOptions) (v : option string) : SynthesisOptions :=
  {| engine := engine o; language := language o; voice := voice o;
     voiceGender := voiceGender o; speed := speed o; pitch := pitch o;
     pitchVariation := pitchVariation o; ssml := ssml o;
     splitToSentences := splitToSentences o; segmentEndPause := segmentEndPause o;
     sentenceEndPause := sentenceEndPause o; alignment_engine := alignment_engine o;
     alignment_language := v;
     postProcessing_normalizeAudio := postProcessing_normalizeAudio o;
     postProcessing_targetPeakDb := postProcessing_targetPeakDb o;
     postProcessing_maxIncreaseDb := postProcessing_maxIncreaseDb o;
     postProcessing_speed := postProcessing_speed o;
     postProcessing_pitch := postProcessing_pitch o;
     postProcessing_timePitchShiftingMethod := postProcessing_timePitchShiftingMethod o;
     vits_speakerId := vits_speakerId o;
     vits_customLexiconPaths := vits_customLexiconPaths o; espeak_rate := espeak_rate o;
     espeak_pitch := espeak_pitch o; espeak_pitchRange := espeak_pitchRange o;
     sam_pitch := sam_pitch o; sam_speed := sam_speed o; sam_mouth := sam_mouth o;
     sam_throat := sam_throat o; sapi_rate := sapi_rate o;
     msspeech_rate := msspeech_rate o; coquiServer_serverUrl := coquiServer_serverUrl o;
     coquiServer_speakerId := coquiServer_speakerId o;
     googleCloud_apiKey := googleCloud_apiKey o;
     googleCloud_pitchDeltaSemitones := googleCloud_pitchDeltaSemitones o;
     microsoftAzure_subscriptionKey := microsoftAzure_subscriptionKey o;
     microsoftAzure_serviceRegion := microsoftAzure_serviceRegion o;
     microsoftAzure_pitchDeltaHz := microsoftAzure_pitchDeltaHz o;
     awsPolly_region := awsPolly_region o;
     awsPolly_accessKeyId := awsPolly_accessKeyId o;
     awsPolly_secretAccessKey := awsPolly_secretAccessKey o;
     awsPolly_pollyEngine := awsPolly_pollyEngine o;
     awsPolly_lexiconNames := awsPolly_lexiconNames o;
     elevenlabs_apiKey := elevenlabs_apiKey o;
     elevenlabs_stability := elevenlabs_stability o;
     elevenlabs_similarityBoost := elevenlabs_similarityBoost o;
     googleTranslate_tld := googleTranslate_tld o;
     microsoftEdge_trustedClientToken := microsoftEdge_trustedClientToken o;
     microsoftEdge_pitchDeltaHz := microsoftEdge_pitchDeltaHz o;
     cache_path := cache_path o; cache_duration := cache_duration o |}.

(** [options.postProcessing.normalizeAudio = v]. *)
Definition set_postProcessing_normalizeAudio (o : SynthesisOptions) (v : option bool) : SynthesisOptions :=
  {| engine := engine o; language := language o; voice := voice o;
     voiceGender := voiceGender o; speed := speed o; pitch := pitch o;
     pitchVariation := pitchVariation o; ssml := ssml o;
     splitToSentences := splitToSentences o; segmentEndPause := segmentEndPause o;
     sentenceEndPause := sentenceEndPause o; alignment_engine := alignment_engine o;
     alignment_language := alignment_language o; postProcessing_normalizeAudio := v;
     postProcessing_targetPeakDb := postProcessing_targetPeakDb o;
     postProcessing_maxIncreaseDb := postProcessing_maxIncreaseDb o;
     postProcessing_speed := postProcessing_speed o;
     postProcessing_pitch := postProcessing_pitch o;
     postProcessing_timePitchShiftingMethod := postProcessing_timePitchShiftingMethod o;
     vits_speakerId := vits_speakerId o;
     vits_customLexiconPaths := vits_customLexiconPaths o; espeak_rate := espeak_rate o;
     espeak_pitch := espeak_pitch o; espeak_pitchRange := espeak_pitchRange o;
     sam_pitch := sam_pitch o; sam_speed := sam_speed o; sam_mouth := sam_mouth o;
     sam_throat := sam_throat o; sapi_rate := sapi_rate o;
     msspeech_rate := msspeech_rate o; coquiServer_serverUrl := coquiServer_serverUrl o;
     coquiServer_speakerId := coquiServer_speakerId o;
     googleCloud_apiKey := googleCloud_apiKey o;
     googleCloud_pitchDeltaSemitones := googleCloud_pitchDeltaSemitones o;
     microsoftAzure_subscriptionKey := microsoftAzure_subscriptionKey o;
     microsoftAzure_serviceRegion := microsoftAzure_serviceRegion o;
     microsoftAzure_pitchDeltaHz := microsoftAzure_pitchDeltaHz o;
     awsPolly_region := awsPolly_region o;
     awsPolly_accessKeyId := awsPolly_accessKeyId o;
     awsPolly_secretAccessKey := awsPolly_secretAccessKey o;
     awsPolly_pollyEngine := awsPolly_pollyEngine o;
     awsPolly_lexiconNames := awsPolly_lexiconNames o;
     elevenlabs_apiKey := elevenlabs_apiKey o;
     elevenlabs_stability := elevenlabs_stability o;
     elevenlabs_similarityBoost := elevenlabs_similarityBoost o;
     googleTranslate_tld := googleTranslate_tld o;
     microsoftEdge_trustedClientToken := microsoftEdge_trustedClientToken o;
     microsoftEdge_pitchDeltaHz := microsoftEdge_pitchDeltaHz o;
     cache_path := cache_path o; cache_duration := cache_duration o |}.


(** ** Effects: results, collaborators, and the trace of their calls *)

(** What [throw] throws: an [Error] with its message. *)
Inductive Exception : Type := Error (message : string).

Inductive Result (A : Type) : Type :=
| Ok (value : A)
| Err (e : Exception).
Arguments Ok {A} value.
Arguments Err {A} e.

(** The request a back end receives: the arguments of its [synthesize]
    call, with what the dispatch sets up just before it (espeak's voice,
    rate, pitch and range; the lexicon files of vits). *)
Inductive BackendRequest : Type :=
| VitsRequest (text voice : string) (modelPath : option string) (lengthScale : number)
              (speakerId : option Z) (lexiconPaths : list string)
| PicoRequest (preparedText : string) (language : option string)
              (voicePackagePath : option string)
| FliteRequest (text voice : string) (voicePackagePath : option string) (speed : number)
| EspeakRequest (voice : string) (rate pitch pitchRange : number) (text : string)
                (isSSML : bool)
| SamRequest (text : string) (samPitch samSpeed samMouth samThroat : number)
| SapiRequest (text voice : string) (sapiRate : number) (useSpeechPlatform : bool)
| CoquiServerRequest (text : string) (speakerId : option string) (serverUrl : string)
| GoogleCloudRequest (text apiKey : string) (language : option string) (voice : string)
                     (speed pitchDeltaSemitones : number) (isSSML : bool)
| AzureRequest (text subscriptionKey serviceRegion : string) (language : option string)
               (voice : string) (isSSML : bool) (ssmlPitch ssmlRate : string)
| PollyRequest (text voice region accessKeyId secretAccessKey : string)
               (pollyEngine : option string) (isSSML : bool)
               (lexiconNames : option (list string))
| ElevenLabsRequest (text : string) (voiceId : option string) (apiKey : string)
                    (stability similarityBoost : number)
| GoogleTranslateRequest (text : string) (language : option string) (tld : option string)
                         (sentenceEndPause segmentEndPause : option number)
| EdgeRequest (text trustedClientToken voice ssmlPitch ssmlRate : string)
| StreamlabsPollyRequest (text voice : string) (language : option string)
                         (sentenceEndPause segmentEndPause : option number).

(** What a back end returns: the audio and, for the back ends that have
    one, a time line. *)
Record BackendResponse : Type := {
  rawAudio : RawAudio;
  outTimeline : option Timeline
}.

(** [SynthesisSegmentEventData]. *)
Record SynthesisSegmentEventData : Type := {
  event_index : nat;
  event_total : nat;
  event_audio : RawAudio;
  event_timeline : Timeline;
  event_transcript : string;
  event_language : option string;
  event_peakDecibelsSoFar : number
}.

(** The calls that leave the pipeline, in the order they are made. *)
Inductive Event : Type :=
| DetectTextLanguage (input : string)
| LoadVoiceList (ofEngine : option SynthesisEngine)
| YieldToEventLoop
| ShouldCancelCurrentTask (answer : bool)
| LoadPackage (package : string)
| BackendSynthesize (request : BackendRequest)
| AlignSegments (audio : RawAudio) (segmentTimeline : Timeline)
| ConvertHtmlToText (html : string)
| Align (audio : RawAudio) (plainText : string)
| StretchTimePitch (method : string) (audio : RawAudio)
                   (timeStretchFactor pitchShiftFactor : number)
| OnSentence (data : SynthesisSegmentEventData)
| OnSegment (data : SynthesisSegmentEventData).

(** The code of other modules that the pipeline calls.  [World] is the
    state of the process outside the pipeline (the task queue and the
    cancellation flag of the worker, the files, the network); an awaited
    call may change it and may throw. *)
Class Collaborators : Type := {
  World : Type;
  (* utilities/Locale.ts; the table gives [None] for a key it lacks *)
  normalizeLanguageCode : string -> string;
  getShortLanguageCode : string -> string;
  shortLanguageCodeToLong : string -> option string;
  (* nlp/Segmentation.ts *)
  isWord : string -> bool;
  nlp_splitToSentences : string -> option string -> list string;
  (* utilities/Utilities.ts and the Math object *)
  clip : number -> number -> number -> number;
  simplifyPunctuationCharacters : string -> string;
  sha256AsHex : string -> string;
  Math_log : number -> number;
  showFraction : number -> string;
  (* audio/AudioUtilities.ts *)
  downmixToMono : RawAudio -> RawAudio;
  normalizeAudioLevel : RawAudio -> number -> number -> RawAudio;
  trimAudioStart : list number -> number -> number -> list number;
  trimAudioEnd : list number -> number -> number -> list number;
  concatAudioSegments : list (list (list number)) -> list (list number);
  getAudioPeakDecibels : list (list number) -> number;
  getEmptyRawAudio : Z -> number -> RawAudio;
  (* the voice lists the offline engines export *)
  VitsTTS_voiceList : list SynthesisVoice;
  FliteTTS_voiceList : list SynthesisVoice;
  SvoxPicoTTS_voiceList : list SynthesisVoice;
  (* server/Worker.ts and the event loop *)
  yieldToEventLoop : World -> World;
  shouldCancelCurrentTask : World -> bool;
  (* awaited collaborators *)
  detectTextLanguage : string -> World -> Result string * World;
  loadVoiceList : SynthesisOptions -> World -> Result (list SynthesisVoice) * World;
  loadPackage : string -> World -> Result string * World;
  backendSynthesize : BackendRequest -> World -> Result BackendResponse * World;
  alignSegments : RawAudio -> Timeline -> SynthesisOptions -> World -> Result Timeline * World;
  convertHtmlToText : string -> World -> Result string * World;
  align : RawAudio -> string -> SynthesisOptions -> World -> Result Timeline * World;
  stretchTimePitch : string -> RawAudio -> number -> number -> SynthesisOptions -> World
                     -> Result RawAudio * World
}.

Section Pipeline.
Context `{Collaborators}.

(** The run of a piece of the pipeline from a state of the world: how it
    ends, the world it leaves, and the calls it made. *)
Record Run (A : Type) : Type := {
  result : Result A;
  final : World;
  trace : list Event
}.
Arguments result {A} r.
Arguments final {A} r.
Arguments trace {A} r.

Definition M (A : Type) : Type := World -> Run A.

Definition ret {A} (a : A) : M A :=
  fun w => {| result := Ok a; final := w; trace := [] |}.

Definition throw {A} (message : string) : M A :=
  fun w => {| result := Err (Error message); final := w; trace := [] |}.

Definition bind {A B} (m : M A) (k : A -> M B) : M B :=
  fun w =>
    let r := m w in
    match result r with
    | Ok a =>
      let r' := k a (final r) in
      {| result := result r'; final := final r'; trace := (trace r ++ trace r')%list |}
    | Err e => {| result := Err e; final := final r; trace := trace r |}
    end.

(** An awaited call of a collaborator, recorded in the trace. *)
Definition call {A} (ev : Event) (f : World -> Result A * World) : M A :=
  fun w => let '(r, w') := f w in {| result := r; final := w'; trace := [ev] |}.

End Pipeline.

Arguments result {_ A} r.
Arguments final {_ A} r.
Arguments trace {_ A} r.

Notation "x <- m ;; k" := (bind m (fun x => k))
  (at level 100, m at next level, right associativity).
Notation "m ;;; k" := (bind m (fun _ => k))
  (at level 100, right associativity).

(** ** Voice list requests *)

Section VoiceList.
Context `{Collaborators}.

(** [RequestVoiceListResult]; [bestMatchingVoice] is [undefined] when the
    filtered list is empty. *)
Record RequestVoiceListResult : Type := {
  voiceList : list SynthesisVoice;
  bestMatchingVoice : option SynthesisVoice
}.

(** Lines 1389-1399: the language filter. *)
Definition filterByLanguage (voiceList : list SynthesisVoice) (languageCode : string)
    : list SynthesisVoice :=
  if bool_decide (languageCode = "") then voiceList
  else
    let filteredVoiceList := filter (fun voice => languageCode ∈ languages voice) voiceList in
    if bool_decide (length filteredVoiceList = 0%nat) && Js.includes languageCode "-" then
      let shortLanguageCode := getShortLanguageCode languageCode in
      filter (fun voice => shortLanguageCode ∈ languages voice) voiceList
    else filteredVoiceList.

(** Lines 1401-1404: the gender filter. *)
Definition filterByGender (voiceList : list SynthesisVoice) (voiceGender : option string)
    : list SynthesisVoice :=
  if truthyString voiceGender then
    let genderLowercase := toLowerCase (default "" voiceGender) in
    filter (fun voice => gender voice = genderLowercase \/ gender voice = "unknown") voiceList
  else voiceList.

(** Lines 1406-1426: the name filter. *)
Definition filterByName (voiceList : list SynthesisVoice) (voice : option string)
    : list SynthesisVoice :=
  if truthyString voice then
    let namePatternLowerCase := toLocaleLowerCase (default "" voice) in
    let namePatternParts := splitAtWordBoundaries namePatternLowerCase in
    if bool_decide (1 < length namePatternParts)%nat then
      filter (fun voice => Js.includes (toLocaleLowerCase (name voice)) namePatternLowerCase = true)
             voiceList
    else
      filter (fun voice =>
                let name := toLocaleLowerCase (name voice) in
                let nameParts := splitAtWordBoundaries name in
                existsb (fun namePart => startsWith namePart namePatternLowerCase) nameParts
                = true)
             voiceList
  else voiceList.

(** The [for] loop of lines 1433-1438: the first voice that declares the
    expanded code replaces the candidate. *)
Fixpoint firstVoiceDeclaring (expandedLanguageCode : string) (voiceList : list SynthesisVoice)
    (bestMatchingVoice : SynthesisVoice) : SynthesisVoice :=
  match voiceList with
  | [] => bestMatchingVoice
  | voice :: voiceList' =>
    if bool_decide (expandedLanguageCode ∈ languages voice) then voice
    else firstVoiceDeclaring expandedLanguageCode voiceList' bestMatchingVoice
  end.

(** Lines 1428-1439.  A key that [shortLanguageCodeToLong] inherits from
    [Object.prototype] yields a value that is no string, hence in no
    [languages]: the loop then changes nothing, as for an absent key. *)
Definition selectBestMatchingVoice (voiceList : list SynthesisVoice) (languageCode : string)
    : option SynthesisVoice :=
  match voiceList with
  | [] => None
  | first :: _ =>
    if bool_decide (1 < length voiceList)%nat
       && truthyString (shortLanguageCodeToLong languageCode) then
      let expandedLanguageCode := default "" (shortLanguageCodeToLong languageCode) in
      Some (firstVoiceDeclaring expandedLanguageCode voiceList first)
    else Some first
  end.

(** Lines 1387-1441 of [requestVoiceList]: from the loaded list to the
    result. *)
Definition selectVoices (loaded : list SynthesisVoice) (options : SynthesisOptions)
    : RequestVoiceListResult :=
  let languageCode := normalizeLanguageCode (orString (language options) "") in
  let voiceList := filterByLanguage loaded languageCode in
  let voiceList := filterByGender voiceList (voiceGender options) in
  let voiceList := filterByName voiceList (voice options) in
  {| voiceList := voiceList;
     bestMatchingVoice := selectBestMatchingVoice voiceList languageCode |}.

(** [requestVoiceList].  Lines 1116-1385 (the cache directory, the cached
    file when it is fresh, otherwise [loadVoiceList] and the cache write)
    are the one collaborator call [loadVoiceList]. *)
Definition requestVoiceList (options : SynthesisOptions) : M RequestVoiceListResult :=
  let options := extendDeep defaultVoiceListRequestOptions options in
  loaded <- call (LoadVoiceList (engine options)) (loadVoiceList options) ;;
  ret (selectVoices loaded options).

(** The inner loop of [getAllLangCodesFromVoiceList]. *)
Fixpoint addLangCodes (langCodes : list string) (state : gset string * list string)
    : gset string * list string :=
  match langCodes with
  | [] => state
  | langCode :: langCodes' =>
    let '(languageCodes, langList) := state in
    if bool_decide (langCode ∈ languageCodes) then addLangCodes langCodes' state
    else addLangCodes langCodes' ({[langCode]} ∪ languageCodes, (langList ++ [langCode])%list)
  end.

Definition getAllLangCodesFromVoiceList (voiceList : list SynthesisVoice) : list string :=
  let languageCodes : gset string := ∅ in
  let langList : list string := [] in
  snd (fold_left (fun state voice => addLangCodes (languages voice) state)
                 voiceList (languageCodes, langList)).

(** [selectBestOfflineEngineForLanguage]; the dynamic imports bring the
    voice lists of the three engines. *)
Definition selectBestOfflineEngineForLanguage (language : string) : SynthesisEngine :=
  let language := normalizeLanguageCode language in
  let vitsLanguages := getAllLangCodesFromVoiceList VitsTTS_voiceList in
  if bool_decide (language ∈ vitsLanguages) then vits
  else
    let fliteLanguages := getAllLangCodesFromVoiceList FliteTTS_voiceList in
    if bool_decide (language ∈ fliteLanguages) then flite
    else
      let picoLanguages := getAllLangCodesFromVoiceList SvoxPicoTTS_voiceList in
      if bool_decide (language ∈ picoLanguages) then pico
      else espeak.

End VoiceList.

(** ** [synthesizeSegment] *)

Section SynthesizeSegment.
Context `{Collaborators}.

(** The double-quote character of the strings the source builds. *)
Definition doubleQuote : string := String (ascii_of_N 34) EmptyString.

(** [`${x}`] for a number: the digits of an integer; the rendering of a
    fraction is left to [showFraction]. *)
Definition showNumber (x : number) : string :=
  if bool_decide (num (Math_floor x) = x) then showZ (Math_floor x) else showFraction x.

(** [`${x}`] for a double: the digits of an integer up to [2^53], which is
    all [Math.floor] yields in the conversions below for speeds and pitches
    of the clipped range; the rendering of any other finite double is left
    to [showFraction]. *)
Definition showDouble (x : spec_float) : string :=
  match x with
  | S754_nan => "NaN"
  | S754_infinity s => if s then "-Infinity" else "Infinity"
  | S754_zero _ => "0"
  | S754_finite _ _ _ =>
    let q := Q2Qc (Double.toQ x) in
    if bool_decide (num (Math_floor q) = q) && (Z.abs (Math_floor q) <=? 2 ^ 53)%Z
    then showZ (Math_floor q) else showFraction q
  end.

Definition convertSpeedScaleToSSMLValueString (rate : spec_float) : string :=
  if Double.geb rate (Double.ofZ 1) then
    let ratePercentage :=
      Double.Math_floor (Double.mul (Double.sub rate (Double.ofZ 1)) (Double.ofZ 100)) in
    "+" +:+ showDouble ratePercentage +:+ "%"
  else
    let ratePercentage :=
      Double.Math_floor
        (Double.mul (Double.sub (Double.div (Double.ofZ 1) rate) (Double.ofZ 1))
                    (Double.ofZ 100)) in
    "-" +:+ showDouble ratePercentage +:+ "%".

Definition convertPitchScaleToSSMLValueString (pitch : spec_float) (voiceGender : string)
    : string :=
  let fundementalFrequency : Z :=
    if bool_decide (voiceGender = "male") then 120%Z
    else if bool_decide (voiceGender = "female") then 210%Z
    else 165%Z in
  if Double.geb pitch (Double.ofZ 1) then
    let pitchDeltaHertz :=
      Double.sub (Double.Math_floor (Double.mul pitch (Double.ofZ fundementalFrequency)))
                 (Double.ofZ fundementalFrequency) in
    "+" +:+ showDouble pitchDeltaHertz +:+ "Hz"
  else
    let pitchDeltaHertz :=
      Double.sub (Double.ofZ fundementalFrequency)
                 (Double.Math_floor (Double.mul pitch (Double.ofZ fundementalFrequency))) in
    "-" +:+ showDouble pitchDeltaHertz +:+ "Hz".

(** The [ssmlPitch] of the Azure and Edge cases. *)
Definition ssmlPitchOf (pitchDeltaHz : option number) (pitch : number) (voiceGender : string)
    : string :=
  match pitchDeltaHz with
  | Some delta =>
    if bool_decide (0 <= delta) then "+" +:+ showNumber (Math_abs delta) +:+ "Hz"
    else "-" +:+ showNumber (Math_abs delta) +:+ "Hz"
  | None => convertPitchScaleToSSMLValueString (Double.ofNumber pitch) voiceGender
  end.

(** What the [switch] over the engine leaves behind. *)
Record EngineOutput : Type := {
  engineAudio : RawAudio;
  engineTimeline : option Timeline;
  shouldPostprocessSpeed : bool;
  shouldPostprocessPitch : bool
}.

(** What the cases of the [switch] read. *)
Record DispatchContext : Type := {
  ctx_text : string;
  ctx_simplifiedText : string;
  ctx_options : SynthesisOptions;
  ctx_selectedVoice : SynthesisVoice;
  ctx_voicePackagePath : option string;
  ctx_voice : string;
  ctx_language : option string;
  ctx_voiceGender : string;
  ctx_speed : number;
  ctx_pitch : number;
  ctx_isSSML : bool
}.

Definition synthesizeWith (request : BackendRequest) : M BackendResponse :=
  call (BackendSynthesize request) (backendSynthesize request).

Definition requireString (value : option string) (message : string) : M string :=
  if truthyString value then ret (default "" value) else throw message.

Definition refuseSSML (isSSML : bool) (message : string) : M unit :=
  if isSSML then throw message else ret tt.

(** Lines 299-307: the speaker identifier against the voice's speakers. *)
Definition checkSpeakerId (speakerId : option Z) (selectedVoice : SynthesisVoice) : M unit :=
  match speakerId with
  | Some id =>
    match speakerCount selectedVoice with
    | None =>
      if bool_decide (id <> 0%Z) then
        throw "Selected VITS model has only one speaker. Speaker ID must be 0 if specified."
      else ret tt
    | Some count =>
      if bool_decide (id < 0)%Z || bool_decide (count <= id)%Z then
        throw ("Selected VITS model has " +:+ showZ count
               +:+ " voices. Speaker ID should be in the range 0 to " +:+ showZ (count - 1))
      else ret tt
    end
  | None => ret tt
  end.

(** Lines 279-744: the [switch] over [engine]. *)
Definition dispatch (engine : option SynthesisEngine) (c : DispatchContext) : M EngineOutput :=
  let text := ctx_text c in
  let simplifiedText := ctx_simplifiedText c in
  let options := ctx_options c in
  let selectedVoice := ctx_selectedVoice c in
  let voicePackagePath := ctx_voicePackagePath c in
  let voice := ctx_voice c in
  let language := ctx_language c in
  let voiceGender := ctx_voiceGender c in
  let speed := ctx_speed c in
  let pitch := ctx_pitch c in
  let isSSML := ctx_isSSML c in
  match engine with
  | Some vits =>
    refuseSSML isSSML "The VITS engine doesn't currently support SSML inputs" ;;;
    let lengthScale := 1 / speed in
    let speakerId := vits_speakerId options in
    checkSpeakerId speakerId selectedVoice ;;;
    match language with
    | None =>
      (* [getShortLanguageCode(undefined)] *)
      throw "TypeError: Cannot read properties of undefined"
    | Some language =>
      let heteronyms :=
        if bool_decide (getShortLanguageCode language = "en")
        then ["data/lexicons/heteronyms.en.json"] else [] in
      let custom :=
        match vits_customLexiconPaths options with
        | Some paths => paths
        | None => []
        end in
      let lexicons := (heteronyms ++ custom)%list in
      let modelPath := voicePackagePath in
      response <- synthesizeWith (VitsRequest text voice modelPath lengthScale speakerId lexicons) ;;
      ret {| engineAudio := rawAudio response; engineTimeline := outTimeline response;
             shouldPostprocessSpeed := false; shouldPostprocessPitch := true |}
    end
  | Some pico =>
    refuseSSML isSSML "The Svox Pico engine doesn't currently support SSML inputs" ;;;
    let picoSpeed := Math_round (speed * 1 * num 100) in
    let picoPitch := Math_round (pitch * 1 * num 100) in
    let picoVolume := 35%Z in
    let preparedText :=
      "<speed level=" +:+ doubleQuote +:+ showZ picoSpeed +:+ doubleQuote
      +:+ "><pitch level=" +:+ doubleQuote +:+ showZ picoPitch +:+ doubleQuote
      +:+ "><volume level=" +:+ doubleQuote +:+ showZ picoVolume +:+ doubleQuote
      +:+ ">" +:+ simplifiedText +:+ "</volume></pitch></speed>" in
    response <- synthesizeWith (PicoRequest preparedText language voicePackagePath) ;;
    ret {| engineAudio := rawAudio response; engineTimeline := None;
           shouldPostprocessSpeed := false; shouldPostprocessPitch := false |}
  | Some flite =>
    refuseSSML isSSML "The Flite engine doesn't currently support SSML inputs" ;;;
    response <- synthesizeWith (FliteRequest simplifiedText voice voicePackagePath speed) ;;
    ret {| engineAudio := rawAudio response; engineTimeline := None;
           shouldPostprocessSpeed := false; shouldPostprocessPitch := true |}
  | Some espeak =>
    let rate := orNumber (espeak_rate options) (speed * num 150) in
    let espeakPitch := orNumber (espeak_pitch options) (pitch * num 50) in
    let pitchRange :=
      orNumber (espeak_pitchRange options) (default 1 (pitchVariation options) * num 50) in
    response <- synthesizeWith
                  (EspeakRequest voice rate espeakPitch pitchRange simplifiedText isSSML) ;;
    ret {| engineAudio := rawAudio response; engineTimeline := None;
           shouldPostprocessSpeed := false; shouldPostprocessPitch := false |}
  | Some sam =>
    refuseSSML isSSML "The SAM engine doesn't support SSML inputs" ;;;
    let samPitch :=
      clip (orNumber (sam_pitch options) (num (Math_round ((1 / pitch) * num 64)))) 0 (num 255) in
    let samSpeed :=
      clip (orNumber (sam_speed options) (num (Math_round ((1 / speed) * num 72)))) 0 (num 255) in
    let samMouth := clip (default (num 128) (sam_mouth options)) 0 (num 255) in
    let samThroat := clip (default (num 128) (sam_throat options)) 0 (num 255) in
    response <- synthesizeWith (SamRequest simplifiedText samPitch samSpeed samMouth samThroat) ;;
    ret {| engineAudio := rawAudio response; engineTimeline := None;
           shouldPostprocessSpeed := false; shouldPostprocessPitch := false |}
  | Some sapi =>
    refuseSSML isSSML "The SAPI engine doesn't currently support SSML inputs" ;;;
    let sapiRate := orNumber (sapi_rate options) 0 in
    response <- synthesizeWith (SapiRequest text voice sapiRate false) ;;
    ret {| engineAudio := rawAudio response; engineTimeline := outTimeline response;
           shouldPostprocessSpeed := true; shouldPostprocessPitch := true |}
  | Some msspeech =>
    refuseSSML isSSML "The MSSpeech engine doesn't currently support SSML inputs" ;;;
    let sapiRate := orNumber (msspeech_rate options) 0 in
    response <- synthesizeWith (SapiRequest text voice sapiRate true) ;;
    ret {| engineAudio := rawAudio response; engineTimeline := outTimeline response;
           shouldPostprocessSpeed := true; shouldPostprocessPitch := true |}
  | Some coqui_server =>
    refuseSSML isSSML "The Coqui Server engine doesn't support SSML inputs" ;;;
    let speakerId := coquiServer_speakerId options in
    serverUrl <- requireString (coquiServer_serverUrl options)
                   "'coqui-server' requires a server URL" ;;
    response <- synthesizeWith (CoquiServerRequest simplifiedText speakerId serverUrl) ;;
    ret {| engineAudio := rawAudio response; engineTimeline := None;
           shouldPostprocessSpeed := true; shouldPostprocessPitch := true |}
  | Some google_cloud =>
    apiKey <- requireString (googleCloud_apiKey options) "No API key given" ;;
    let pitchDeltaSemitones :=
      match googleCloud_pitchDeltaSemitones options with
      | Some semitones => semitones
      | None =>
        if bool_decide (1 <= pitch)
        then num (Math_round (ratio 173132 10000 * Math_log pitch))
        else num (Math_round (- ratio 173132 10000 * Math_log (1 / pitch)))
      end in
    response <- synthesizeWith
                  (GoogleCloudRequest simplifiedText apiKey language voice speed
                                      pitchDeltaSemitones isSSML) ;;
    ret {| engineAudio := rawAudio response; engineTimeline := None;
           shouldPostprocessSpeed := false; shouldPostprocessPitch := false |}
  | Some microsoft_azure =>
    subscriptionKey <- requireString (microsoftAzure_subscriptionKey options)
                         "No subscription key given" ;;
    serviceRegion <- requireString (microsoftAzure_serviceRegion options)
                       "No service region given" ;;
    let ssmlPitch := ssmlPitchOf (microsoftAzure_pitchDeltaHz options) pitch voiceGender in
    let ssmlRate := convertSpeedScaleToSSMLValueString (Double.ofNumber speed) in
    response <- synthesizeWith
                  (AzureRequest text subscriptionKey serviceRegion language voice isSSML
                                ssmlPitch ssmlRate) ;;
    ret {| engineAudio := rawAudio response; engineTimeline := outTimeline response;
           shouldPostprocessSpeed := false; shouldPostprocessPitch := false |}
  | Some amazon_polly =>
    region <- requireString (awsPolly_region options) "No region given" ;;
    accessKeyId <- requireString (awsPolly_accessKeyId options) "No access key id given" ;;
    secretAccessKey <- requireString (awsPolly_secretAccessKey options)
                         "No secret access key given" ;;
    let pollyEngine := awsPolly_pollyEngine options in
    let lexiconNames := awsPolly_lexiconNames options in
    response <- synthesizeWith
                  (PollyRequest simplifiedText voice region accessKeyId secretAccessKey
                                pollyEngine isSSML lexiconNames) ;;
    ret {| engineAudio := rawAudio response; engineTimeline := None;
           shouldPostprocessSpeed := true; shouldPostprocessPitch := true |}
  | Some elevenlabs =>
    refuseSSML isSSML "The Elevenlabs engine doesn't support SSML inputs" ;;;
    apiKey <- requireString (elevenlabs_apiKey options) "No ElevenLabs API key given" ;;
    let voiceId := elevenLabsVoiceId selectedVoice in
    let stability := default 0 (elevenlabs_stability options) in
    let similarityBoost := default 0 (elevenlabs_similarityBoost options) in
    response <- synthesizeWith
                  (ElevenLabsRequest simplifiedText voiceId apiKey stability similarityBoost) ;;
    ret {| engineAudio := rawAudio response; engineTimeline := None;
           shouldPostprocessSpeed := true; shouldPostprocessPitch := true |}
  | Some google_translate =>
    refuseSSML isSSML "The Google Translate engine doesn't support SSML inputs" ;;;
    response <- synthesizeWith
                  (GoogleTranslateRequest text language (googleTranslate_tld options)
                     (sentenceEndPause options) (segmentEndPause options)) ;;
    let synthesizedAudio := rawAudio response in
    let segmentTimeline := default [] (outTimeline response) in
    let alignmentOptions :=
      set_alignment_language options (leaf (alignment_language options) language) in
    timeline <- call (AlignSegments synthesizedAudio segmentTimeline)
                     (alignSegments synthesizedAudio segmentTimeline alignmentOptions) ;;
    ret {| engineAudio := synthesizedAudio; engineTimeline := Some timeline;
           shouldPostprocessSpeed := true; shouldPostprocessPitch := true |}
  | Some microsoft_edge =>
    refuseSSML isSSML "The Microsoft Edge engine doesn't support SSML inputs" ;;;
    trustedClientToken <- requireString (microsoftEdge_trustedClientToken options)
                            "No trusted client token provided." ;;
    if negb (bool_decide
               (sha256AsHex trustedClientToken
                = "558d7c6a7f7db444895946fe23a54ad172fd6d159f46cb34dd4db21bb27c07d7"))
    then throw "Trusted client token is incorrect."
    else
      let ssmlPitch := ssmlPitchOf (microsoftEdge_pitchDeltaHz options) pitch voiceGender in
      let ssmlRate := convertSpeedScaleToSSMLValueString (Double.ofNumber speed) in
      response <- synthesizeWith (EdgeRequest text trustedClientToken voice ssmlPitch ssmlRate) ;;
      ret {| engineAudio := rawAudio response; engineTimeline := outTimeline response;
             shouldPostprocessSpeed := false; shouldPostprocessPitch := false |}
  | Some streamlabs_polly =>
    refuseSSML isSSML "The Streamlabs Polly Engine engine doesn't support SSML inputs" ;;;
    response <- synthesizeWith
                  (StreamlabsPollyRequest text voice language
                     (sentenceEndPause options) (segmentEndPause options)) ;;
    let synthesizedAudio := rawAudio response in
    let segmentTimeline := default [] (outTimeline response) in
    let alignmentOptions :=
      set_alignment_language options (leaf (alignment_language options) language) in
    timeline <- call (AlignSegments synthesizedAudio segmentTimeline)
                     (alignSegments synthesizedAudio segmentTimeline alignmentOptions) ;;
    ret {| engineAudio := synthesizedAudio; engineTimeline := Some timeline;
           shouldPostprocessSpeed := true; shouldPostprocessPitch := true |}
  | Some (OtherEngine engineName) =>
    throw ("Engine '" +:+ engineName +:+ "' is not supported")
  | None =>
    throw "Engine 'undefined' is not supported"
  end.

(** [audio.audioChannels[0]], a [TypeError] when its [length] is read and
    there is no channel. *)
Definition channel0 (audio : RawAudio) : M (list number) :=
  match audioChannels audio with
  | samples :: _ => ret samples
  | [] => throw "TypeError: Cannot read properties of undefined (reading 'length')"
  end.

Definition sampleCount (samples : list number) : number := num (Z.of_nat (length samples)).

(** Lines 747-751: down-mix and optional normalization. *)
Definition downmixAndNormalize (options : SynthesisOptions) (synthesizedAudio : RawAudio)
    : RawAudio :=
  let synthesizedAudio := downmixToMono synthesizedAudio in
  if default false (postProcessing_normalizeAudio options) then
    normalizeAudioLevel synthesizedAudio
      (default (num (-3)) (postProcessing_targetPeakDb options))
      (default (num 30) (postProcessing_maxIncreaseDb options))
  else synthesizedAudio.

(** Lines 753-761: the trim of the leading silence, with the shift of the
    time line a back end gave. *)
Definition trimLeadingSilence (options : SynthesisOptions) (synthesizedAudio : RawAudio)
    (timeline : option Timeline) : M (RawAudio * option Timeline) :=
  let synthesizedAudio := downmixAndNormalize options synthesizedAudio in
  samples <- channel0 synthesizedAudio ;;
  let preTrimSampleCount := sampleCount samples in
  let trimmed := trimAudioStart samples 0 (num (-40)) in
  let synthesizedAudio := setChannel0 synthesizedAudio trimmed in
  let timeline :=
    match timeline with
    | Some timeline =>
      let oldDuration := preTrimSampleCount / sampleRate synthesizedAudio in
      let newDuration := sampleCount trimmed / sampleRate synthesizedAudio in
      Some (addTimeOffsetToTimeline timeline (newDuration - oldDuration))
    | None => None
    end in
  ret (synthesizedAudio, timeline).

(** Lines 763-781: the alignment that stands in for a missing time line. *)
Definition alignIfMissing (text : string) (options : SynthesisOptions) (isSSML : bool)
    (language : option string) (synthesizedAudio : RawAudio) (timeline : option Timeline)
    : M Timeline :=
  match timeline with
  | Some timeline => ret timeline
  | None =>
    plainText <- (if isSSML then call (ConvertHtmlToText text) (convertHtmlToText text)
                  else ret text) ;;
    let alignmentOptions := set_alignment_language options language in
    call (Align synthesizedAudio plainText) (align synthesizedAudio plainText alignmentOptions)
  end.

(** Lines 783-821: time and pitch shifting, and the rescaling of the time
    line. *)
Definition shiftTimeAndPitch (options : SynthesisOptions) (speed pitch : number)
    (shouldPostprocessSpeed shouldPostprocessPitch : bool)
    (synthesizedAudio : RawAudio) (timeline : Timeline) : M (RawAudio * Timeline) :=
  let timeStretchFactor := postProcessing_speed options in
  let timeStretchFactor :=
    if shouldPostprocessSpeed && bool_decide (timeStretchFactor = None)
    then Some speed else timeStretchFactor in
  let pitchShiftFactor := postProcessing_pitch options in
  let pitchShiftFactor :=
    if shouldPostprocessPitch && bool_decide (pitchShiftFactor = None)
    then Some pitch else pitchShiftFactor in
  if bool_decide (timeStretchFactor <> None /\ timeStretchFactor <> Some 1)
     || bool_decide (pitchShiftFactor <> None /\ pitchShiftFactor <> Some 1) then
    let timeStretchFactor := orNumber timeStretchFactor 1 in
    let pitchShiftFactor := orNumber pitchShiftFactor 1 in
    let timePitchShiftingMethod := postProcessing_timePitchShiftingMethod options in
    synthesizedAudio <-
      (if bool_decide (timePitchShiftingMethod = Some "sonic") then
         call (StretchTimePitch "sonic" synthesizedAudio timeStretchFactor pitchShiftFactor)
              (stretchTimePitch "sonic" synthesizedAudio timeStretchFactor pitchShiftFactor
                                options)
       else if bool_decide (timePitchShiftingMethod = Some "rubberband") then
         call (StretchTimePitch "rubberband" synthesizedAudio timeStretchFactor pitchShiftFactor)
              (stretchTimePitch "rubberband" synthesizedAudio timeStretchFactor pitchShiftFactor
                                options)
       else
         throw ("'" +:+ default "undefined" timePitchShiftingMethod
                +:+ "' is not a valid time and pitch shifting method")) ;;
    let timeline :=
      if negb (bool_decide (timeStretchFactor = 1))
      then multiplyTimelineByFactor timeline (1 / timeStretchFactor)
      else timeline in
    ret (synthesizedAudio, timeline)
  else ret (synthesizedAudio, timeline).

(** Lines 823-825: the entries whose text is no word are dropped. *)
Definition keepWords (timeline : Timeline) : Timeline :=
  filter (fun entry => isWord (text entry) = true) timeline.

(** Lines 746-831: everything after the [switch]. *)
Definition postprocess (text : string) (options : SynthesisOptions) (isSSML : bool)
    (language : option string) (speed pitch : number) (output : EngineOutput)
    : M (RawAudio * Timeline) :=
  trimmed <- trimLeadingSilence options (engineAudio output) (engineTimeline output) ;;
  let '(synthesizedAudio, timeline) := trimmed in
  timeline <- alignIfMissing text options isSSML language synthesizedAudio timeline ;;
  shifted <- shiftTimeAndPitch options speed pitch (shouldPostprocessSpeed output)
                               (shouldPostprocessPitch output) synthesizedAudio timeline ;;
  let '(synthesizedAudio, timeline) := shifted in
  let timeline := keepWords timeline in
  ret (synthesizedAudio, timeline).

Definition synthesizeSegment (text : string) (options : SynthesisOptions)
    : M (RawAudio * Timeline) :=
  let simplifiedText := simplifyPunctuationCharacters text in
  let engine := engine options in
  found <- requestVoiceList options ;;
  match bestMatchingVoice found with
  | None => throw "No matching voice found"
  | Some selectedVoice =>
    voicePackagePath <-
      (if truthyString (packageName selectedVoice) then
         path <- call (LoadPackage (default "" (packageName selectedVoice)))
                      (loadPackage (default "" (packageName selectedVoice))) ;;
         ret (Some path)
       else ret None) ;;
    let voice := name selectedVoice in
    let language :=
      if truthyString (language options)
      then Some (normalizeLanguageCode (default "" (language options)))
      else head (languages selectedVoice) in
    let voiceGender := gender selectedVoice in
    let speed := clip (default 1 (speed options)) (ratio 1 10) (num 10) in
    let pitch := clip (default 1 (pitch options)) (ratio 1 10) (num 10) in
    let isSSML := default false (ssml options) in
    output <- dispatch engine
                {| ctx_text := text; ctx_simplifiedText := simplifiedText;
                   ctx_options := options; ctx_selectedVoice := selectedVoice;
                   ctx_voicePackagePath := voicePackagePath; ctx_voice := voice;
                   ctx_language := language; ctx_voiceGender := voiceGender;
                   ctx_speed := speed; ctx_pitch := pitch; ctx_isSSML := isSSML |} ;;
    postprocess text options isSSML language speed pitch output
  end.

End SynthesizeSegment.

(** ** [synthesizeSegments] *)

Section SynthesizeSegments.
Context `{Collaborators}.

(** [SynthesisSegmentEvent]: a callback of the caller. *)
Definition SynthesisSegmentEvent : Type :=
  SynthesisSegmentEventData -> World -> Result unit * World.

Record SynthesizeSegmentsResult : Type := {
  synthesizedAudio : RawAudio;
  resultTimeline : Timeline;
  segmentsAudio : list RawAudio;
  segmentsTimelines : list Timeline
}.

Definition lineFeed : string := String (ascii_of_N 10) EmptyString.

(** Lines 32-40: the language is detected when neither a language nor a
    voice is given. *)
Definition detectLanguageIfNeeded (segments : list string) (options : SynthesisOptions)
    : M SynthesisOptions :=
  if negb (truthyString (language options)) && negb (truthyString (voice options)) then
    detectedLanguage <- call (DetectTextLanguage (join lineFeed segments))
                             (detectTextLanguage (join lineFeed segments)) ;;
    ret (set_language options (Some detectedLanguage))
  else ret options.

(** Lines 42-50: the engine is chosen when none is given. *)
Definition selectEngineIfNeeded (options : SynthesisOptions) : M SynthesisOptions :=
  if negb (truthyEngine (engine options)) then
    if truthyString (voice options) then
      throw ("Voice '" +:+ default "" (voice options)
             +:+ "' was specified but no engine was specified.")
    else
      let chosen := selectBestOfflineEngineForLanguage (default "" (language options)) in
      ret (set_engine options (Some chosen))
  else ret options.

(** Lines 52-67: the voice is fixed, and the language when still unset. *)
Definition selectVoice (options : SynthesisOptions) : M SynthesisOptions :=
  found <- requestVoiceList options ;;
  match bestMatchingVoice found with
  | None => throw "No matching voice found"
  | Some bestMatchingVoice =>
    let options := set_voice options (Some (name bestMatchingVoice)) in
    let options :=
      if negb (truthyString (language options))
      then set_language options (head (languages bestMatchingVoice))
      else options in
    ret options
  end.

(** Lines 93-104: the sentences of a segment. *)
Definition sentencesOf (options : SynthesisOptions) (segmentText : string) : list string :=
  if (default false (splitToSentences options)
      || bool_decide (engineName <$> engine options = Some "vits"))
     && negb (default false (ssml options)) then
    let sentences := nlp_splitToSentences segmentText (language options) in
    let sentences := filter (fun sentence => trim sentence <> "") sentences in
    if bool_decide (length sentences = 0%nat) then [""] else sentences
  else [segmentText].

(** The variables the loop over the sentences of a segment updates. *)
Record SentenceLoop : Type := {
  timeOffset : number;
  peakDecibelsSoFar : number;
  sentencesAudio : list RawAudio;
  sentencesTimelines : list Timeline;
  segmentEntryTimeline : Timeline
}.

(** Lines 110-115: the cancellation checkpoint. *)
Definition cancellationCheckpoint : M unit :=
  call YieldToEventLoop (fun w => (Ok tt, yieldToEventLoop w)) ;;;
  canceled <- (fun w => {| result := Ok (shouldCancelCurrentTask w); final := w;
                           trace := [ShouldCancelCurrentTask (shouldCancelCurrentTask w)] |}) ;;
  if (canceled : bool) then throw "Canceled" else ret tt.

(** Lines 110-163: one turn of the loop over the sentences. *)
Definition sentenceTurn (options : SynthesisOptions) (onSentence : option SynthesisSegmentEvent)
    (total sentenceIndex : nat) (sentence : string) (state : SentenceLoop) : M SentenceLoop :=
  cancellationCheckpoint ;;;
  let sentenceText := trim sentence in
  let sentenceStartTime := timeOffset state in
  let sentencetSynthesisOptions :=
    extendDeep options (set_postProcessing_normalizeAudio emptyOptions (Some false)) in
  synthesized <- synthesizeSegment sentenceText sentencetSynthesisOptions ;;
  let '(sentenceAudio, sentenceTimeline) := synthesized in
  let endPause :=
    if bool_decide (sentenceIndex = total - 1)%nat
    then default 1 (segmentEndPause options)
    else default (ratio 3 4) (sentenceEndPause options) in
  samples <- channel0 sentenceAudio ;;
  let trimmed := trimAudioEnd samples (endPause * sampleRate sentenceAudio) (num (-40)) in
  let sentenceAudio := setChannel0 sentenceAudio trimmed in
  let sentencesAudio := (sentencesAudio state ++ [sentenceAudio])%list in
  let sentencesTimelines :=
    if bool_decide (0 < length sentenceTimeline)%nat
    then (sentencesTimelines state ++ [sentenceTimeline])%list
    else sentencesTimelines state in
  let sentenceAudioLength := sampleCount trimmed / sampleRate sentenceAudio in
  let timeOffset := sentenceStartTime + sentenceAudioLength in
  let sentenceTimelineWithOffset := addTimeOffsetToTimeline sentenceTimeline sentenceStartTime in
  let segmentEntryTimeline :=
    (segmentEntryTimeline state
     ++ [MkTimelineEntry "sentence" sentenceText sentenceStartTime timeOffset
                         sentenceTimelineWithOffset])%list in
  let peakDecibelsSoFar :=
    Math_max (peakDecibelsSoFar state) (getAudioPeakDecibels (audioChannels sentenceAudio)) in
  let state' :=
    {| timeOffset := timeOffset; peakDecibelsSoFar := peakDecibelsSoFar;
       sentencesAudio := sentencesAudio; sentencesTimelines := sentencesTimelines;
       segmentEntryTimeline := segmentEntryTimeline |} in
  match onSentence with
  | Some onSentence =>
    let data :=
      {| event_index := sentenceIndex; event_total := total; event_audio := sentenceAudio;
         event_timeline := sentenceTimeline; event_transcript := sentenceText;
         event_language := language options;
         event_peakDecibelsSoFar := peakDecibelsSoFar |} in
    call (OnSentence data) (onSentence data) ;;;
    ret state'
  | None => ret state'
  end.

(** Lines 109-164: the loop over the sentences, from [sentenceIndex]. *)
Fixpoint sentenceLoop (options : SynthesisOptions) (onSentence : option SynthesisSegmentEvent)
    (total sentenceIndex : nat) (sentences : list string) (state : SentenceLoop)
    : M SentenceLoop :=
  match sentences with
  | [] => ret state
  | sentence :: sentences' =>
    state' <- sentenceTurn options onSentence total sentenceIndex sentence state ;;
    sentenceLoop options onSentence total (S sentenceIndex) sentences' state'
  end.

(** The variables the loop over the segments updates. *)
Record SegmentLoop : Type := {
  loop_timeOffset : number;
  loop_peakDecibelsSoFar : number;
  loop_segmentsAudio : list RawAudio;
  loop_segmentsTimelines : list Timeline;
  loop_timeline : Timeline
}.

(** Lines 79-199: one turn of the loop over the segments. *)
Definition segmentTurn (options : SynthesisOptions)
    (onSegment onSentence : option SynthesisSegmentEvent)
    (total segmentIndex : nat) (segment : string) (state : SegmentLoop) : M SegmentLoop :=
  let segmentText := trim segment in
  let segmentStartTime := loop_timeOffset state in
  let sentences := sentencesOf options segmentText in
  after <- sentenceLoop options onSentence (length sentences) 0 sentences
             {| timeOffset := loop_timeOffset state;
                peakDecibelsSoFar := loop_peakDecibelsSoFar state;
                sentencesAudio := []; sentencesTimelines := [];
                segmentEntryTimeline := [] |} ;;
  let segmentEntry :=
    MkTimelineEntry "segment" segmentText segmentStartTime (timeOffset after)
                    (segmentEntryTimeline after) in
  let segmentAudio :=
    match sentencesAudio after with
    | first :: _ =>
      let joinedAudioBuffers := concatAudioSegments (map audioChannels (sentencesAudio after)) in
      {| audioChannels := joinedAudioBuffers; sampleRate := sampleRate first |}
    | [] => getEmptyRawAudio 1 (num 24000)
    end in
  let segmentTimelineWithoutOffset :=
    addTimeOffsetToTimeline (segmentEntryTimeline after) (- segmentStartTime) in
  let state' :=
    {| loop_timeOffset := timeOffset after;
       loop_peakDecibelsSoFar := peakDecibelsSoFar after;
       loop_segmentsAudio := (loop_segmentsAudio state ++ [segmentAudio])%list;
       loop_segmentsTimelines :=
         (loop_segmentsTimelines state ++ [segmentTimelineWithoutOffset])%list;
       loop_timeline := (loop_timeline state ++ [segmentEntry])%list |} in
  match onSegment with
  | Some onSegment =>
    let data :=
      {| event_index := segmentIndex; event_total := total; event_audio := segmentAudio;
         event_timeline := segmentTimelineWithoutOffset; event_transcript := segmentText;
         event_language := language options;
         event_peakDecibelsSoFar := peakDecibelsSoFar after |} in
    call (OnSegment data) (onSegment data) ;;;
    ret state'
  | None => ret state'
  end.

(** Lines 78-200: the loop over the segments, from [segmentIndex]. *)
Fixpoint segmentLoop (options : SynthesisOptions)
    (onSegment onSentence : option SynthesisSegmentEvent)
    (total segmentIndex : nat) (segments : list string) (state : SegmentLoop)
    : M SegmentLoop :=
  match segments with
  | [] => ret state
  | segment :: segments' =>
    state' <- segmentTurn options onSegment onSentence total segmentIndex segment state ;;
    segmentLoop options onSegment onSentence total (S segmentIndex) segments' state'
  end.

(** Lines 202-223: the audio of the segments joined, and the result. *)
Definition assembleResult (options : SynthesisOptions) (state : SegmentLoop)
    : SynthesizeSegmentsResult :=
  let resultAudio :=
    match loop_segmentsAudio state with
    | first :: _ =>
      let joinedAudioBuffers :=
        concatAudioSegments (map audioChannels (loop_segmentsAudio state)) in
      let resultAudio := {| audioChannels := joinedAudioBuffers; sampleRate := sampleRate first |} in
      if default false (postProcessing_normalizeAudio options) then
        normalizeAudioLevel resultAudio
          (default (num (-3)) (postProcessing_targetPeakDb options))
          (default (num 30) (postProcessing_maxIncreaseDb options))
      else resultAudio
    | [] => getEmptyRawAudio 1 (num 24000)
    end in
  {| synthesizedAudio := resultAudio;
     resultTimeline := loop_timeline state;
     segmentsAudio := loop_segmentsAudio state;
     segmentsTimelines := loop_segmentsTimelines state |}.

(** Lines 30-67: the options the loops run with. *)
Definition resolveOptions (segments : list string) (options : SynthesisOptions)
    : M SynthesisOptions :=
  let options := extendDeep defaultSynthesisOptions options in
  options <- detectLanguageIfNeeded segments options ;;
  options <- selectEngineIfNeeded options ;;
  selectVoice options.

Definition synthesizeSegments (segments : list string) (options : SynthesisOptions)
    (onSegment onSentence : option SynthesisSegmentEvent) : M SynthesizeSegmentsResult :=
  options <- resolveOptions segments options ;;
  final <- segmentLoop options onSegment onSentence (length segments) 0 segments
             {| loop_timeOffset := 0; loop_peakDecibelsSoFar := num (-100);
                loop_segmentsAudio := []; loop_segmentsTimelines := [];
                loop_timeline := [] |} ;;
  ret (assembleResult options final).

End SynthesizeSegments.

(** ** Properties of runs *)

Section RunProperties.
Context `{Collaborators}.

(** Every call a run makes satisfies [P], from whatever world it starts. *)
Definition AllEvents {A} (P : Event -> Prop) (m : M A) : Prop :=
  forall w, Forall P (trace (m w)).

(** The value a run returns, when it returns one, satisfies [Q]. *)
Definition Returns {A} (Q : A -> Prop) (m : M A) : Prop :=
  forall w a, result (m w) = Ok a -> Q a.


(** The calls that matter to the cancellation protocol. *)
Definition isProtocolEvent (ev : Event) : bool :=
  match ev with
  | YieldToEventLoop | ShouldCancelCurrentTask _ | BackendSynthesize _ => true
  | _ => false
  end.

(** A monitor of the cancellation protocol.  [Idle]: no checkpoint has been
    passed since the last synthesis; [Yielded]: the pipeline has just
    yielded to the event loop; [Armed]: it yielded and then found the task
    not cancelled; [Stopped]: it yielded and then found the task
    cancelled. *)
Inductive Checkpoint : Type := Idle | Yielded | Armed | Stopped.

(** One call seen by the monitor; [None] when the call breaks the
    protocol: a back end may synthesize only when [Armed]; the predicate is
    evaluated only just after a yield; nothing is called once [Stopped], nor
    between a yield and the evaluation of the predicate. *)
Definition watch (state : Checkpoint) (ev : Event) : option Checkpoint :=
  match state, ev with
  | Stopped, _ => None
  | Yielded, ShouldCancelCurrentTask false => Some Armed
  | Yielded, ShouldCancelCurrentTask true => Some Stopped
  | Yielded, _ => None
  | _, ShouldCancelCurrentTask _ => None
  | _, YieldToEventLoop => Some Yielded
  | Armed, BackendSynthesize _ => Some Idle
  | Idle, BackendSynthesize _ => None
  | _, _ => Some state
  end.

Fixpoint watchAll (state : Checkpoint) (events : list Event) : option Checkpoint :=
  match events with
  | [] => Some state
  | ev :: events' =>
    match watch state ev with
    | Some state' => watchAll state' events'
    | None => None
    end
  end.

End RunProperties.

Section PipelineProperties.
Context `{Collaborators}.

(** A run that involves neither the event loop, nor the cancellation
    predicate, nor a back end. *)
Definition Quiet {A} (m : M A) : Prop :=
  AllEvents (fun ev => isProtocolEvent ev = false) m.

(** A run that, entered after a passed checkpoint, keeps to the protocol:
    it synthesizes at most once. *)
Definition OneShot {A} (m : M A) : Prop :=
  forall w, watchAll Armed (trace (m w)) = Some Armed
            \/ watchAll Armed (trace (m w)) = Some Idle.

(** A run that keeps to the protocol from a state in which it may start a
    sentence, and that fails with the error [Canceled] when it ends on a
    checkpoint that found the task cancelled. *)
Definition Polling {A} (m : M A) : Prop :=
  forall w state,
    state = Idle \/ state = Armed ->
    exists state',
      watchAll state (trace (m w)) = Some state'
      /\ ((state' = Idle \/ state' = Armed)
          \/ (state' = Stopped /\ result (m w) = Err (Error "Canceled"))).

(** The entries of a time line all have a text that is a word. *)
Definition wordsOnly (timeline : Timeline) : Prop :=
  Forall (fun entry => isWord (text entry) = true) timeline.

(** Sentence entries over words only; segment entries over such
    sentences. *)
Definition sentencesOfWords (timeline : Timeline) : Prop :=
  Forall (fun entry => type entry = "sentence" /\ wordsOnly (Synthesis.timeline entry))
         timeline.

Definition segmentsOfSentences (timeline : Timeline) : Prop :=
  Forall (fun entry => type entry = "segment" /\ sentencesOfWords (Synthesis.timeline entry))
         timeline.

(** The top-level time line built from [segments]: segment entries over
    sentences over words, with the trimmed segments as texts. *)
Definition segmentsSoFar (segments : list string) (timeline : Timeline) : Prop :=
  segmentsOfSentences timeline /\ map text timeline = map trim segments.

End PipelineProperties.

Section TraceProperties.
Context `{Collaborators}.

(** A run that fails, from whatever world it starts, having made only
    calls that satisfy [P]. *)
Definition FailsWithin {A} (P : Event -> Prop) (m : M A) : Prop :=
  forall w, (exists e, result (m w) = Err e) /\ Forall P (trace (m w)).

(** A request to a back end. *)
Definition isBackendCall (ev : Event) : bool :=
  match ev with BackendSynthesize _ => true | _ => false end.

(** The calls that precede the [switch] over the engine: the voice list and
    the package of the voice. *)
Definition isPreparation (ev : Event) : bool :=
  match ev with LoadVoiceList _ | LoadPackage _ => true | _ => false end.

(** The forced alignment and the conversion of SSML to plain text that
    precedes it. *)
Definition isAlignment (ev : Event) : bool :=
  match ev with Align _ _ | ConvertHtmlToText _ => true | _ => false end.

(** The data handed to [onSegment], and to [onSentence]. *)
Definition segmentEventOf (ev : Event) : option SynthesisSegmentEventData :=
  match ev with OnSegment data => Some data | _ => None end.

Definition sentenceEventOf (ev : Event) : option SynthesisSegmentEventData :=
  match ev with OnSentence data => Some data | _ => None end.

(** What a callback is told of a segment or a sentence: its index, the
    number of segments or sentences, its trimmed text. *)
Definition eventSummary (data : SynthesisSegmentEventData) : nat * nat * string :=
  (event_index data, event_total data, event_transcript data).

(** The entries follow one another in time: the first starts at [from],
    each next one starts where the one before it ends, and the last ends at
    [to]. *)
Fixpoint chained (from : number) (entries : Timeline) (to : number) : Prop :=
  match entries with
  | [] => from = to
  | entry :: entries' => startTime entry = from /\ chained (endTime entry) entries' to
  end.

(** What the loop over the segments keeps: the segment entries follow one
    another from 0 to the time offset, each spans its sentences, of which
    it has at least one, and the audio and the time line of each segment
    are kept beside it. *)
Definition segmentsInvariant (n : nat) (state : SegmentLoop) : Prop :=
  chained 0 (loop_timeline state) (loop_timeOffset state)
  /\ Forall (fun segment =>
               chained (startTime segment) (timeline segment) (endTime segment)
               /\ timeline segment <> [])
            (loop_timeline state)
  /\ length (loop_timeline state) = n
  /\ length (loop_segmentsAudio state) = n
  /\ loop_segmentsTimelines state
     = map (fun segment => addTimeOffsetToTimeline (timeline segment) (- startTime segment))
           (loop_timeline state).

(** The engines whose audio is time-stretched by [speed] after synthesis,
    and those whose audio is pitch-shifted by [pitch]: the cases of the
    [switch] that set [shouldPostprocessSpeed], [shouldPostprocessPitch]. *)
Definition postprocessesSpeed (engine : option SynthesisEngine) : bool :=
  match engine with
  | Some (sapi | msspeech | coqui_server | amazon_polly | elevenlabs
          | google_translate | streamlabs_polly) => true
  | _ => false
  end.

Definition postprocessesPitch (engine : option SynthesisEngine) : bool :=
  match engine with
  | Some (vits | flite) => true
  | _ => postprocessesSpeed engine
  end.

End TraceProperties.

End Synthesis.

(** ** Loading the voice list of an engine *)

Module VoiceListLoader.
Import Js Synthesis.
Local Open Scope string_scope.

(** What the listings of the engines return, as far as [loadVoiceList] reads
    them: a voice of eSpeak, with the [name] of each of its languages; a
    voice of Google Cloud, with the first of its [languageCodes]; a voice of
    Azure; a voice of Amazon Polly; a voice of Microsoft Edge. *)
Record EspeakVoice : Type := {
  espeak_identifier : string;
  espeak_languageNames : list string
}.

Record GoogleCloudVoice : Type := {
  googleCloud_name : string;
  googleCloud_languageCode0 : string;
  googleCloud_ssmlGender : string
}.

Record AzureVoice : Type := {
  azure_name : string;
  azure_locale : string;
  azure_gender : number
}.

Record PollyVoice : Type := {
  polly_Id : string;
  polly_LanguageCode : string;
  polly_Gender : string;
  polly_AdditionalLanguageCodes : option (list string)
}.

Record EdgeVoice : Type := {
  edge_Name : string;
  edge_Locale : string;
  edge_Gender : string
}.

(** The calls that leave [requestVoiceList], in the order they are made. *)
Inductive Call : Type :=
| EnsureDir (dir : string)
| ExistsSync (path : string) (answer : bool)
| IsFileIsUpToDate (path : string) (duration : option number)
| ReadAndParseJsonFile (path : string)
| WriteFileSafe (path : string) (voiceList : list SynthesisVoice)
| EspeakListVoices
| AssertSAPIAvailable (useSpeechPlatform : bool)
| SapiGetVoiceList (useSpeechPlatform : bool)
| GoogleCloudGetVoiceList (apiKey : string)
| AzureGetVoiceList (subscriptionKey serviceRegion : string)
| PollyGetVoiceList (region accessKeyId secretAccessKey : string)
| ElevenLabsGetVoiceList
| EdgeGetVoiceList (trustedClientToken : string).

(** The code of other modules that [requestVoiceList] calls besides that of
    [Collaborators]: the file system, the listings of the engines.
    [writeFileSafe] receives the voice list that [stringifyAndFormatJson]
    turns into the text of the file. *)
Class VoiceSources `{Collaborators} : Type := {
  (* utilities/FileSystem.ts and node:path *)
  appDataDir : string;
  path_join : string -> string -> string;
  ensureDir : string -> World -> Result unit * World;
  existsSync : string -> World -> bool;
  isFileIsUpToDate : string -> option number -> World -> Result bool * World;
  readAndParseJsonFile : string -> World -> Result (list SynthesisVoice) * World;
  writeFileSafe : string -> list SynthesisVoice -> World -> Result unit * World;
  (* the listings *)
  EspeakTTS_listVoices : World -> Result (list EspeakVoice) * World;
  SapiTTS_AssertSAPIAvailable : bool -> World -> Result unit * World;
  SapiTTS_getVoiceList : bool -> World -> Result (list SynthesisVoice) * World;
  GoogleCloudTTS_getVoiceList : string -> World -> Result (list GoogleCloudVoice) * World;
  AzureCognitiveServicesTTS_getVoiceList :
    string -> string -> World -> Result (list AzureVoice) * World;
  AwsPollyTTS_getVoiceList :
    string -> string -> string -> World -> Result (list PollyVoice) * World;
  ElevenLabsTTS_getVoiceList : World -> Result (list SynthesisVoice) * World;
  GoogleTranslateTTS_supportedLanguageLookup : list (string * string);
  MicrosoftEdgeTTS_getVoiceList : string -> World -> Result (list EdgeVoice) * World;
  StreamlabsPollyTTS_voiceList : list SynthesisVoice
}.

Section Loader.
Context `{VoiceSources}.

(** A run of a piece of [requestVoiceList] from a state of the world: how
    it ends, the world it leaves, and the calls it made. *)
Record Loading (A : Type) : Type := {
  outcome : Result A;
  world : World;
  calls : list Call
}.
Arguments outcome {A} _.
Arguments world {A} _.
Arguments calls {A} _.

(** A piece of [requestVoiceList]; [None] is a run that has not ended when
    the fuel of a loop is spent. *)
Definition Load (A : Type) : Type := World -> option (Loading A).

#[global] Instance Load_ret : MRet Load :=
  fun A a w => Some {| outcome := Ok a; world := w; calls := [] |}.

#[global] Instance Load_bind : MBind Load :=
  fun A B k m w =>
    match m w with
    | Some r =>
      match outcome r with
      | Ok a =>
        match k a (world r) with
        | Some r' =>
          Some {| outcome := outcome r'; world := world r';
                  calls := (calls r ++ calls r')%list |}
        | None => None
        end
      | Err e => Some {| outcome := Err e; world := world r; calls := calls r |}
      end
    | None => None
    end.

Definition fail {A} (message : string) : Load A :=
  fun w => Some {| outcome := Err (Error message); world := w; calls := [] |}.

(** An awaited call, recorded. *)
Definition await {A} (c : Call) (f : World -> Result A * World) : Load A :=
  fun w => let '(r, w') := f w in Some {| outcome := r; world := w'; calls := [c] |}.

(** A run that does not end. *)
Definition diverge {A} : Load A := fun _ => None.

(** [`${options.engine}`]. *)
Definition showEngine (engine : option SynthesisEngine) : string :=
  match engine with
  | Some engine => engineName engine
  | None => "undefined"
  end.

(** The [for ... of] loop of lines 1140-1146, from index [i]: the array
    grows while it is iterated, and the codes pushed are visited too. *)
Fixpoint addShortLanguageCodes (fuel : nat) (languages : list string) (i : nat)
    : option (list string) :=
  match fuel with
  | O => None
  | S fuel' =>
    match languages !! i with
    | None => Some languages
    | Some language =>
      let shortLanguageCode := getShortLanguageCode language in
      if bool_decide (shortLanguageCode ∈ languages)
      then addShortLanguageCodes fuel' languages (S i)
      else addShortLanguageCodes fuel' (languages ++ [shortLanguageCode])%list (S i)
    end
  end.

(** Lines 1137-1154: a voice of eSpeak. *)
Definition espeakVoice (fuel : nat) (voice : EspeakVoice) : option SynthesisVoice :=
  let languages := map normalizeLanguageCode (espeak_languageNames voice) in
  languages ← addShortLanguageCodes fuel languages 0;
  Some {| name := espeak_identifier voice; languages := languages; gender := "male";
          speakerCount := None; packageName := None; elevenLabsVoiceId := None |}.

(** Lines 1296-1314: a voice of Amazon Polly. *)
Definition pollyVoice (voice : PollyVoice) : SynthesisVoice :=
  let languageCode := normalizeLanguageCode (polly_LanguageCode voice) in
  let languageCodes := [languageCode; getShortLanguageCode languageCode] in
  let languageCodes :=
    match polly_AdditionalLanguageCodes voice with
    | Some additional =>
      (languageCodes
       ++ flat_map (fun additionalLanguageCode =>
                      [normalizeLanguageCode additionalLanguageCode;
                       getShortLanguageCode additionalLanguageCode])
                   additional)%list
    | None => languageCodes
    end in
  {| name := polly_Id voice; languages := languageCodes;
     gender := toLowerCase (polly_Gender voice);
     speakerCount := None; packageName := None; elevenLabsVoiceId := None |}.

(** A voice with the three properties the literals of the source give. *)
Definition plainVoice (name : string) (languages : list string) (gender : string)
    : SynthesisVoice :=
  {| name := name; languages := languages; gender := gender;
     speakerCount := None; packageName := None; elevenLabsVoiceId := None |}.

(** [{ ...entry, packageName }]. *)
Definition withPackageName (entry : SynthesisVoice) (packageName : string) : SynthesisVoice :=
  {| name := name entry; languages := languages entry; gender := gender entry;
     speakerCount := speakerCount entry; packageName := Some packageName;
     elevenLabsVoiceId := elevenLabsVoiceId entry |}.

(** A credential that must be a non-empty string. *)
Definition require (value : option string) (message : string) : Load string :=
  if truthyString value then mret (default "" value) else fail message.

(** Lines 1131-1369: the [switch] of [loadVoiceList]. *)
Definition listVoices (fuel : nat) (options : SynthesisOptions) : Load (list SynthesisVoice) :=
  match engine options with
  | Some espeak =>
    voices ← await EspeakListVoices EspeakTTS_listVoices;
    match mapM (espeakVoice fuel) voices with
    | Some voiceList => mret voiceList
    | None => diverge
    end
  | Some flite => mret FliteTTS_voiceList
  | Some pico => mret SvoxPicoTTS_voiceList
  | Some sam => mret [plainVoice "sam" ["en-US"; "en"] "male"]
  | Some vits =>
    mret (map (fun entry => withPackageName entry ("vits-" +:+ name entry)) VitsTTS_voiceList)
  | Some sapi =>
    await (AssertSAPIAvailable false) (SapiTTS_AssertSAPIAvailable false);;
    await (SapiGetVoiceList false) (SapiTTS_getVoiceList false)
  | Some msspeech =>
    await (AssertSAPIAvailable true) (SapiTTS_AssertSAPIAvailable true);;
    await (SapiGetVoiceList true) (SapiTTS_getVoiceList true)
  | Some coqui_server => mret [plainVoice "coqui" ["en-US"] "unknown"]
  | Some google_cloud =>
    apiKey ← require (googleCloud_apiKey options) "No API key given";
    voices ← await (GoogleCloudGetVoiceList apiKey) (GoogleCloudTTS_getVoiceList apiKey);
    mret (map (fun voice =>
                 plainVoice (googleCloud_name voice)
                   [normalizeLanguageCode (googleCloud_languageCode0 voice);
                    getShortLanguageCode (googleCloud_languageCode0 voice)]
                   (toLowerCase (googleCloud_ssmlGender voice)))
              voices)
  | Some microsoft_azure =>
    subscriptionKey ← require (microsoftAzure_subscriptionKey options)
                        "No subscription key given";
    serviceRegion ← require (microsoftAzure_serviceRegion options) "No service region given";
    voices ← await (AzureGetVoiceList subscriptionKey serviceRegion)
                   (AzureCognitiveServicesTTS_getVoiceList subscriptionKey serviceRegion);
    mret (map (fun voice =>
                 plainVoice (azure_name voice)
                   [normalizeLanguageCode (azure_locale voice);
                    getShortLanguageCode (azure_locale voice)]
                   (if bool_decide (azure_gender voice = 1%Qc) then "female" else "male"))
              voices)
  | Some amazon_polly =>
    region ← require (awsPolly_region options) "No region given";
    accessKeyId ← require (awsPolly_accessKeyId options) "No access key id given";
    secretAccessKey ← require (awsPolly_secretAccessKey options) "No secret access key given";
    voices ← await (PollyGetVoiceList region accessKeyId secretAccessKey)
                   (AwsPollyTTS_getVoiceList region accessKeyId secretAccessKey);
    mret (map pollyVoice voices)
  | Some elevenlabs => await ElevenLabsGetVoiceList ElevenLabsTTS_getVoiceList
  | Some google_translate =>
    mret (map (fun '(langCode, voiceName) =>
                 plainVoice voiceName
                   (if includes langCode "-"
                    then [normalizeLanguageCode langCode; getShortLanguageCode langCode]
                    else [normalizeLanguageCode langCode])
                   "unknown")
              GoogleTranslateTTS_supportedLanguageLookup)
  | Some microsoft_edge =>
    trustedClientToken ← require (microsoftEdge_trustedClientToken options)
                           "No trusted client token provided";
    voices ← await (EdgeGetVoiceList trustedClientToken)
                   (MicrosoftEdgeTTS_getVoiceList trustedClientToken);
    mret (map (fun voice =>
                 plainVoice (edge_Name voice)
                   [normalizeLanguageCode (edge_Locale voice);
                    getShortLanguageCode (edge_Locale voice)]
                   (if bool_decide (edge_Gender voice = "Male") then "male" else "female"))
              voices)
  | Some streamlabs_polly => mret StreamlabsPollyTTS_voiceList
  | Some (OtherEngine _) | None => mret []
  end.

(** Lines 1128-1377: [loadVoiceList], which writes the list to the cache
    file. *)
Definition loadVoiceList (fuel : nat) (options : SynthesisOptions) (cacheFilePath : string)
    : Load (list SynthesisVoice) :=
  voiceList ← listVoices fuel options;
  (if bool_decide (cacheFilePath <> "") then
     await (WriteFileSafe cacheFilePath voiceList) (writeFileSafe cacheFilePath voiceList)
   else mret tt);;
  mret voiceList.

(** Lines 1116-1126: the path of the cache file. *)
Definition cacheFilePathOf (options : SynthesisOptions) : Load string :=
  let cacheDir := cache_path options in
  cacheDir ← (if negb (truthyString cacheDir) then
                let cacheDir := path_join appDataDir "voice-list-cache" in
                await (EnsureDir cacheDir) (ensureDir cacheDir);;
                mret cacheDir
              else mret (default "" cacheDir));
  mret (path_join cacheDir (showEngine (engine options) +:+ ".voices.json")).

(** The condition of line 1381, evaluated from the left. *)
Definition cacheIsFresh (options : SynthesisOptions) (cacheFilePath : string) : Load bool :=
  if bool_decide (cacheFilePath <> "") then
    found ← (fun w => Some {| outcome := Ok (existsSync cacheFilePath w); world := w;
                              calls := [ExistsSync cacheFilePath (existsSync cacheFilePath w)] |});
    if (found : bool) then
      await (IsFileIsUpToDate cacheFilePath (cache_duration options))
            (isFileIsUpToDate cacheFilePath (cache_duration options))
    else mret false
  else mret false.

(** [requestVoiceList], with the cache and the listings of lines
    1116-1385, and the selection of lines 1387-1441. *)
Definition requestVoiceList (fuel : nat) (options : SynthesisOptions)
    : Load RequestVoiceListResult :=
  let options := extendDeep defaultVoiceListRequestOptions options in
  cacheFilePath ← cacheFilePathOf options;
  fresh ← cacheIsFresh options cacheFilePath;
  voiceList ← (if (fresh : bool) then
                 await (ReadAndParseJsonFile cacheFilePath) (readAndParseJsonFile cacheFilePath)
               else loadVoiceList fuel options cacheFilePath);
  mret (selectVoices voiceList options).

(** Every call of a run that ends satisfies [P]. *)
Definition AllCalls {A} (P : Call -> Prop) (m : Load A) : Prop :=
  forall w r, m w = Some r -> Forall P (calls r).

(** The calls to the file system. *)
Definition isFileCall (c : Call) : bool :=
  match c with
  | EnsureDir _ | ExistsSync _ _ | IsFileIsUpToDate _ _ | ReadAndParseJsonFile _
  | WriteFileSafe _ _ => true
  | _ => false
  end.

End Loader.

Arguments outcome {_ A} _.
Arguments world {_ A} _.
Arguments calls {_ A} _.

End VoiceListLoader.

(** ** Collaborators to run the pipeline on examples *)

Module Fixture.
Import Js Synthesis.
Local Open Scope Qc_scope.
Local Open Scope string_scope.

Definition voiceOf (name : string) (languages : list string) (gender : string)
    : SynthesisVoice :=
  {| name := name; languages := languages; gender := gender;
     speakerCount := None; packageName := None; elevenLabsVoiceId := None |}.

(** Options of the examples. *)

(** [options.ssml = v]. *)
Definition with_ssml (o : SynthesisOptions) (v : option bool) : SynthesisOptions :=
  {| engine := engine o; language := language o; voice := voice o;
     voiceGender := voiceGender o; speed := speed o; pitch := pitch o;
     pitchVariation := pitchVariation o; ssml := v; splitToSentences := splitToSentences o;
     segmentEndPause := segmentEndPause o; sentenceEndPause := sentenceEndPause o;
     alignment_engine := alignment_engine o; alignment_language := alignment_language o;
     postProcessing_normalizeAudio := postProcessing_normalizeAudio o;
     postProcessing_targetPeakDb := postProcessing_targetPeakDb o;
     postProcessing_maxIncreaseDb := postProcessing_maxIncreaseDb o;
     postProcessing_speed := postProcessing_speed o;
     postProcessing_pitch := postProcessing_pitch o;
     postProcessing_timePitchShiftingMethod := postProcessing_timePitchShiftingMethod o;
     vits_speakerId := vits_speakerId o; vits_customLexiconPaths := vits_customLexiconPaths o;
     espeak_rate := espeak_rate o; espeak_pitch := espeak_pitch o;
     espeak_pitchRange := espeak_pitchRange o; sam_pitch := sam_pitch o;
     sam_speed := sam_speed o; sam_mouth := sam_mouth o; sam_throat := sam_throat o;
     sapi_rate := sapi_rate o; msspeech_rate := msspeech_rate o;
     coquiServer_serverUrl := coquiServer_serverUrl o;
     coquiServer_speakerId := coquiServer_speakerId o;
     googleCloud_apiKey := googleCloud_apiKey o;
     googleCloud_pitchDeltaSemitones := googleCloud_pitchDeltaSemitones o;
     microsoftAzure_subscriptionKey := microsoftAzure_subscriptionKey o;
     microsoftAzure_serviceRegion := microsoftAzure_serviceRegion o;
     microsoftAzure_pitchDeltaHz := microsoftAzure_pitchDeltaHz o;
     awsPolly_region := awsPolly_region o; awsPolly_accessKeyId := awsPolly_accessKeyId o;
     awsPolly_secretAccessKey := awsPolly_secretAccessKey o;
     awsPolly_pollyEngine := awsPolly_pollyEngine o;
     awsPolly_lexiconNames := awsPolly_lexiconNames o;
     elevenlabs_apiKey := elevenlabs_apiKey o; elevenlabs_stability := elevenlabs_stability o;
     elevenlabs_similarityBoost := elevenlabs_similarityBoost o;
     googleTranslate_tld := googleTranslate_tld o;
     microsoftEdge_trustedClientToken := microsoftEdge_trustedClientToken o;
     microsoftEdge_pitchDeltaHz := microsoftEdge_pitchDeltaHz o; cache_path := cache_path o;
     cache_duration := cache_duration o |}.

(** [options.vits.speakerId = v]. *)
Definition with_vits_speakerId (o : SynthesisOptions) (v : option Z) : SynthesisOptions :=
  {| engine := engine o; language := language o; voice := voice o;
     voiceGender := voiceGender o; speed := speed o; pitch := pitch o;
     pitchVariation := pitchVariation o; ssml := ssml o;
     splitToSentences := splitToSentences o; segmentEndPause := segmentEndPause o;
     sentenceEndPause := sentenceEndPause o; alignment_engine := alignment_engine o;
     alignment_language := alignment_language o;
     postProcessing_normalizeAudio := postProcessing_normalizeAudio o;
     postProcessing_targetPeakDb := postProcessing_targetPeakDb o;
     postProcessing_maxIncreaseDb := postProcessing_maxIncreaseDb o;
     postProcessing_speed := postProcessing_speed o;
     postProcessing_pitch := postProcessing_pitch o;
     postProcessing_timePitchShiftingMethod := postProcessing_timePitchShiftingMethod o;
     vits_speakerId := v; vits_customLexiconPaths := vits_customLexiconPaths o;
     espeak_rate := espeak_rate o; espeak_pitch := espeak_pitch o;
     espeak_pitchRange := espeak_pitchRange o; sam_pitch := sam_pitch o;
     sam_speed := sam_speed o; sam_mouth := sam_mouth o; sam_throat := sam_throat o;
     sapi_rate := sapi_rate o; msspeech_rate := msspeech_rate o;
     coquiServer_serverUrl := coquiServer_serverUrl o;
     coquiServer_speakerId := coquiServer_speakerId o;
     googleCloud_apiKey := googleCloud_apiKey o;
     googleCloud_pitchDeltaSemitones := googleCloud_pitchDeltaSemitones o;
     microsoftAzure_subscriptionKey := microsoftAzure_subscriptionKey o;
     microsoftAzure_serviceRegion := microsoftAzure_serviceRegion o;
     microsoftAzure_pitchDeltaHz := microsoftAzure_pitchDeltaHz o;
     awsPolly_region := awsPolly_region o; awsPolly_accessKeyId := awsPolly_accessKeyId o;
     awsPolly_secretAccessKey := awsPolly_secretAccessKey o;
     awsPolly_pollyEngine := awsPolly_pollyEngine o;
     awsPolly_lexiconNames := awsPolly_lexiconNames o;
     elevenlabs_apiKey := elevenlabs_apiKey o; elevenlabs_stability := elevenlabs_stability o;
     elevenlabs_similarityBoost := elevenlabs_similarityBoost o;
     googleTranslate_tld := googleTranslate_tld o;
     microsoftEdge_trustedClientToken := microsoftEdge_trustedClientToken o;
     microsoftEdge_pitchDeltaHz := microsoftEdge_pitchDeltaHz o; cache_path := cache_path o;
     cache_duration := cache_duration o |}.

(** The part of a language code before its first hyphen. *)
Fixpoint beforeHyphen (s : string) : string :=
  match s with
  | String c s' => if Ascii.eqb c "-" then EmptyString else String c (beforeHyphen s')
  | EmptyString => EmptyString
  end.

(** Modelled from the spec: [isWord] of [nlp/Segmentation.ts], which is not
    among the sources.  The spec has "punctuation-only or whitespace-only
    entries" as the texts that are no "word-class token": a text is a word
    when one of its characters is a letter, a digit or an underscore. *)
Definition hasWordCharacter (s : string) : bool :=
  existsb isWordChar (list_ascii_of_string s).

(** A sentence ends after each full stop. *)
Fixpoint cutAfterFullStops (s : string) : list string :=
  match s with
  | EmptyString => []
  | String c s' =>
    if Ascii.eqb c "." then String c EmptyString :: cutAfterFullStops s'
    else match cutAfterFullStops s' with
         | [] => [String c EmptyString]
         | sentence :: sentences => String c sentence :: sentences
         end
  end.

Fixpoint dropLeadingZeros (samples : list number) : list number :=
  match samples with
  | x :: samples' => if bool_decide (x = 0) then dropLeadingZeros samples' else samples
  | [] => []
  end.

Definition clamp (value lo hi : number) : number :=
  if bool_decide (value <= lo) then lo else if bool_decide (hi <= value) then hi else value.

(** The collaborators of the examples.  The world counts the turns of the
    event loop, and the task is cancelled from turn [cancelAt] on; every
    engine lists [voices]; a back end answers [samples] at 4 samples per
    second with the time line [backendTimeline]; silence is a sample equal
    to 0 and is trimmed at the start only; language codes are taken as
    normalized, and "en" has the long form "en-US". *)
Definition collaborators (voices : list SynthesisVoice) (cancelAt : nat)
    (samples : list number) (backendTimeline : option Timeline) : Collaborators :=
  {| World := nat;
     normalizeLanguageCode := fun code => code;
     getShortLanguageCode := beforeHyphen;
     shortLanguageCodeToLong :=
       fun code => if bool_decide (code = "en") then Some "en-US" else None;
     isWord := hasWordCharacter;
     nlp_splitToSentences := fun text _ => cutAfterFullStops text;
     clip := clamp;
     simplifyPunctuationCharacters := fun text => text;
     sha256AsHex := fun _ => "";
     Math_log := fun _ => 0;
     showFraction := fun _ => "";
     downmixToMono := fun audio => audio;
     normalizeAudioLevel := fun audio _ _ => audio;
     trimAudioStart := fun samples _ _ => dropLeadingZeros samples;
     trimAudioEnd := fun samples _ _ => samples;
     concatAudioSegments :=
       fun segments => [concat (map (fun channels => default [] (head channels)) segments)];
     getAudioPeakDecibels := fun _ => 0;
     getEmptyRawAudio :=
       fun channelCount rate =>
         {| audioChannels := replicate (Z.to_nat channelCount) []; sampleRate := rate |};
     VitsTTS_voiceList := [voiceOf "en_US-amy" ["en-US"; "en"] "female"];
     FliteTTS_voiceList := [voiceOf "slt" ["en-US"; "en"] "female";
                            voiceOf "fr-voice" ["fr-FR"; "fr"] "male"];
     SvoxPicoTTS_voiceList := [voiceOf "de-DE" ["de-DE"; "de"] "female"];
     yieldToEventLoop := S;
     shouldCancelCurrentTask := fun turn => bool_decide (cancelAt <= turn)%nat;
     detectTextLanguage := fun _ w => (Ok "en", w);
     loadVoiceList := fun _ w => (Ok voices, w);
     loadPackage := fun package w => (Ok package, w);
     backendSynthesize :=
       fun _ w =>
         (Ok {| rawAudio := {| audioChannels := [samples]; sampleRate := num 4 |};
                outTimeline := backendTimeline |}, w);
     alignSegments := fun _ segmentTimeline _ w => (Ok segmentTimeline, w);
     convertHtmlToText := fun html w => (Ok html, w);
     align := fun _ plainText _ w => (Ok [MkTimelineEntry "word" plainText 0 1 []], w);
     stretchTimePitch := fun _ audio _ _ _ w => (Ok audio, w) |}.

(** The file system and the listings of the examples, over any
    collaborators: the application data are under "/data" and paths are
    joined with a slash; the cache file exists and is up to date exactly
    when [cached] holds a list, its content; eSpeak lists [espeakVoices],
    and every other listing that is called answers the empty list. *)
Definition voiceSources `{Collaborators} (cached : option (list SynthesisVoice))
    (espeakVoices : list VoiceListLoader.EspeakVoice) : VoiceListLoader.VoiceSources :=
  {| VoiceListLoader.appDataDir := "/data";
     VoiceListLoader.path_join := fun dir file => dir +:+ "/" +:+ file;
     VoiceListLoader.ensureDir := fun _ w => (Ok tt, w);
     VoiceListLoader.existsSync := fun _ _ => bool_decide (is_Some cached);
     VoiceListLoader.isFileIsUpToDate := fun _ _ w => (Ok true, w);
     VoiceListLoader.readAndParseJsonFile := fun _ w => (Ok (default [] cached), w);
     VoiceListLoader.writeFileSafe := fun _ _ w => (Ok tt, w);
     VoiceListLoader.EspeakTTS_listVoices := fun w => (Ok espeakVoices, w);
     VoiceListLoader.SapiTTS_AssertSAPIAvailable := fun _ w => (Ok tt, w);
     VoiceListLoader.SapiTTS_getVoiceList := fun _ w => (Ok [], w);
     VoiceListLoader.GoogleCloudTTS_getVoiceList := fun _ w => (Ok [], w);
     VoiceListLoader.AzureCognitiveServicesTTS_getVoiceList := fun _ _ w => (Ok [], w);
     VoiceListLoader.AwsPollyTTS_getVoiceList := fun _ _ _ w => (Ok [], w);
     VoiceListLoader.ElevenLabsTTS_getVoiceList := fun w => (Ok [], w);
     VoiceListLoader.GoogleTranslateTTS_supportedLanguageLookup := [("en", "English")];
     VoiceListLoader.MicrosoftEdgeTTS_getVoiceList := fun _ w => (Ok [], w);
     VoiceListLoader.StreamlabsPollyTTS_voiceList := [] |}.

End Fixture.

(* ================================================================== *)
(** * Part II: properties                                               *)
(* ================================================================== *)

(** ** The ASCII codec *)

Section EncodingsFacts.
Import Encodings.

Lemma takeN_take {A} (n : N) (l : list A) : takeN n l = take (N.to_nat n) l.
Proof.
  revert n; induction l as [|x l IH]; intros n; simpl.
  - by rewrite take_nil.
  - destruct (N.eqb_spec n 0) as [->|Hn]; [done|].
    replace (N.to_nat n) with (S (N.to_nat (N.pred n))) by lia.
    simpl. by rewrite IH.
Qed.

Lemma dropN_drop {A} (n : N) (l : list A) : dropN n l = drop (N.to_nat n) l.
Proof.
  revert n; induction l as [|x l IH]; intros n; simpl.
  - by rewrite drop_nil.
  - destruct (N.eqb_spec n 0) as [->|Hn]; [done|].
    replace (N.to_nat n) with (S (N.to_nat (N.pred n))) by lia.
    simpl. by rewrite IH.
Qed.

(** One chunk followed by the rest of the buffer is the buffer from the
    chunk's start. *)
Lemma subarray_next (buffer : list N) (offset size : N) :
  subarray buffer offset (offset + size) ++ dropN (offset + size) buffer
  = dropN offset buffer.
Proof.
  unfold subarray. rewrite takeN_take, !dropN_drop.
  replace (N.to_nat (offset + size - offset)) with (N.to_nat size) by lia.
  replace (N.to_nat (offset + size)) with (N.to_nat offset + N.to_nat size)%nat by lia.
  rewrite <- drop_drop. apply take_drop.
Qed.

Lemma windows1252_ascii (b : N) : (b < 128)%N -> windows1252 b = b.
Proof.
  intros Hb. destruct b as [|p]; [reflexivity|].
  do 8 (try (destruct p as [p|p|]; try reflexivity; try lia)).
Qed.

Lemma textDecode_ascii (bytes : list N) :
  Forall (fun b => (b < 128)%N) bytes -> textDecode bytes = bytes.
Proof.
  unfold textDecode. induction 1 as [|b bytes Hb _ IH]; simpl; [done|].
  by rewrite windows1252_ascii, IH.
Qed.

Lemma textDecode_app (a b : list N) : textDecode (a ++ b) = textDecode a ++ textDecode b.
Proof. apply map_app. Qed.

(** The loop of [decodeAscii] decodes everything from [offset] on, whatever
    the (positive) chunk size, as soon as the fuel covers the bytes left. *)
Lemma decodeAsciiFrom_spec (chunkSize : N) (buffer : list N) :
  (0 < chunkSize)%N ->
  forall fuel offset decoder,
    (N.of_nat (length buffer) < offset + N.of_nat fuel)%N ->
    str (decodeAsciiFrom chunkSize fuel buffer offset decoder)
    = str decoder ++ textDecode (dropN offset buffer).
Proof.
  intros Hc. induction fuel as [|fuel IH]; intros offset decoder Hfuel.
  - simpl. rewrite dropN_drop, drop_ge by lia. by rewrite app_nil_r.
  - simpl. destruct (N.ltb_spec offset (N.of_nat (length buffer))) as [Hlt|Hge].
    + rewrite IH by lia. unfold writeChunk; cbn [str].
      generalize (subarray_next buffer offset chunkSize).
      generalize (subarray buffer offset (offset + chunkSize)).
      intros chunk <-. by rewrite textDecode_app, app_assoc.
    + rewrite dropN_drop, drop_ge by lia. by rewrite app_nil_r.
Qed.

Lemma decodeAscii_spec (buffer : list N) : decodeAscii buffer = textDecode buffer.
Proof.
  unfold decodeAscii, toString.
  rewrite decodeAsciiFrom_spec by (unfold maxChunkSize; lia).
  by destruct buffer.
Qed.

(** The loop of [encodeAscii] on a string whose remaining characters are all
    below 128: it fills the buffer with the characters themselves. *)
Lemma encodeAsciiFrom_ascii (s : JsString) :
  forall remaining i buffer,
    (i + remaining = length s)%nat -> length buffer = length s ->
    Forall (fun c => (c < 128)%N) (drop i s) ->
    encodeAsciiFrom s remaining i buffer = Normal (take i buffer ++ drop i s).
Proof.
  induction remaining as [|remaining IH]; intros i buffer Hi Hlen Hall.
  - simpl. rewrite drop_ge, take_ge by lia. by rewrite app_nil_r.
  - cbn [encodeAsciiFrom]. destruct (lookup_lt_is_Some_2 s i ltac:(lia)) as [c Hc].
    rewrite Hc. rewrite (drop_S _ _ _ Hc) in Hall |- *.
    apply Forall_cons in Hall as [Hlt Hall].
    destruct (N.leb_spec 128 c) as [?|_]; [lia|].
    rewrite IH; [|lia|by unfold setByte; rewrite length_insert|done].
    f_equal. unfold setByte. rewrite N.mod_small by lia.
    rewrite (take_S_r _ _ c).
    + rewrite take_insert_ge by lia. by rewrite <- app_assoc.
    + apply list_lookup_insert_eq. lia.
Qed.

(** The loop throws exactly when a remaining character is 128 or more. *)
Lemma encodeAsciiFrom_throws (s : JsString) :
  forall remaining i buffer,
    (i + remaining = length s)%nat ->
    throws (encodeAsciiFrom s remaining i buffer)
    <-> Exists (fun c => (128 <= c)%N) (drop i s).
Proof.
  induction remaining as [|remaining IH]; intros i buffer Hi.
  - simpl. rewrite drop_ge by lia. split; [done|]. by intros ?%Exists_nil.
  - cbn [encodeAsciiFrom]. destruct (lookup_lt_is_Some_2 s i ltac:(lia)) as [c Hc].
    rewrite Hc, (drop_S _ _ _ Hc), Exists_cons.
    destruct (N.leb_spec 128 c) as [Hge|Hlt].
    + simpl. tauto.
    + rewrite IH by lia. split; [tauto|]. intros [?|?]; [lia|done].
Qed.

End EncodingsFacts.

(** C10.  On a string whose character codes are all below 128,
    [encodeAscii] returns a buffer that [decodeAscii] maps back to the
    string; and [encodeAscii] throws exactly when some character code is
    128 or more (otherwise it returns). *)
Theorem encodeAscii_roundtrip_and_failure (s : Encodings.JsString) :
  (Forall (fun c => (c < 128)%N) s ->
     exists buffer, Encodings.encodeAscii s = Encodings.Normal buffer
                    /\ Encodings.decodeAscii buffer = s)
  /\ (Encodings.throws (Encodings.encodeAscii s)
      <-> Exists (fun c => (128 <= c)%N) s)
  /\ (~ Encodings.throws (Encodings.encodeAscii s)
      -> exists buffer, Encodings.encodeAscii s = Encodings.Normal buffer).
Proof.
  split; [|split].
  - intros Hs. exists s. split.
    + unfold Encodings.encodeAscii.
      rewrite encodeAsciiFrom_ascii; simpl; try done.
      unfold Encodings.newUint8Array. by rewrite length_replicate.
    + rewrite decodeAscii_spec. by apply textDecode_ascii.
  - unfold Encodings.encodeAscii. by rewrite encodeAsciiFrom_throws.
  - destruct (Encodings.encodeAscii s) as [buffer|msg]; simpl; [eauto|tauto].
Qed.

(** The string "Hi!" survives the round trip, and a string holding U+00E9
    makes [encodeAscii] throw. *)
Lemma encodeAscii_roundtrip_and_failure_witness :
  (exists buffer, Encodings.encodeAscii [72; 105; 33]%N = Encodings.Normal buffer
                  /\ Encodings.decodeAscii buffer = [72; 105; 33]%N)
  /\ Encodings.throws (Encodings.encodeAscii [72; 233]%N).
Proof.
  split.
  - apply (proj1 (encodeAscii_roundtrip_and_failure [72; 105; 33]%N)).
    repeat constructor.
  - apply (proj1 (proj2 (encodeAscii_roundtrip_and_failure [72; 233]%N))).
    right. left. vm_compute. discriminate.
Defined.

(** ** The transport client *)

Section TransportFacts.
Import Transport.
Context {Listener : Type}.
Variable decodeMsgPack : list N -> Exception + JsValue.
Variable callListener : Listener -> JsValue -> Completion.
Variable this : Client Listener.

Local Abbreviation handle := (onWebSocketMessage decodeMsgPack callListener this).

(** A text frame is logged and ignored. *)
Lemma text_frame_ignored (messageData : list N) :
  handle messageData false
  = {| effects := [Log (UnexpectedStringMessage messageData)]; completion := Returns |}.
Proof. reflexivity. Qed.

(** A binary frame that fails to decode is logged and ignored. *)
Lemma undecodable_frame_ignored (messageData : list N) (e : Exception) :
  decodeMsgPack messageData = inl e ->
  handle messageData true
  = {| effects := [Log (FailedToDecode e)]; completion := Returns |}.
Proof. intros H. unfold onWebSocketMessage. simpl. by rewrite H. Qed.

(** A decoded message other than [null] and [undefined] is dropped, without
    a call to any listener, when it has no (truthy) request identifier or
    when no listener is registered for the identifier. *)
Lemma unroutable_message_dropped (messageData : list N) (incomingMessage requestId : JsValue) :
  decodeMsgPack messageData = inr incomingMessage ->
  getRequestId incomingMessage = inr requestId ->
  truthy requestId = false \/ getListener this requestId = None ->
  completion (handle messageData true) = Returns
  /\ invokesNoListener (handle messageData true).
Proof.
  intros Hdec Hid Hdrop. unfold onWebSocketMessage, onMessage, invokesNoListener.
  simpl. rewrite Hdec, Hid.
  destruct (truthy requestId); simpl.
  - destruct Hdrop as [?|Hnone]; [done|]. rewrite Hnone. simpl. by split.
  - split; [done|]. by repeat constructor.
Qed.

End TransportFacts.

(** C9, at the input on which the handler fails.  A binary frame that
    decodes to [null] makes [onMessage] read [requestId] of [null]: the
    handler ends by throwing a [TypeError], having logged nothing and
    called no listener. *)
Theorem null_message_throws {Listener : Type}
    (decodeMsgPack : list N -> Transport.Exception + Transport.JsValue)
    (callListener : Listener -> Transport.JsValue -> Transport.Completion)
    (this : Transport.Client Listener) (messageData : list N) :
  decodeMsgPack messageData = inr Transport.JsNull ->
  Transport.onWebSocketMessage decodeMsgPack callListener this messageData true
  = {| Transport.effects := [];
       Transport.completion :=
         Transport.Throws
           (Transport.TypeError "Cannot read properties of null (reading 'requestId')") |}.
Proof.
  intros Hdec. unfold Transport.onWebSocketMessage. simpl. by rewrite Hdec.
Qed.

(** The frame of the single byte 0xC0 (MessagePack [nil]), received by a
    client with no listener registered. *)
Lemma null_message_throws_witness :
  Transport.onWebSocketMessage Transport.decodeOneByte
    (fun (_ : unit) _ => Transport.Returns)
    {| Transport.responseListeners := ∅ |} [0xC0%N] true
  = {| Transport.effects := [];
       Transport.completion :=
         Transport.Throws
           (Transport.TypeError "Cannot read properties of null (reading 'requestId')") |}.
Proof.
  apply (null_message_throws Transport.decodeOneByte). reflexivity.
Defined.

(** ** Voice list requests *)

Section VoiceListFacts.
Import Js Synthesis.
Context `{Collaborators}.
Local Open Scope string_scope.

Lemma firstVoiceDeclaring_found (long : string) (before after : list SynthesisVoice)
    (voice candidate : SynthesisVoice) :
  Forall (fun earlier => long ∉ languages earlier) before ->
  long ∈ languages voice ->
  firstVoiceDeclaring long (before ++ voice :: after) candidate = voice.
Proof.
  intros Hbefore Hvoice. induction Hbefore as [|earlier before Hearlier _ IH]; simpl.
  - by rewrite bool_decide_eq_true_2.
  - by rewrite bool_decide_eq_false_2.
Qed.

Lemma firstVoiceDeclaring_none (long : string) (voices : list SynthesisVoice)
    (candidate : SynthesisVoice) :
  Forall (fun voice => long ∉ languages voice) voices ->
  firstVoiceDeclaring long voices candidate = candidate.
Proof.
  induction 1 as [|voice voices Hvoice _ IH]; simpl; [done|].
  by rewrite bool_decide_eq_false_2.
Qed.

(** The tie-break of [selectBestMatchingVoice] when it applies. *)
Lemma selectBestMatchingVoice_long_form (voices : list SynthesisVoice) (code long : string) :
  shortLanguageCodeToLong code = Some long -> long <> "" ->
  (1 < length voices)%nat ->
  (forall before voice after,
      voices = (before ++ voice :: after)%list ->
      Forall (fun earlier => long ∉ languages earlier) before ->
      long ∈ languages voice ->
      selectBestMatchingVoice voices code = Some voice)
  /\ (Forall (fun voice => long ∉ languages voice) voices ->
      selectBestMatchingVoice voices code = head voices).
Proof.
  intros Hlong Hne Hlen. unfold selectBestMatchingVoice.
  destruct voices as [|first rest]; [simpl in Hlen; lia|].
  rewrite bool_decide_eq_true_2 by done. rewrite Hlong.
  unfold truthyString. rewrite bool_decide_eq_false_2 by done.
  cbn [negb andb default from_option id head]. split.
  - intros before voice after Heq Hbefore Hvoice. rewrite Heq.
    by rewrite firstVoiceDeclaring_found.
  - intros Hnone. by rewrite firstVoiceDeclaring_none.
Qed.

(** The language filter, by cases on the voices that declare the code. *)
Lemma filterByLanguage_cases (loaded : list SynthesisVoice) (code : string) :
  code <> "" ->
  filterByLanguage loaded code
  = if bool_decide (Exists (fun voice => code ∈ languages voice) loaded) then
      filter (fun voice => code ∈ languages voice) loaded
    else if Js.includes code "-" then
      filter (fun voice => getShortLanguageCode code ∈ languages voice) loaded
    else [].
Proof.
  intros Hcode. unfold filterByLanguage. rewrite bool_decide_eq_false_2 by done.
  destruct (decide (Exists (fun voice => code ∈ languages voice) loaded)) as [Hex|Hno].
  - rewrite (bool_decide_eq_true_2 _ Hex).
    rewrite bool_decide_eq_false_2; [done|].
    intros Hlen%nil_length_inv. apply Exists_exists in Hex as (voice & Hin & Hdecl).
    assert (voice ∈ filter (fun voice => code ∈ languages voice) loaded) as Hmem
      by (apply list_elem_of_filter; done).
    rewrite Hlen in Hmem. by apply not_elem_of_nil in Hmem.
  - rewrite (bool_decide_eq_false_2 _ Hno).
    assert (filter (fun voice => code ∈ languages voice) loaded = []) as ->.
    { apply not_Exists_Forall in Hno; [|intros ?; apply _].
      induction Hno as [|voice loaded' Hvoice _ IH]; [done|].
      rewrite filter_cons. simpl in Hvoice. by rewrite decide_False. }
    simpl. by destruct (Js.includes code "-").
Qed.

End VoiceListFacts.

Section RequestVoiceListFacts.
Import Js Synthesis.
Context `{Collaborators}.
Local Open Scope string_scope.

Lemma leaf_None_l {A} (extension : option A) : leaf None extension = extension.
Proof. by destruct extension. Qed.

(** The defaults set no language, gender or voice: the selection reads the
    caller's. *)
Lemma selectVoices_defaults (loaded : list SynthesisVoice) (options : SynthesisOptions) :
  selectVoices loaded (extendDeep defaultVoiceListRequestOptions options)
  = selectVoices loaded options.
Proof. unfold selectVoices. simpl. by rewrite !leaf_None_l. Qed.

(** A run of [requestVoiceList]: one call of the voice-list loader, then
    the selection. *)
Lemma requestVoiceList_run (options : SynthesisOptions) (w w' : World)
    (loaded : Result (list SynthesisVoice)) :
  loadVoiceList (extendDeep defaultVoiceListRequestOptions options) w = (loaded, w') ->
  requestVoiceList options w
  = {| result := match loaded with
                 | Ok loaded => Ok (selectVoices loaded options)
                 | Err e => Err e
                 end;
       final := w';
       trace := [LoadVoiceList (engine (extendDeep defaultVoiceListRequestOptions options))] |}.
Proof.
  intros Hload. unfold requestVoiceList, bind, call. rewrite Hload.
  destruct loaded as [voices|e]; simpl; [|done].
  by rewrite selectVoices_defaults.
Qed.

(** The later filters only remove voices. *)
Lemma filterByGender_subseteq (voices : list SynthesisVoice) (voiceGender : option string) :
  filterByGender voices voiceGender ⊆ voices.
Proof.
  unfold filterByGender. destruct (truthyString voiceGender); [|done].
  intros voice Hin. by apply list_elem_of_filter in Hin as [_ ?].
Qed.

Lemma filterByName_subseteq (voices : list SynthesisVoice) (voice : option string) :
  filterByName voices voice ⊆ voices.
Proof.
  unfold filterByName. destruct (truthyString voice); [|done].
  case_bool_decide; intros v Hin; by apply list_elem_of_filter in Hin as [_ ?].
Qed.

Lemma voiceList_selectVoices_subseteq (loaded : list SynthesisVoice) (options : SynthesisOptions) :
  voiceList (selectVoices loaded options)
  ⊆ filterByLanguage loaded (normalizeLanguageCode (orString (language options) "")).
Proof.
  unfold selectVoices. simpl.
  etrans; [apply filterByName_subseteq|apply filterByGender_subseteq].
Qed.

Lemma voiceList_selectVoices_language_only (loaded : list SynthesisVoice)
    (options : SynthesisOptions) :
  voiceGender options = None -> voice options = None ->
  voiceList (selectVoices loaded options)
  = filterByLanguage loaded (normalizeLanguageCode (orString (language options) "")).
Proof. intros Hg Hv. unfold selectVoices, filterByGender, filterByName. by rewrite Hg, Hv. Qed.

End RequestVoiceListFacts.

(** C2.  When the normalized language code of a request is not empty,
    [requestVoiceList] keeps of the loaded voices those whose [languages]
    hold the code itself; when no voice does and the code holds a hyphen,
    those whose [languages] hold the shortened code (with no gender and no
    voice name requested, the resulting list is exactly that one).  For the
    voices a (en-US, en) and b (en-GB, en) and the request language
    "en-GB", the best matching voice is b. *)
Theorem requestVoiceList_filters_by_language `{Synthesis.Collaborators}
    (options : Synthesis.SynthesisOptions) (loaded : list Synthesis.SynthesisVoice)
    (w w' : Synthesis.World) :
  let languageCode :=
    Synthesis.normalizeLanguageCode (Js.orString (Synthesis.language options) "") in
  let byLanguage :=
    if bool_decide (Exists (fun voice => languageCode ∈ Synthesis.languages voice) loaded) then
      filter (fun voice => languageCode ∈ Synthesis.languages voice) loaded
    else if Js.includes languageCode "-" then
      filter (fun voice =>
                Synthesis.getShortLanguageCode languageCode ∈ Synthesis.languages voice)
             loaded
    else [] in
  Synthesis.loadVoiceList
    (Synthesis.extendDeep Synthesis.defaultVoiceListRequestOptions options) w
  = (Synthesis.Ok loaded, w') ->
  languageCode <> ""%string ->
  exists found,
    Synthesis.result (Synthesis.requestVoiceList options w) = Synthesis.Ok found
    /\ Synthesis.voiceList found ⊆ byLanguage
    /\ (Synthesis.voiceGender options = None -> Synthesis.voice options = None ->
        Synthesis.voiceList found = byLanguage)
    /\ (Synthesis.voiceGender options = None -> Synthesis.voice options = None ->
        languageCode = "en-GB"%string ->
        loaded = [Fixture.voiceOf "a" ["en-US"; "en"]%string "unknown";
                  Fixture.voiceOf "b" ["en-GB"; "en"]%string "unknown"] ->
        Synthesis.name <$> Synthesis.bestMatchingVoice found = Some "b"%string).
Proof.
  intros languageCode byLanguage Hload Hcode.
  exists (Synthesis.selectVoices loaded options).
  rewrite (requestVoiceList_run _ _ _ _ Hload). simpl.
  split; [done|]. unfold byLanguage. split; [|split].
  - rewrite <- filterByLanguage_cases by done. apply voiceList_selectVoices_subseteq.
  - intros Hg Hv. rewrite <- filterByLanguage_cases by done.
    by apply voiceList_selectVoices_language_only.
  - intros Hg Hv Hen ->.
    unfold Synthesis.selectVoices, Synthesis.filterByGender, Synthesis.filterByName.
    rewrite Hg, Hv. fold languageCode. rewrite Hen. reflexivity.
Qed.

(** The request of "en-GB" over the voices a and b. *)
Lemma requestVoiceList_filters_by_language_witness :
  let C := Fixture.collaborators
             [Fixture.voiceOf "a" ["en-US"; "en"]%string "unknown";
              Fixture.voiceOf "b" ["en-GB"; "en"]%string "unknown"] 0 [] None in
  let options := Synthesis.set_language Synthesis.emptyOptions (Some "en-GB"%string) in
  exists found,
    Synthesis.result (@Synthesis.requestVoiceList C options 0%nat) = Synthesis.Ok found
    /\ Synthesis.name <$> Synthesis.bestMatchingVoice found = Some "b"%string.
Proof.
  intros C options.
  destruct (@requestVoiceList_filters_by_language C options
              [Fixture.voiceOf "a" ["en-US"; "en"]%string "unknown";
               Fixture.voiceOf "b" ["en-GB"; "en"]%string "unknown"] 0%nat 0%nat)
    as (found & Hfound & _ & _ & Hbest); [reflexivity|discriminate|].
  exists found. split; [exact Hfound|]. by apply Hbest.
Defined.

(** C1, as amended.  When the table [shortLanguageCodeToLong] has a
    (non-empty) long form for the normalized language code of a request and
    more than one voice remains after the filters, [requestVoiceList]
    selects the first remaining voice whose [languages] hold the long form,
    and the first remaining voice when none does.  The voices that remain
    for a code without hyphen all declare the code itself: for the request
    language "en" with long form "en-US", the voice b (en-US, en) is
    selected in preference to the earlier a (en-GB, en). *)
Theorem requestVoiceList_prefers_long_form `{Synthesis.Collaborators}
    (options : Synthesis.SynthesisOptions) (loaded : list Synthesis.SynthesisVoice)
    (w w' : Synthesis.World) (long : string) :
  let languageCode :=
    Synthesis.normalizeLanguageCode (Js.orString (Synthesis.language options) "") in
  Synthesis.loadVoiceList
    (Synthesis.extendDeep Synthesis.defaultVoiceListRequestOptions options) w
  = (Synthesis.Ok loaded, w') ->
  Synthesis.shortLanguageCodeToLong languageCode = Some long ->
  long <> ""%string ->
  exists found,
    Synthesis.result (Synthesis.requestVoiceList options w) = Synthesis.Ok found
    /\ ((1 < length (Synthesis.voiceList found))%nat ->
        (forall before voice after,
            Synthesis.voiceList found = before ++ voice :: after ->
            Forall (fun earlier => long ∉ Synthesis.languages earlier) before ->
            long ∈ Synthesis.languages voice ->
            Synthesis.bestMatchingVoice found = Some voice)
        /\ (Forall (fun voice => long ∉ Synthesis.languages voice) (Synthesis.voiceList found) ->
            Synthesis.bestMatchingVoice found = head (Synthesis.voiceList found)))
    /\ (languageCode <> ""%string -> Js.includes languageCode "-" = false ->
        Forall (fun voice => languageCode ∈ Synthesis.languages voice)
               (Synthesis.voiceList found))
    /\ (Synthesis.voiceGender options = None -> Synthesis.voice options = None ->
        languageCode = "en"%string -> long = "en-US"%string ->
        loaded = [Fixture.voiceOf "a" ["en-GB"; "en"]%string "unknown";
                  Fixture.voiceOf "b" ["en-US"; "en"]%string "unknown"] ->
        Synthesis.name <$> Synthesis.bestMatchingVoice found = Some "b"%string).
Proof.
  intros languageCode Hload Hlong Hne.
  exists (Synthesis.selectVoices loaded options).
  rewrite (requestVoiceList_run _ _ _ _ Hload). simpl.
  split; [done|]. split; [|split].
  - intros Hlen. by apply selectBestMatchingVoice_long_form.
  - intros Hcode Hshort. apply Forall_forall. intros voice Hin.
    apply voiceList_selectVoices_subseteq in Hin. fold languageCode in Hin.
    rewrite filterByLanguage_cases in Hin by done. rewrite Hshort in Hin.
    case_bool_decide; [|by apply not_elem_of_nil in Hin].
    by apply list_elem_of_filter in Hin as [? _].
  - intros Hg Hv Hen -> ->.
    unfold Synthesis.selectVoices, Synthesis.filterByGender, Synthesis.filterByName.
    rewrite Hg, Hv. fold languageCode. rewrite Hen in Hlong |- *.
    unfold Synthesis.selectBestMatchingVoice. simpl. rewrite Hlong. reflexivity.
Qed.

(** The request of "en" over the voices a (en-GB, en) and b (en-US, en). *)
Lemma requestVoiceList_prefers_long_form_witness :
  let C := Fixture.collaborators
             [Fixture.voiceOf "a" ["en-GB"; "en"]%string "unknown";
              Fixture.voiceOf "b" ["en-US"; "en"]%string "unknown"] 0 [] None in
  let options := Synthesis.set_language Synthesis.emptyOptions (Some "en"%string) in
  exists found,
    Synthesis.result (@Synthesis.requestVoiceList C options 0%nat) = Synthesis.Ok found
    /\ Synthesis.name <$> Synthesis.bestMatchingVoice found = Some "b"%string.
Proof.
  intros C options.
  destruct (@requestVoiceList_prefers_long_form C options
              [Fixture.voiceOf "a" ["en-GB"; "en"]%string "unknown";
               Fixture.voiceOf "b" ["en-US"; "en"]%string "unknown"] 0%nat 0%nat "en-US")
    as (found & Hfound & _ & _ & Hbest); [reflexivity|reflexivity|discriminate|].
  exists found. split; [exact Hfound|]. by apply Hbest.
Defined.

(** C1 as stated fails.  The request language is "en"; no voice declares
    "en"; the candidate b declares the long form "en-US" and the earlier
    candidate a does not.  The filter by exact membership leaves no voice
    (there is no hyphen in "en", hence no second filter), and no voice is
    selected. *)
Lemma short_code_without_exact_voice_selects_nothing :
  let a := Fixture.voiceOf "a" ["en-GB"]%string "unknown" in
  let b := Fixture.voiceOf "b" ["en-US"]%string "unknown" in
  let C := Fixture.collaborators [a; b] 0 [] None in
  let options := Synthesis.set_language Synthesis.emptyOptions (Some "en"%string) in
  @Synthesis.shortLanguageCodeToLong C "en" = Some "en-US"%string
  /\ Synthesis.result (@Synthesis.requestVoiceList C options 0%nat)
     = Synthesis.Ok {| Synthesis.voiceList := []; Synthesis.bestMatchingVoice := None |}.
Proof. split; reflexivity. Qed.

(** ** The choice of the engine *)

Section EngineSelectionFacts.
Import Js Synthesis.
Context `{Collaborators}.
Local Open Scope string_scope.

(** The inner loop of [getAllLangCodesFromVoiceList] keeps the set and the
    list equal as sets, and adds the codes it reads. *)
Lemma addLangCodes_spec (langCodes : list string) :
  forall (languageCodes : gset string) (langList : list string),
    (forall code, code ∈ languageCodes <-> code ∈ langList) ->
    let state := addLangCodes langCodes (languageCodes, langList) in
    (forall code, code ∈ state.1 <-> code ∈ state.2)
    /\ (forall code, code ∈ state.2 <-> code ∈ langList \/ code ∈ langCodes).
Proof.
  induction langCodes as [|langCode langCodes IH]; intros languageCodes langList Hinv.
  - simpl. split; [done|]. intros code. rewrite elem_of_nil. tauto.
  - cbn [addLangCodes]. case_bool_decide as Hseen.
    + destruct (IH languageCodes langList Hinv) as [Hset Hlist].
      split; [done|]. intros code. rewrite Hlist, elem_of_cons.
      split; [tauto|]. intros [?|[->|?]]; [tauto| |tauto].
      left. by apply Hinv.
    + destruct (IH ({[langCode]} ∪ languageCodes) (langList ++ [langCode])%list) as [Hset Hlist].
      { intros code. rewrite elem_of_union, elem_of_singleton, elem_of_app, list_elem_of_singleton.
        rewrite Hinv. tauto. }
      split; [done|]. intros code.
      rewrite Hlist, elem_of_app, list_elem_of_singleton, elem_of_cons. tauto.
Qed.

Lemma fold_addLangCodes_spec (voices : list SynthesisVoice) :
  forall (languageCodes : gset string) (langList : list string),
    (forall code, code ∈ languageCodes <-> code ∈ langList) ->
    forall code,
      code ∈ (fold_left (fun state voice => addLangCodes (languages voice) state) voices
                        (languageCodes, langList)).2
      <-> code ∈ langList \/ Exists (fun voice => code ∈ languages voice) voices.
Proof.
  induction voices as [|voice voices IH]; intros languageCodes langList Hinv code.
  - simpl. rewrite Exists_nil. tauto.
  - cbn [fold_left].
    destruct (addLangCodes_spec (languages voice) languageCodes langList Hinv) as [Hset Hlist].
    destruct (addLangCodes (languages voice) (languageCodes, langList)) as [set' list'].
    rewrite (IH set' list' Hset), Exists_cons. simpl in Hlist. rewrite Hlist. tauto.
Qed.

(** A code is among [getAllLangCodesFromVoiceList] exactly when a voice of
    the list declares it. *)
Lemma elem_of_getAllLangCodesFromVoiceList (voices : list SynthesisVoice) (code : string) :
  code ∈ getAllLangCodesFromVoiceList voices
  <-> Exists (fun voice => code ∈ languages voice) voices.
Proof.
  unfold getAllLangCodesFromVoiceList.
  rewrite fold_addLangCodes_spec by (intros ?; rewrite elem_of_empty, elem_of_nil; tauto).
  rewrite elem_of_nil. tauto.
Qed.

(** The engines are probed in the order vits, flite, pico; espeak is left. *)
Lemma selectBestOfflineEngineForLanguage_spec (language : string) :
  let declared voices :=
    Exists (fun voice => normalizeLanguageCode language ∈ languages voice) voices in
  selectBestOfflineEngineForLanguage language
  = if bool_decide (Exists (fun voice => normalizeLanguageCode language ∈ languages voice)
                           VitsTTS_voiceList) then vits
    else if bool_decide (Exists (fun voice => normalizeLanguageCode language ∈ languages voice)
                                FliteTTS_voiceList) then flite
    else if bool_decide (Exists (fun voice => normalizeLanguageCode language ∈ languages voice)
                                SvoxPicoTTS_voiceList) then pico
    else espeak.
Proof.
  intros _. unfold selectBestOfflineEngineForLanguage.
  rewrite !(bool_decide_ext _ _ (elem_of_getAllLangCodesFromVoiceList _ _)).
  reflexivity.
Qed.

Lemma trace_bind {A B} (m : M A) (k : A -> M B) (w : World) :
  trace (bind m k w)
  = (trace (m w) ++ match result (m w) with
                    | Ok a => trace (k a (final (m w)))
                    | Err _ => []
                    end)%list.
Proof. unfold bind. destruct (result (m w)); simpl; [done|by rewrite app_nil_r]. Qed.

Lemma result_bind {A B} (m : M A) (k : A -> M B) (w : World) :
  result (bind m k w)
  = match result (m w) with
    | Ok a => result (k a (final (m w)))
    | Err e => Err e
    end.
Proof. unfold bind. by destruct (result (m w)). Qed.

Lemma requestVoiceList_trace (options : SynthesisOptions) (w : World) :
  trace (requestVoiceList options w)
  = [LoadVoiceList (engine (extendDeep defaultVoiceListRequestOptions options))].
Proof.
  destruct (loadVoiceList (extendDeep defaultVoiceListRequestOptions options) w)
    as [loaded w'] eqn:Hload.
  by rewrite (requestVoiceList_run _ _ _ _ Hload).
Qed.

Lemma selectVoice_trace (options : SynthesisOptions) (w : World) :
  trace (selectVoice options w)
  = [LoadVoiceList (engine (extendDeep defaultVoiceListRequestOptions options))].
Proof.
  unfold selectVoice. rewrite trace_bind, requestVoiceList_trace.
  destruct (result (requestVoiceList options w)) as [found|e]; [|done].
  by destruct (bestMatchingVoice found).
Qed.

End EngineSelectionFacts.

(** ** Runs of the pipeline *)

Section RunFacts.
Import Js Synthesis.
Context `{Collaborators}.
Local Open Scope string_scope.

Lemma run_eta {A} (r : Run A) :
  {| result := result r; final := final r; trace := trace r |} = r.
Proof. by destruct r. Qed.

Lemma bind_ret_l {A B} (a : A) (k : A -> M B) (w : World) : bind (ret a) k w = k a w.
Proof. unfold bind, ret. simpl. apply run_eta. Qed.

Lemma bind_throw_l {A B} (message : string) (k : A -> M B) (w : World) :
  bind (throw message) k w = throw message w.
Proof. reflexivity. Qed.

Lemma bind_assoc {A B C} (m : M A) (k : A -> M B) (k' : B -> M C) (w : World) :
  bind (bind m k) k' w = bind m (fun a => bind (k a) k') w.
Proof.
  unfold bind. destruct (result (m w)) as [a|e]; simpl; [|done].
  destruct (result (k a (final (m w)))); simpl; [|done].
  by rewrite app_assoc.
Qed.

(** The fields the resolution of the options reads are the caller's: the
    defaults leave them unset. *)
Lemma extendDeep_defaults_fields (options : SynthesisOptions) :
  engine (extendDeep defaultSynthesisOptions options) = engine options
  /\ language (extendDeep defaultSynthesisOptions options) = language options
  /\ voice (extendDeep defaultSynthesisOptions options) = voice options.
Proof. simpl. by rewrite !leaf_None_l. Qed.

End RunFacts.

Section ResolveOptionsFacts.
Import Js Synthesis.
Context `{Collaborators}.
Local Open Scope string_scope.

(** A voice without engine: the resolution throws at once. *)
Lemma resolveOptions_voice_without_engine (segments : list string) (options : SynthesisOptions)
    (w : World) :
  truthyEngine (engine options) = false ->
  truthyString (voice options) = true ->
  resolveOptions segments options w
  = throw ("Voice '" +:+ default "" (voice options)
           +:+ "' was specified but no engine was specified.") w.
Proof.
  intros Hengine Hvoice. unfold resolveOptions, detectLanguageIfNeeded, selectEngineIfNeeded.
  destruct (extendDeep_defaults_fields options) as (He & Hl & Hv).
  rewrite Hl, Hv, Hvoice, andb_false_r.
  rewrite bind_ret_l, He, Hv, Hvoice, Hengine. cbn [negb].
  by rewrite bind_throw_l.
Qed.

(** Neither engine nor voice, a language given: the engine is chosen from
    it, and the voice list is requested for that engine. *)
Lemma resolveOptions_trace_language_given (segments : list string) (options : SynthesisOptions)
    (w : World) (given : string) :
  truthyEngine (engine options) = false ->
  truthyString (voice options) = false ->
  truthyString (language options) = true ->
  language options = Some given ->
  trace (resolveOptions segments options w)
  = [LoadVoiceList (Some (selectBestOfflineEngineForLanguage given))].
Proof.
  intros Hengine Hvoice Htruthy Hgiven.
  unfold resolveOptions, detectLanguageIfNeeded, selectEngineIfNeeded.
  destruct (extendDeep_defaults_fields options) as (He & Hl & Hv).
  rewrite Hl, Hv, Hvoice, Htruthy. cbn [negb andb].
  rewrite bind_ret_l, He, Hv, Hl, Hvoice, Hengine, Hgiven. cbn [negb default from_option id].
  rewrite bind_ret_l, selectVoice_trace. reflexivity.
Qed.

(** Neither engine nor voice nor language: the language is detected
    first. *)
Lemma resolveOptions_trace_language_detected (segments : list string)
    (options : SynthesisOptions) (w w1 : World) (detected : string) :
  truthyEngine (engine options) = false ->
  truthyString (voice options) = false ->
  truthyString (language options) = false ->
  detectTextLanguage (join lineFeed segments) w = (Ok detected, w1) ->
  trace (resolveOptions segments options w)
  = [DetectTextLanguage (join lineFeed segments);
     LoadVoiceList (Some (selectBestOfflineEngineForLanguage detected))].
Proof.
  intros Hengine Hvoice Hfalsy Hdetect.
  unfold resolveOptions, detectLanguageIfNeeded, selectEngineIfNeeded.
  destruct (extendDeep_defaults_fields options) as (He & Hl & Hv).
  rewrite Hl, Hv, Hvoice, Hfalsy. cbn [negb andb].
  rewrite bind_assoc, trace_bind. unfold call at 1 2 3. rewrite Hdetect.
  cbn [result final trace]. rewrite bind_ret_l.
  cbn [engine voice language set_language].
  rewrite He, Hv, Hvoice, Hengine. cbn [negb default from_option id].
  rewrite bind_ret_l, selectVoice_trace. reflexivity.
Qed.

End ResolveOptionsFacts.

(** C4.  In a call of [synthesizeSegments] without engine: when a voice is
    named, the call fails with the error of line 44 and has called nothing
    (no language detection, no voice list, no back end); otherwise the
    engine is chosen from the language given, or detected when none is
    given: vits when a vits voice declares the normalized language, else
    flite, else pico on the same test, else espeak; and the voice list is
    requested for that engine. *)
Theorem synthesizeSegments_without_engine `{Synthesis.Collaborators}
    (segments : list string) (options : Synthesis.SynthesisOptions)
    (onSegment onSentence : option Synthesis.SynthesisSegmentEvent)
    (w : Synthesis.World) :
  Synthesis.truthyEngine (Synthesis.engine options) = false ->
  (Js.truthyString (Synthesis.voice options) = true ->
   Synthesis.synthesizeSegments segments options onSegment onSentence w
   = {| Synthesis.result :=
          Synthesis.Err
            (Synthesis.Error ("Voice '" +:+ default ""%string (Synthesis.voice options)
                              +:+ "' was specified but no engine was specified."));
        Synthesis.final := w;
        Synthesis.trace := [] |})
  /\ (Js.truthyString (Synthesis.voice options) = false ->
      forall (language : string) (detection : list Synthesis.Event),
        (if Js.truthyString (Synthesis.language options)
         then Synthesis.language options = Some language /\ detection = []
         else exists w1,
             Synthesis.detectTextLanguage (Js.join Synthesis.lineFeed segments) w
             = (Synthesis.Ok language, w1)
             /\ detection
                = [Synthesis.DetectTextLanguage (Js.join Synthesis.lineFeed segments)]) ->
        let declared voices :=
          bool_decide
            (Exists (fun voice =>
                       Synthesis.normalizeLanguageCode language ∈ Synthesis.languages voice)
                    voices) in
        let chosen :=
          if declared Synthesis.VitsTTS_voiceList then Synthesis.vits
          else if declared Synthesis.FliteTTS_voiceList then Synthesis.flite
          else if declared Synthesis.SvoxPicoTTS_voiceList then Synthesis.pico
          else Synthesis.espeak in
        exists rest,
          Synthesis.trace
            (Synthesis.synthesizeSegments segments options onSegment onSentence w)
          = (detection ++ Synthesis.LoadVoiceList (Some chosen) :: rest)%list).
Proof.
  intros Hengine. split.
  - intros Hvoice. unfold Synthesis.synthesizeSegments, Synthesis.bind.
    by rewrite resolveOptions_voice_without_engine.
  - intros Hvoice language detection Hlang declared chosen.
    unfold Synthesis.synthesizeSegments. rewrite trace_bind.
    assert (chosen = Synthesis.selectBestOfflineEngineForLanguage language) as ->
      by (by rewrite selectBestOfflineEngineForLanguage_spec).
    destruct (Js.truthyString (Synthesis.language options)) eqn:Htruthy.
    + destruct Hlang as [Hlang ->].
      rewrite (resolveOptions_trace_language_given _ _ _ language) by done.
      simpl. eauto.
    + destruct Hlang as (w1 & Hdetect & ->).
      rewrite (resolveOptions_trace_language_detected _ _ _ w1 language) by done.
      simpl. eauto.
Qed.

(** Without engine: the voice "amy" named makes the call fail; the
    language "de" given selects pico, the one engine of the example whose
    voices declare it. *)
Lemma synthesizeSegments_without_engine_witness :
  let C := Fixture.collaborators [Fixture.voiceOf "v" ["de-DE"; "de"]%string "unknown"]
                                 9 [] None in
  Synthesis.result
    (@Synthesis.synthesizeSegments C ["Hallo."]%string
       (Synthesis.set_voice Synthesis.emptyOptions (Some "amy"%string)) None None 0%nat)
  = Synthesis.Err
      (Synthesis.Error "Voice 'amy' was specified but no engine was specified.")
  /\ exists rest,
      Synthesis.trace
        (@Synthesis.synthesizeSegments C ["Hallo."]%string
           (Synthesis.set_language Synthesis.emptyOptions (Some "de"%string)) None None 0%nat)
      = Synthesis.LoadVoiceList (Some Synthesis.pico) :: rest.
Proof.
  intros C. split.
  - rewrite (proj1 (@synthesizeSegments_without_engine C ["Hallo."]%string
               (Synthesis.set_voice Synthesis.emptyOptions (Some "amy"%string)) None None
               0%nat eq_refl) eq_refl).
    reflexivity.
  - apply (proj2 (@synthesizeSegments_without_engine C ["Hallo."]%string
               (Synthesis.set_language Synthesis.emptyOptions (Some "de"%string)) None None
               0%nat eq_refl) eq_refl "de"%string []).
    split; reflexivity.
Defined.

(** ** The SSML parameter conversions *)

(** *** Rounding to a double

    What the operations of [SpecFloat] compute on normal doubles: the
    shifts keep the position of the exact result, the rounding moves to a
    neighbour on the grid of its exponent, and the result is exact when
    the exact result is a double. *)

Section DoubleFacts.
Import Js.Double.
Local Open Scope Z_scope.





Lemma pow2_lt a b : a < b -> (pow2 a < pow2 b)%Q.
Proof. intros. by apply Qpower_lt_compat_l. Qed.


Lemma pow2_le_inv a b : (pow2 a <= pow2 b)%Q -> a <= b.
Proof.
  intros Hle. destruct (Z_le_gt_dec a b) as [|Hgt]; [done|].
  apply Z.gt_lt, pow2_lt in Hgt. lra.
Qed.


































End DoubleFacts.

(** *** The digits the conversions print *)

Section ConversionFacts.
Import Js.Double.
Context `{Synthesis.Collaborators}.
Local Open Scope Z_scope.

















End ConversionFacts.

Section RunPropertyFacts.
Import Js Synthesis.
Context `{Collaborators}.
Local Open Scope string_scope.

Lemma AllEvents_ret {A} (P : Event -> Prop) (a : A) : AllEvents P (ret a).
Proof. intros w. constructor. Qed.

Lemma AllEvents_throw {A} (P : Event -> Prop) (message : string) :
  AllEvents P (throw (A := A) message).
Proof. intros w. constructor. Qed.

Lemma AllEvents_call {A} (P : Event -> Prop) (ev : Event) (f : World -> Result A * World) :
  P ev -> AllEvents P (call ev f).
Proof. intros Hev w. unfold call. destruct (f w). simpl. by repeat constructor. Qed.

Lemma AllEvents_bind {A B} (P : Event -> Prop) (m : M A) (k : A -> M B) :
  AllEvents P m -> (forall a, AllEvents P (k a)) -> AllEvents P (bind m k).
Proof.
  intros Hm Hk w. rewrite trace_bind. apply Forall_app. split; [apply Hm|].
  destruct (result (m w)); [apply Hk|constructor].
Qed.

Lemma AllEvents_mono {A} (P Q : Event -> Prop) (m : M A) :
  (forall ev, P ev -> Q ev) -> AllEvents P m -> AllEvents Q m.
Proof. intros HPQ Hm w. eapply Forall_impl; [apply Hm|done]. Qed.

(** A run of [bind] that returns: both parts returned, and the trace is the
    two traces in order. *)
Lemma bind_Ok_inv {A B} (m : M A) (k : A -> M B) (w : World) (b : B) :
  result (bind m k w) = Ok b ->
  exists a, result (m w) = Ok a
            /\ result (k a (final (m w))) = Ok b
            /\ trace (bind m k w) = (trace (m w) ++ trace (k a (final (m w))))%list
            /\ final (bind m k w) = final (k a (final (m w))).
Proof.
  unfold bind. destruct (result (m w)) as [a|e] eqn:Hm; simpl; [|done].
  intros Hk. by exists a.
Qed.

Lemma Returns_ret {A} (Q : A -> Prop) (a : A) : Q a -> Returns Q (ret a).
Proof. intros Ha w a' [= <-]. done. Qed.

Lemma Returns_throw {A} (Q : A -> Prop) (message : string) : Returns Q (throw message).
Proof. intros w a [=]. Qed.

Lemma Returns_bind {A B} (Q : A -> Prop) (R : B -> Prop) (m : M A) (k : A -> M B) :
  Returns Q m -> (forall a, Q a -> Returns R (k a)) -> Returns R (bind m k).
Proof.
  intros Hm Hk w b (a & Ha & Hb & _)%bind_Ok_inv. eapply Hk; [by eapply Hm|done].
Qed.

Lemma Returns_True {A} (m : M A) : Returns (fun _ => True) m.
Proof. by intros w a _. Qed.

Lemma watchAll_app (state : Checkpoint) (events events' : list Event) :
  watchAll state (events ++ events')
  = match watchAll state events with
    | Some state' => watchAll state' events'
    | None => None
    end.
Proof.
  revert state. induction events as [|ev events IH]; intros state; simpl; [done|].
  destruct (watch state ev); [apply IH|done].
Qed.

End RunPropertyFacts.

(** Steps through the shape of a computation for a goal [AllEvents P m]. *)
Ltac all_events :=
  repeat first
    [ apply AllEvents_ret
    | apply AllEvents_throw
    | apply AllEvents_call; simpl; try done
    | apply AllEvents_bind; [|intros ?]
    | match goal with
      | |- Synthesis.AllEvents _ (match ?x with _ => _ end) => destruct x
      | |- Synthesis.AllEvents _ (if ?b then _ else _) => destruct b
      end
    | progress unfold Synthesis.refuseSSML, Synthesis.requireString,
        Synthesis.checkSpeakerId, Synthesis.synthesizeWith, Synthesis.channel0 ].

Section SynthesizeSegmentEvents.
Import Js Synthesis.
Context `{Collaborators}.
Local Open Scope string_scope.
Local Open Scope Qc_scope.

Lemma requestVoiceList_events (P : Event -> Prop) (options : SynthesisOptions) :
  (forall e, P (LoadVoiceList e)) -> AllEvents P (requestVoiceList options).
Proof. intros HP. unfold requestVoiceList. all_events. Qed.

(** After the [switch], no back end is called, and the event loop is not
    involved. *)
Lemma postprocess_events (P : Event -> Prop) (text : string) (options : SynthesisOptions)
    (isSSML : bool) (language : option string) (speed pitch : number) (output : EngineOutput) :
  (forall ev, isProtocolEvent ev = false -> P ev) ->
  AllEvents P (postprocess text options isSSML language speed pitch output).
Proof.
  intros HP. unfold postprocess, trimLeadingSilence, alignIfMissing, shiftTimeAndPitch.
  all_events; by apply HP.
Qed.


End SynthesizeSegmentEvents.

(** The conversions at some speeds and pitches: the doubles nearest to
    1.68, 1.15, 0.1 and 0.15 among them.  At the double nearest to 1.68 the
    product of line 836 rounds up to 68, where the same formula without
    rounding gives a number just below 68. *)
Example ssml_parameter_conversions_examples `{Synthesis.Collaborators} :
  map (fun x => Synthesis.convertSpeedScaleToSSMLValueString (Js.Double.ofNumber x))
      [Js.ratio 168 100; Js.ratio 115 100; Js.ratio 1 10; Js.ratio 3 2; Js.num 1; Js.num 10]
  = ["+68%"; "+14%"; "-900%"; "+50%"; "+0%"; "+900%"]%string
  /\ map (fun x => Synthesis.convertPitchScaleToSSMLValueString (Js.Double.ofNumber x) "male")
         [Js.ratio 15 100; Js.ratio 1 2; Js.num 1; Js.num 2]
     = ["-102Hz"; "-60Hz"; "+0Hz"; "+120Hz"]%string
  /\ Qfloor ((Js.Double.toQ (Js.Double.ofNumber (Js.ratio 168 100)) - 1) * 100) = 67%Z.
Proof. repeat split; reflexivity. Qed.



(** ** Time lines *)

Section TimelineFacts.
Import Js Synthesis.
Local Open Scope Qc_scope.

(** Induction on an entry with the hypothesis on all its children. *)
Lemma TimelineEntry_children_ind (P : TimelineEntry -> Prop) :
  (forall type text startTime endTime children,
      Forall P children -> P (MkTimelineEntry type text startTime endTime children)) ->
  forall entry, P entry.
Proof.
  intros Hstep. fix IH 1. intros [ty tx s e children]. apply Hstep.
  induction children as [|child children IHchildren]; constructor; [apply IH|apply IHchildren].
Qed.

Lemma flat_map_map {A B C} (f : A -> B) (g : B -> list C) (l : list A) :
  flat_map g (map f l) = flat_map (fun x => g (f x)) l.
Proof. induction l as [|x l IH]; simpl; [done|by rewrite IH]. Qed.

Lemma flat_map_ext_Forall {A B} (f g : A -> list B) (l : list A) :
  Forall (fun x => f x = g x) l -> flat_map f l = flat_map g l.
Proof. induction 1 as [|x l Hx _ IH]; simpl; [done|by rewrite Hx, IH]. Qed.

Lemma map_flat_map {A B C} (f : B -> C) (g : A -> list B) (l : list A) :
  map f (flat_map g l) = flat_map (fun x => map f (g x)) l.
Proof. induction l as [|x l IH]; simpl; [done|by rewrite map_app, IH]. Qed.

(** Every time stamp of a shifted entry is the time stamp plus the offset. *)
Lemma entryTimestamps_addTimeOffset (timeOffset : number) (entry : TimelineEntry) :
  entryTimestamps (addTimeOffsetToEntry timeOffset entry)
  = map (fun t => t + timeOffset) (entryTimestamps entry).
Proof.
  induction entry as [ty tx s e children IH] using TimelineEntry_children_ind.
  simpl. rewrite flat_map_map, map_flat_map. do 2 f_equal.
  by apply flat_map_ext_Forall.
Qed.

Lemma timestamps_addTimeOffset (timeline : Timeline) (timeOffset : number) :
  timestamps (addTimeOffsetToTimeline timeline timeOffset)
  = map (fun t => t + timeOffset) (timestamps timeline).
Proof.
  unfold timestamps, addTimeOffsetToTimeline. rewrite flat_map_map, map_flat_map.
  apply flat_map_ext_Forall, Forall_forall. intros entry _.
  apply entryTimestamps_addTimeOffset.
Qed.



(** Shifting and rescaling leave the texts alone. *)
Lemma entryTexts_addTimeOffset (timeOffset : number) (entry : TimelineEntry) :
  entryTexts (addTimeOffsetToEntry timeOffset entry) = entryTexts entry.
Proof.
  induction entry as [ty tx s e children IH] using TimelineEntry_children_ind.
  simpl. rewrite flat_map_map. f_equal. by apply flat_map_ext_Forall.
Qed.

Lemma texts_addTimeOffset (timeline : Timeline) (timeOffset : number) :
  texts (addTimeOffsetToTimeline timeline timeOffset) = texts timeline.
Proof.
  unfold texts, addTimeOffsetToTimeline. rewrite flat_map_map.
  apply flat_map_ext_Forall, Forall_forall. intros entry _. apply entryTexts_addTimeOffset.
Qed.

Lemma text_addTimeOffsetToEntry (timeOffset : number) (entry : TimelineEntry) :
  text (addTimeOffsetToEntry timeOffset entry) = text entry.
Proof. by destruct entry. Qed.

Lemma text_multiplyEntryByFactor (factor : number) (entry : TimelineEntry) :
  text (multiplyEntryByFactor factor entry) = text entry.
Proof. by destruct entry. Qed.




End TimelineFacts.

Section PostprocessFacts.
Import Js Synthesis.
Context `{Collaborators}.
Local Open Scope string_scope.
Local Open Scope Qc_scope.

Lemma result_ret {A} (a : A) (w : World) : result (ret a w) = Ok a.
Proof. reflexivity. Qed.

(** A run of [trimLeadingSilence] that returns. *)
Lemma trimLeadingSilence_Ok_inv (options : SynthesisOptions) (audio : RawAudio)
    (timeline : option Timeline) (w : World) (audio' : RawAudio) (timeline' : option Timeline) :
  result (trimLeadingSilence options audio timeline w) = Ok (audio', timeline') ->
  exists samples,
    head (audioChannels (downmixAndNormalize options audio)) = Some samples
    /\ audio' = setChannel0 (downmixAndNormalize options audio) (trimAudioStart samples 0 (num (-40)))
    /\ timeline'
       = (fun timeline =>
            addTimeOffsetToTimeline timeline
              (sampleCount (trimAudioStart samples 0 (num (-40))) / sampleRate audio'
               - sampleCount samples / sampleRate audio')) <$> timeline.
Proof.
  unfold trimLeadingSilence.
  intros (samples & Hsamples & Hrest & _)%bind_Ok_inv.
  unfold channel0 in Hsamples.
  destruct (audioChannels (downmixAndNormalize options audio)) as [|first others] eqn:Hchannels;
    [done|].
  injection Hsamples as ->. injection Hrest as <- <-.
  exists samples. split; [done|]. split; [done|]. by destruct timeline.
Qed.



Lemma orNumber_zero (fallback : number) : orNumber (Some 0) fallback = fallback.
Proof. unfold orNumber. by rewrite bool_decide_eq_true_2. Qed.


(** A zero factor is replaced by 1: the audio is stretched by 1 and the
    time line is left as it is. *)
Lemma shiftTimeAndPitch_zero (options : SynthesisOptions) (speed pitch : number)
    (deferSpeed deferPitch : bool) (audio : RawAudio) (timeline : Timeline) (w : World)
    (audio' : RawAudio) (timeline' : Timeline) :
  postProcessing_speed options = Some 0 ->
  result (shiftTimeAndPitch options speed pitch deferSpeed deferPitch audio timeline w)
  = Ok (audio', timeline') ->
  timeline' = timeline.
Proof.
  intros Hzero. unfold shiftTimeAndPitch. rewrite Hzero.
  rewrite (bool_decide_eq_false_2 (Some 0 = None)) by done. rewrite andb_false_r.
  rewrite (bool_decide_eq_true_2 (Some 0 <> None /\ Some 0 <> Some 1))
    by (split; [done|by intros [=]]).
  cbn [orb]. rewrite !orNumber_zero.
  intros (stretched & _ & Hret & _)%bind_Ok_inv.
  rewrite bool_decide_eq_true_2 in Hret by done. by injection Hret as _ <-.
Qed.



End PostprocessFacts.

(** C5.  When [synthesizeSegment] trims the leading silence of an audio
    that came with a time line, the time line it keeps is the given one
    with [newDuration - oldDuration] added to every time stamp, children
    included: every time stamp is decreased by the duration
    [d = oldDuration - newDuration] of the silence removed, and the texts
    are unchanged. *)
Theorem leading_silence_trim_shifts_timeline `{Synthesis.Collaborators}
    (options : Synthesis.SynthesisOptions) (audio audio' : Synthesis.RawAudio)
    (timeline : Synthesis.Timeline) (timeline' : option Synthesis.Timeline)
    (w : Synthesis.World) :
  Synthesis.result (Synthesis.trimLeadingSilence options audio (Some timeline) w)
  = Synthesis.Ok (audio', timeline') ->
  exists samples shifted,
    let trimmed := Synthesis.trimAudioStart samples 0%Qc (Js.num (-40)) in
    let oldDuration := (Synthesis.sampleCount samples / Synthesis.sampleRate audio')%Qc in
    let newDuration := (Synthesis.sampleCount trimmed / Synthesis.sampleRate audio')%Qc in
    let d := (oldDuration - newDuration)%Qc in
    head (Synthesis.audioChannels (Synthesis.downmixAndNormalize options audio)) = Some samples
    /\ head (Synthesis.audioChannels audio') = Some trimmed
    /\ timeline' = Some shifted
    /\ shifted = Synthesis.addTimeOffsetToTimeline timeline (newDuration - oldDuration)%Qc
    /\ Synthesis.timestamps shifted
       = map (fun t => (t - d)%Qc) (Synthesis.timestamps timeline)
    /\ Synthesis.texts shifted = Synthesis.texts timeline.
Proof.
  intros (samples & Hsamples & -> & ->)%trimLeadingSilence_Ok_inv.
  exists samples. eexists. split; [done|]. split; [|split; [reflexivity|split; [reflexivity|]]].
  - unfold Synthesis.setChannel0. simpl.
    by destruct (Synthesis.audioChannels (Synthesis.downmixAndNormalize options audio)).
  - split; [|apply texts_addTimeOffset].
    rewrite timestamps_addTimeOffset. apply map_ext. intros t. ring.
Qed.

(** Two samples of silence out of four, at four samples per second: the
    word at 1 to 2 seconds is moved to 1/2 to 3/2. *)
Lemma leading_silence_trim_shifts_timeline_witness :
  let C := Fixture.collaborators [] 9 [] None in
  let audio := {| Synthesis.audioChannels := [[0; 0; 1; Js.num 2]%Qc];
                  Synthesis.sampleRate := Js.num 4 |} in
  let timeline := [Synthesis.MkTimelineEntry "word" "Hi" 1%Qc (Js.num 2) []] in
  exists audio' shifted,
    Synthesis.result (@Synthesis.trimLeadingSilence C Synthesis.emptyOptions audio
                        (Some timeline) 0%nat)
    = Synthesis.Ok (audio', Some shifted)
    /\ Synthesis.timestamps shifted = [Js.ratio 1 2; Js.ratio 3 2].
Proof.
  intros C audio timeline.
  destruct (Synthesis.result (@Synthesis.trimLeadingSilence C Synthesis.emptyOptions audio
                                (Some timeline) 0%nat))
    as [[audio' timeline']|e] eqn:Hrun; [|vm_compute in Hrun; discriminate].
  destruct (@leading_silence_trim_shifts_timeline C Synthesis.emptyOptions audio audio'
              timeline timeline' 0%nat Hrun)
    as (samples & shifted & Hsamples & _ & -> & _ & Hstamps & _).
  exists audio', shifted. split; [reflexivity|].
  injection Hsamples as <-. rewrite Hstamps.
  assert (Synthesis.sampleRate audio' = Js.num 4) as ->
    by (vm_compute in Hrun; by injection Hrun as <- _).
  apply (bool_decide_unpack _). by vm_compute.
Defined.




(** ** The cancellation protocol *)

Section ProtocolFacts.
Import Js Synthesis.
Context `{Collaborators}.
Local Open Scope string_scope.

(** Calls outside the protocol leave the monitor where it is. *)
Lemma watchAll_quiet (state : Checkpoint) (events : list Event) :
  state = Idle \/ state = Armed ->
  Forall (fun ev => isProtocolEvent ev = false) events ->
  watchAll state events = Some state.
Proof.
  intros Hstate. induction 1 as [|ev events Hev _ IH]; simpl; [done|].
  assert (watch state ev = Some state) as ->; [|done].
  destruct Hstate as [-> | ->]; by destruct ev.
Qed.

(** The monitor ends [Stopped] exactly when the predicate answered true. *)
Lemma watchAll_Stopped (events : list Event) :
  forall state state',
    state <> Stopped ->
    watchAll state events = Some state' ->
    (state' = Stopped <-> In (ShouldCancelCurrentTask true) events).
Proof.
  induction events as [|ev events IH]; intros state state' Hstate Hwatch; simpl in *.
  - injection Hwatch as <-. tauto.
  - destruct (watch state ev) as [state1|] eqn:Hstep; [|done].
    assert (state1 = Stopped \/ state1 <> Stopped) as [->|Hnot]
      by (destruct state1; (by left) || (by right)).
    + assert (ev = ShouldCancelCurrentTask true) as ->.
      { destruct state, ev as [| | |[]| | | | | | | |]; simpl in Hstep; congruence. }
      destruct events as [|ev' events']; simpl in Hwatch; [|done].
      injection Hwatch as <-. tauto.
    + rewrite (IH _ _ Hnot Hwatch). split; [tauto|]. intros [->|?]; [|done].
      destruct state; simpl in Hstep; congruence.
Qed.

(** A trace that stops the monitor ends with that answer. *)
Lemma watchAll_Stopped_last (events : list Event) :
  forall state,
    state <> Stopped ->
    watchAll state events = Some Stopped ->
    last events = Some (ShouldCancelCurrentTask true).
Proof.
  induction events as [|ev events IH]; intros state Hstate Hwatch; simpl in Hwatch.
  - by injection Hwatch as ->.
  - destruct (watch state ev) as [state1|] eqn:Hstep; [|done].
    assert (state1 = Stopped \/ state1 <> Stopped) as [->|Hnot]
      by (destruct state1; (by left) || (by right)).
    + destruct events as [|ev' events']; simpl in Hwatch; [|done].
      destruct state, ev as [| | |[]| | | | | | | |]; simpl in Hstep; first [done|congruence].
    + specialize (IH _ Hnot Hwatch). destruct events as [|ev' events']; [done|].
      exact IH.
Qed.

Lemma Quiet_OneShot {A} (m : M A) : Quiet m -> OneShot m.
Proof. intros Hm w. left. apply watchAll_quiet; [tauto|apply Hm]. Qed.

Lemma Quiet_Polling {A} (m : M A) : Quiet m -> Polling m.
Proof.
  intros Hm w state Hstate. exists state. split; [|tauto].
  by apply watchAll_quiet; [|apply Hm].
Qed.

Lemma OneShot_bind_quiet_l {A B} (m : M A) (k : A -> M B) :
  Quiet m -> (forall a, OneShot (k a)) -> OneShot (bind m k).
Proof.
  intros Hm Hk w. rewrite trace_bind, watchAll_app.
  rewrite (watchAll_quiet Armed) by (tauto || apply Hm).
  destruct (result (m w)) as [a|e]; [apply Hk|simpl; tauto].
Qed.

Lemma OneShot_bind_quiet_r {A B} (m : M A) (k : A -> M B) :
  OneShot m -> (forall a, Quiet (k a)) -> OneShot (bind m k).
Proof.
  intros Hm Hk w. rewrite trace_bind, watchAll_app.
  assert (Forall (fun ev => isProtocolEvent ev = false)
                 match result (m w) with
                 | Ok a => trace (k a (final (m w)))
                 | Err _ => []
                 end) as Hquiet
    by (destruct (result (m w)); [apply Hk|constructor]).
  destruct (Hm w) as [-> | ->]; rewrite watchAll_quiet by (tauto || done); tauto.
Qed.

Lemma Polling_bind {A B} (m : M A) (k : A -> M B) :
  Polling m -> (forall a, Polling (k a)) -> Polling (bind m k).
Proof.
  intros Hm Hk w state Hstate. rewrite trace_bind, watchAll_app, result_bind.
  destruct (Hm w state Hstate) as (state1 & -> & [Hgo | [-> Hcanceled]]).
  - destruct (result (m w)) as [a|e].
    + apply Hk, Hgo.
    + exists state1. simpl. tauto.
  - rewrite Hcanceled. exists Stopped. simpl. tauto.
Qed.

Lemma Polling_ret {A} (a : A) : Polling (ret a).
Proof. apply Quiet_Polling, AllEvents_ret. Qed.

(** The checkpoint, then a run that synthesizes at most once. *)
Lemma Polling_checkpoint {A} (body : M A) :
  OneShot body -> Polling (cancellationCheckpoint ;;; body).
Proof.
  intros Hbody w state Hstate. rewrite trace_bind, watchAll_app, result_bind.
  unfold cancellationCheckpoint, bind, call. simpl.
  destruct (shouldCancelCurrentTask (yieldToEventLoop w)) eqn:Hcancel; simpl.
  - exists Stopped. destruct Hstate as [-> | ->]; simpl; tauto.
  - assert (watch state YieldToEventLoop = Some Yielded) as ->
      by (destruct Hstate as [-> | ->]; reflexivity).
    simpl. destruct (Hbody (yieldToEventLoop w)) as [-> | ->]; eauto.
Qed.

End ProtocolFacts.

(** Steps through the shape of a computation for a goal [Quiet m]. *)
Ltac quiet := unfold Synthesis.Quiet; all_events.

(** The same for a goal [OneShot m]: a quiet prefix, then at most one
    synthesis followed by quiet calls. *)
Ltac one_shot :=
  first
    [ solve [apply Quiet_OneShot; quiet]
    | apply OneShot_bind_quiet_r;
      [ intros w; right; unfold Synthesis.synthesizeWith, Synthesis.call;
        destruct (Synthesis.backendSynthesize _ w); reflexivity
      | intros ?; quiet ]
    | apply OneShot_bind_quiet_l; [quiet|intros ?; one_shot]
    | match goal with
      | |- Synthesis.OneShot (match ?x with _ => _ end) => destruct x; one_shot
      | |- Synthesis.OneShot (if ?b then _ else _) => destruct b; one_shot
      end ].

Section PipelineProtocol.
Import Js Synthesis.
Context `{Collaborators}.
Local Open Scope string_scope.

Lemma dispatch_OneShot (engine : option SynthesisEngine) (c : DispatchContext) :
  OneShot (dispatch engine c).
Proof.
  unfold dispatch. destruct engine as [[]|]; one_shot.
Qed.


Lemma requestVoiceList_Quiet (options : SynthesisOptions) : Quiet (requestVoiceList options).
Proof. by apply requestVoiceList_events. Qed.

Lemma postprocess_Quiet (text : string) (options : SynthesisOptions) (isSSML : bool)
    (language : option string) (speed pitch : number) (output : EngineOutput) :
  Quiet (postprocess text options isSSML language speed pitch output).
Proof. by apply postprocess_events. Qed.

Lemma synthesizeSegment_OneShot (text : string) (options : SynthesisOptions) :
  OneShot (synthesizeSegment text options).
Proof.
  unfold synthesizeSegment.
  apply OneShot_bind_quiet_l; [apply requestVoiceList_Quiet|intros found].
  destruct (bestMatchingVoice found) as [selectedVoice|]; [|one_shot].
  apply OneShot_bind_quiet_l; [quiet|intros voicePackagePath].
  apply OneShot_bind_quiet_r; [apply dispatch_OneShot|intros output; apply postprocess_Quiet].
Qed.

Lemma sentenceTurn_Polling (options : SynthesisOptions)
    (onSentence : option SynthesisSegmentEvent) (total sentenceIndex : nat)
    (sentence : string) (state : SentenceLoop) :
  Polling (sentenceTurn options onSentence total sentenceIndex sentence state).
Proof.
  unfold sentenceTurn. apply Polling_checkpoint.
  apply OneShot_bind_quiet_r; [apply synthesizeSegment_OneShot|].
  intros [sentenceAudio sentenceTimeline]. quiet.
Qed.

Lemma sentenceLoop_Polling (options : SynthesisOptions)
    (onSentence : option SynthesisSegmentEvent) (total : nat) (sentences : list string) :
  forall sentenceIndex state,
    Polling (sentenceLoop options onSentence total sentenceIndex sentences state).
Proof.
  induction sentences as [|sentence sentences IH]; intros sentenceIndex state; simpl.
  - apply Polling_ret.
  - apply Polling_bind; [apply sentenceTurn_Polling|intros state'; apply IH].
Qed.

Lemma segmentTurn_Polling (options : SynthesisOptions)
    (onSegment onSentence : option SynthesisSegmentEvent) (total segmentIndex : nat)
    (segment : string) (state : SegmentLoop) :
  Polling (segmentTurn options onSegment onSentence total segmentIndex segment state).
Proof.
  unfold segmentTurn. apply Polling_bind; [apply sentenceLoop_Polling|intros after].
  apply Quiet_Polling. quiet.
Qed.

Lemma segmentLoop_Polling (options : SynthesisOptions)
    (onSegment onSentence : option SynthesisSegmentEvent) (total : nat)
    (segments : list string) :
  forall segmentIndex state,
    Polling (segmentLoop options onSegment onSentence total segmentIndex segments state).
Proof.
  induction segments as [|segment segments IH]; intros segmentIndex state; simpl.
  - apply Polling_ret.
  - apply Polling_bind; [apply segmentTurn_Polling|intros state'; apply IH].
Qed.

Lemma resolveOptions_Quiet (segments : list string) (options : SynthesisOptions) :
  Quiet (resolveOptions segments options).
Proof.
  unfold resolveOptions, detectLanguageIfNeeded, selectEngineIfNeeded, selectVoice.
  unfold Quiet. apply AllEvents_bind; [all_events|intros options1].
  apply AllEvents_bind; [all_events|intros options2].
  apply AllEvents_bind; [apply requestVoiceList_Quiet|intros found]. all_events.
Qed.

Lemma synthesizeSegments_Polling (segments : list string) (options : SynthesisOptions)
    (onSegment onSentence : option SynthesisSegmentEvent) :
  Polling (synthesizeSegments segments options onSegment onSentence).
Proof.
  unfold synthesizeSegments.
  apply Polling_bind; [apply Quiet_Polling, resolveOptions_Quiet|intros options'].
  apply Polling_bind; [apply segmentLoop_Polling|intros final; apply Polling_ret].
Qed.

End PipelineProtocol.

(** C7.  The calls of any run of [synthesizeSegments] keep to the
    cancellation protocol that [watch] monitors: a back end synthesizes only
    after the pipeline has yielded to the event loop and then found the
    task not cancelled, once per such checkpoint; and when the predicate
    answers true the run makes no further call and ends with the error
    [Canceled], hence with no [SynthesizeSegmentsResult]. *)
Theorem synthesizeSegments_cancellation `{Synthesis.Collaborators}
    (segments : list string) (options : Synthesis.SynthesisOptions)
    (onSegment onSentence : option Synthesis.SynthesisSegmentEvent) (w : Synthesis.World) :
  let run := Synthesis.synthesizeSegments segments options onSegment onSentence w in
  exists state,
    Synthesis.watchAll Synthesis.Idle (Synthesis.trace run) = Some state
    /\ (In (Synthesis.ShouldCancelCurrentTask true) (Synthesis.trace run)
        <-> state = Synthesis.Stopped)
    /\ (In (Synthesis.ShouldCancelCurrentTask true) (Synthesis.trace run) ->
        Synthesis.result run = Synthesis.Err (Synthesis.Error "Canceled")
        /\ last (Synthesis.trace run) = Some (Synthesis.ShouldCancelCurrentTask true)).
Proof.
  intros run.
  destruct (synthesizeSegments_Polling segments options onSegment onSentence w Synthesis.Idle)
    as (state & Hwatch & Hend); [tauto|].
  fold run in Hwatch, Hend. exists state. split; [done|].
  assert (Synthesis.Idle <> Synthesis.Stopped) as Hidle by discriminate.
  pose proof (watchAll_Stopped _ _ _ Hidle Hwatch) as Hstopped.
  split; [tauto|]. intros Hin. apply Hstopped in Hin. subst state.
  destruct Hend as [[?|?]|[_ Hresult]]; [done|done|]. split; [done|].
  by eapply watchAll_Stopped_last.
Qed.

(** "Hi. Yo." is two sentences; the task is cancelled at the second turn
    of the event loop, that is before the second sentence: the call fails
    with [Canceled] after one synthesis. *)
Lemma synthesizeSegments_cancellation_witness :
  let C := Fixture.collaborators [Fixture.voiceOf "v" ["en-US"; "en"]%string "unknown"] 2
             [1; 1]%Qc None in
  let options :=
    Synthesis.set_engine (Synthesis.set_language Synthesis.emptyOptions (Some "en"%string))
                         (Some Synthesis.espeak) in
  let run := @Synthesis.synthesizeSegments C ["Hi. Yo."%string] options None None 0%nat in
  Synthesis.result run = Synthesis.Err (Synthesis.Error "Canceled")
  /\ length (filter (fun ev => Synthesis.isProtocolEvent ev = true) (Synthesis.trace run))
     = 5%nat.
Proof.
  intros C options run.
  destruct (@synthesizeSegments_cancellation C ["Hi. Yo."%string] options None None 0%nat)
    as (state & _ & _ & Hcanceled).
  split.
  - apply Hcanceled. vm_compute. tauto.
  - by vm_compute.
Defined.

(** ** The word filter *)

Section WordFilterFacts.
Import Js Synthesis.
Context `{Collaborators}.
Local Open Scope string_scope.
Local Open Scope Qc_scope.

Lemma wordsOnly_keepWords (timeline : Timeline) : wordsOnly (keepWords timeline).
Proof.
  unfold wordsOnly, keepWords. apply Forall_forall. intros entry Hin.
  by apply list_elem_of_filter in Hin as [? _].
Qed.

Lemma wordsOnly_addTimeOffset (timeline : Timeline) (timeOffset : number) :
  wordsOnly timeline -> wordsOnly (addTimeOffsetToTimeline timeline timeOffset).
Proof.
  unfold wordsOnly, addTimeOffsetToTimeline. intros Hwords. apply Forall_map.
  eapply Forall_impl; [exact Hwords|]. intros entry Hentry. simpl.
  by rewrite text_addTimeOffsetToEntry.
Qed.

(** A run of [postprocess] that returns: the three steps returned in their
    order, each from the world the one before left, and the word filter was
    applied to the time line of the last. *)
Lemma postprocess_Ok_inv (text : string) (options : SynthesisOptions) (isSSML : bool)
    (language : option string) (speed pitch : number) (output : EngineOutput) (w : World)
    (audio : RawAudio) (timeline : Timeline) :
  result (postprocess text options isSSML language speed pitch output w) = Ok (audio, timeline) ->
  exists trimmedAudio given base scaled,
    let trimming := trimLeadingSilence options (engineAudio output) (engineTimeline output) w in
    let aligning :=
      alignIfMissing text options isSSML language trimmedAudio given (final trimming) in
    let shifting :=
      shiftTimeAndPitch options speed pitch (shouldPostprocessSpeed output)
                        (shouldPostprocessPitch output) trimmedAudio base (final aligning) in
    result trimming = Ok (trimmedAudio, given)
    /\ result aligning = Ok base
    /\ result shifting = Ok (audio, scaled)
    /\ timeline = keepWords scaled.
Proof.
  unfold postprocess.
  intros ([trimmedAudio given] & Htrim & Hrest & _)%bind_Ok_inv.
  apply bind_Ok_inv in Hrest as (base & Halign & Hrest & _).
  apply bind_Ok_inv in Hrest as ([shiftedAudio scaled] & Hshift & Hret & _).
  injection Hret as <- <-.
  by exists trimmedAudio, given, base, scaled.
Qed.

Lemma synthesizeSegment_wordsOnly (text : string) (options : SynthesisOptions) :
  Returns (fun synthesized => wordsOnly synthesized.2) (synthesizeSegment text options).
Proof.
  unfold synthesizeSegment.
  eapply Returns_bind; [apply Returns_True|intros found _].
  destruct (bestMatchingVoice found) as [selectedVoice|]; [|apply Returns_throw].
  eapply Returns_bind; [apply Returns_True|intros voicePackagePath _].
  eapply Returns_bind; [apply Returns_True|intros output _].
  intros w [audio timeline] (? & ? & ? & scaled & _ & _ & _ & ->)%postprocess_Ok_inv.
  apply wordsOnly_keepWords.
Qed.

Lemma sentencesOfWords_snoc (timeline children : Timeline) (text : string)
    (startTime endTime : number) :
  sentencesOfWords timeline -> wordsOnly children ->
  sentencesOfWords (timeline ++ [MkTimelineEntry "sentence" text startTime endTime children]).
Proof.
  intros Htimeline Hchildren. apply Forall_app. split; [done|].
  by repeat constructor.
Qed.

Lemma sentenceTurn_sentencesOfWords (options : SynthesisOptions)
    (onSentence : option SynthesisSegmentEvent) (total sentenceIndex : nat)
    (sentence : string) (state : SentenceLoop) :
  sentencesOfWords (segmentEntryTimeline state) ->
  Returns (fun state' => sentencesOfWords (segmentEntryTimeline state'))
          (sentenceTurn options onSentence total sentenceIndex sentence state).
Proof.
  intros Hstate. unfold sentenceTurn.
  eapply Returns_bind; [apply Returns_True|intros [] _].
  eapply Returns_bind; [apply synthesizeSegment_wordsOnly|].
  intros [sentenceAudio sentenceTimeline] Hwords. simpl in Hwords.
  eapply Returns_bind; [apply Returns_True|intros samples _].
  destruct onSentence as [callback|];
    [eapply Returns_bind; [apply Returns_True|intros [] _]|];
    apply Returns_ret; cbn [segmentEntryTimeline];
    by apply sentencesOfWords_snoc, wordsOnly_addTimeOffset.
Qed.

Lemma sentenceLoop_sentencesOfWords (options : SynthesisOptions)
    (onSentence : option SynthesisSegmentEvent) (total : nat) (sentences : list string) :
  forall sentenceIndex state,
    sentencesOfWords (segmentEntryTimeline state) ->
    Returns (fun state' => sentencesOfWords (segmentEntryTimeline state'))
            (sentenceLoop options onSentence total sentenceIndex sentences state).
Proof.
  induction sentences as [|sentence sentences IH]; intros sentenceIndex state Hstate; simpl.
  - by apply Returns_ret.
  - eapply Returns_bind; [by apply sentenceTurn_sentencesOfWords|].
    intros state' Hstate'. by apply IH.
Qed.

Lemma segmentTurn_segmentsSoFar (options : SynthesisOptions)
    (onSegment onSentence : option SynthesisSegmentEvent) (total segmentIndex : nat)
    (segment : string) (state : SegmentLoop) (done : list string) :
  segmentsSoFar done (loop_timeline state) ->
  Returns (fun state' => segmentsSoFar (done ++ [segment]) (loop_timeline state'))
          (segmentTurn options onSegment onSentence total segmentIndex segment state).
Proof.
  intros [Hsegments Htexts]. unfold segmentTurn.
  eapply Returns_bind; [apply sentenceLoop_sentencesOfWords; constructor|].
  intros after Hafter.
  destruct onSegment as [callback|];
    [eapply Returns_bind; [apply Returns_True|intros [] _]|];
    apply Returns_ret; cbn [loop_timeline]; (split;
      [ apply Forall_app; split; [done|]; by repeat constructor
      | rewrite !map_app, Htexts; reflexivity ]).
Qed.

Lemma segmentLoop_segmentsSoFar (options : SynthesisOptions)
    (onSegment onSentence : option SynthesisSegmentEvent) (total : nat)
    (segments : list string) :
  forall segmentIndex state done,
    segmentsSoFar done (loop_timeline state) ->
    Returns (fun state' => segmentsSoFar (done ++ segments) (loop_timeline state'))
            (segmentLoop options onSegment onSentence total segmentIndex segments state).
Proof.
  induction segments as [|segment segments IH]; intros segmentIndex state done Hstate; simpl.
  - rewrite app_nil_r. by apply Returns_ret.
  - eapply Returns_bind; [by apply segmentTurn_segmentsSoFar|].
    intros state' Hstate'.
    replace (done ++ segment :: segments)%list with ((done ++ [segment]) ++ segments)%list
      by (by rewrite <- app_assoc).
    by apply IH.
Qed.

End WordFilterFacts.

(** C3, as amended.  In the top-level time line of a successful
    [synthesizeSegments] call, the entries are segment entries whose texts
    are the trimmed segments, their children are sentence entries, and the
    entries directly below a sentence entry all have a text that [isWord]
    accepts.  In [synthesizeSegment] the word filter is the last step: it
    is applied to the time line that the trim of the leading silence, the
    alignment when no time line was given, and the time and pitch shifting
    have produced, in this order. *)
Theorem word_filter_is_last_and_keeps_words `{Synthesis.Collaborators} :
  (forall segments options onSegment onSentence w r,
      Synthesis.result (Synthesis.synthesizeSegments segments options onSegment onSentence w)
      = Synthesis.Ok r ->
      Synthesis.segmentsSoFar segments (Synthesis.resultTimeline r))
  /\ (forall text options isSSML language speed pitch output w audio timeline,
        Synthesis.result
          (Synthesis.postprocess text options isSSML language speed pitch output w)
        = Synthesis.Ok (audio, timeline) ->
        exists trimmedAudio given base scaled,
          let trimming :=
            Synthesis.trimLeadingSilence options (Synthesis.engineAudio output)
              (Synthesis.engineTimeline output) w in
          let aligning :=
            Synthesis.alignIfMissing text options isSSML language trimmedAudio given
              (Synthesis.final trimming) in
          let shifting :=
            Synthesis.shiftTimeAndPitch options speed pitch
              (Synthesis.shouldPostprocessSpeed output)
              (Synthesis.shouldPostprocessPitch output) trimmedAudio base
              (Synthesis.final aligning) in
          Synthesis.result trimming = Synthesis.Ok (trimmedAudio, given)
          /\ Synthesis.result aligning = Synthesis.Ok base
          /\ Synthesis.result shifting = Synthesis.Ok (audio, scaled)
          /\ timeline = Synthesis.keepWords scaled).
Proof.
  split.
  - intros segments options onSegment onSentence w r.
    unfold Synthesis.synthesizeSegments.
    intros (options' & _ & Hloop & _)%bind_Ok_inv.
    apply bind_Ok_inv in Hloop as (final & Hfinal & Hret & _).
    injection Hret as <-. cbn [Synthesis.resultTimeline Synthesis.assembleResult].
    eapply (segmentLoop_segmentsSoFar _ _ _ _ _ _ _ []) in Hfinal; [exact Hfinal|].
    by split; [constructor|].
  - intros *. apply postprocess_Ok_inv.
Qed.

(** The back end times the words "Hi" and "!": the sentence keeps "Hi". *)
Lemma word_filter_is_last_and_keeps_words_witness :
  let C := Fixture.collaborators [Fixture.voiceOf "v" ["en-US"; "en"]%string "unknown"] 9
             [1; 1; 1; 1]%Qc
             (Some [Synthesis.MkTimelineEntry "word" "Hi" 0%Qc (Js.ratio 1 2) [];
                    Synthesis.MkTimelineEntry "word" "!" (Js.ratio 1 2) 1%Qc []]) in
  let options :=
    Synthesis.set_engine (Synthesis.set_language Synthesis.emptyOptions (Some "en"%string))
                         (Some Synthesis.vits) in
  exists r,
    Synthesis.result (@Synthesis.synthesizeSegments C [" Hi! "%string] options None None 0%nat)
    = Synthesis.Ok r
    /\ @Synthesis.segmentsSoFar C [" Hi! "%string] (Synthesis.resultTimeline r)
    /\ Synthesis.texts (Synthesis.resultTimeline r) = ["Hi!"; "Hi!"; "Hi"]%string.
Proof.
  intros C options.
  destruct (Synthesis.result
              (@Synthesis.synthesizeSegments C [" Hi! "%string] options None None 0%nat))
    as [r|e] eqn:Hrun; [|vm_compute in Hrun; discriminate].
  exists r. split; [reflexivity|]. split.
  - exact (proj1 (@word_filter_is_last_and_keeps_words C) _ _ _ _ _ _ Hrun).
  - vm_compute in Hrun. by injection Hrun as <-.
Defined.

(** C3 as stated fails.  The one segment is "!": the top-level time line
    of the successful call holds a segment entry and a sentence entry whose
    text is "!", which is no word. *)
Lemma punctuation_only_segment_stays_in_timeline :
  let C := Fixture.collaborators [Fixture.voiceOf "v" ["en-US"; "en"]%string "unknown"] 9
             [1; 1; 1; 1]%Qc None in
  let options :=
    Synthesis.set_engine (Synthesis.set_language Synthesis.emptyOptions (Some "en"%string))
                         (Some Synthesis.espeak) in
  match Synthesis.result
          (@Synthesis.synthesizeSegments C ["!"%string] options None None 0%nat) with
  | Synthesis.Ok r =>
    Synthesis.texts (Synthesis.resultTimeline r) = ["!"; "!"]%string
    /\ @Synthesis.isWord C "!" = false
  | Synthesis.Err _ => False
  end.
Proof.
  intros C options.
  destruct (Synthesis.result
              (@Synthesis.synthesizeSegments C ["!"%string] options None None 0%nat))
    as [r|e] eqn:Hrun; vm_compute in Hrun; [|discriminate].
  injection Hrun as <-. split; reflexivity.
Qed.

(** ** More on the ASCII codec *)

Section CodecFacts.
Import Encodings.

Lemma windows1252_high (b : N) : (128 <= b)%N -> (128 <= windows1252 b)%N.
Proof.
  intros Hb. destruct b as [|p]; [lia|].
  do 8 (try (destruct p as [p|p|]; try (cbn; lia))).
Qed.

Lemma windows1252_below (b : N) : (windows1252 b < 128)%N <-> (b < 128)%N.
Proof.
  split; intros Hb.
  - destruct (N.lt_ge_cases b 128) as [|Hge]; [done|].
    apply windows1252_high in Hge. lia.
  - by rewrite windows1252_ascii.
Qed.

Lemma Forall_textDecode_below (bytes : list N) :
  Forall (fun c => (c < 128)%N) (textDecode bytes) <-> Forall (fun b => (b < 128)%N) bytes.
Proof.
  unfold textDecode. rewrite Forall_fmap. apply Forall_iff. intros b. apply windows1252_below.
Qed.

Lemma encodeAscii_ascii (s : JsString) :
  Forall (fun c => (c < 128)%N) s -> encodeAscii s = Normal s.
Proof.
  intros Hs. unfold encodeAscii.
  rewrite encodeAsciiFrom_ascii; [done|lia|by unfold newUint8Array; rewrite length_replicate|done].
Qed.

Lemma encodeAscii_throws (s : JsString) :
  throws (encodeAscii s) <-> Exists (fun c => (128 <= c)%N) s.
Proof. unfold encodeAscii. by rewrite encodeAsciiFrom_throws by lia. Qed.

Lemma not_Exists_high (s : list N) :
  ~ Exists (fun c => (128 <= c)%N) s <-> Forall (fun c => (c < 128)%N) s.
Proof.
  rewrite <- Forall_Exists_neg. apply Forall_iff. intros c. lia.
Qed.

(** The loop of [encodeAscii] stops at the first character that is 128 or
    more, with the message that names it. *)
Lemma encodeAsciiFrom_first_offender (s : JsString) (c : N) (after : JsString) :
  forall remaining i buffer before,
    (i + remaining = length s)%nat ->
    drop i s = before ++ c :: after ->
    Forall (fun c => (c < 128)%N) before -> (128 <= c)%N ->
    encodeAsciiFrom s remaining i buffer
    = Throw (lit "Character '" ++ [c] ++ lit "' (code: " ++ showN c
             ++ lit ") can't be encoded as a standard ASCII character").
Proof.
  induction remaining as [|remaining IH]; intros i buffer before Hi Hdrop Hbefore Hc.
  - rewrite drop_ge in Hdrop by lia. by destruct before.
  - cbn [encodeAsciiFrom]. destruct (lookup_lt_is_Some_2 s i ltac:(lia)) as [c' Hc'].
    rewrite Hc'. rewrite (drop_S _ _ _ Hc') in Hdrop.
    destruct before as [|b before]; simplify_eq/=.
    + destruct (N.leb_spec 128 c) as [_|?]; [done|lia].
    + apply Forall_cons in Hbefore as [Hb Hbefore].
      destruct (N.leb_spec 128 b) as [?|_]; [lia|].
      by apply (IH _ _ before); [lia|..].
Qed.

End CodecFacts.

(** X1.  Encoding what [decodeAscii] decoded gives the bytes back exactly
    when every byte is below 128; it throws exactly when some byte is 128 or
    more (such a byte decodes to a character code of 128 or more). *)
Theorem decodeAscii_then_encodeAscii (buffer : list N) :
  (Encodings.encodeAscii (Encodings.decodeAscii buffer) = Encodings.Normal buffer
   <-> Forall (fun b => (b < 128)%N) buffer)
  /\ (Encodings.throws (Encodings.encodeAscii (Encodings.decodeAscii buffer))
      <-> Exists (fun b => (128 <= b)%N) buffer).
Proof.
  rewrite decodeAscii_spec. split.
  - split.
    + intros Hok. apply Forall_textDecode_below, not_Exists_high.
      intros Hthrows%encodeAscii_throws. by rewrite Hok in Hthrows.
    + intros Hall. rewrite textDecode_ascii by done. by apply encodeAscii_ascii.
  - rewrite encodeAscii_throws. split; intros Hex.
    + destruct (decide (Exists (fun b => (128 <= b)%N) buffer)) as [|Hno]; [done|].
      apply not_Exists_high, (proj2 (Forall_textDecode_below _)), not_Exists_high in Hno.
      contradiction.
    + destruct (decide (Exists (fun c => (128 <= c)%N) (Encodings.textDecode buffer)))
        as [|Hno]; [done|].
      apply not_Exists_high, (proj1 (Forall_textDecode_below _)), not_Exists_high in Hno.
      contradiction.
Qed.

(** X2.  [encodeAscii] returns a buffer exactly on the strings whose
    character codes are all below 128, and the buffer then holds the
    character codes themselves, one byte for each character. *)
Theorem encodeAscii_returns_the_character_codes (s : Encodings.JsString) (buffer : list N) :
  Encodings.encodeAscii s = Encodings.Normal buffer
  <-> buffer = s /\ Forall (fun c => (c < 128)%N) s.
Proof.
  split.
  - intros Hok.
    assert (Forall (fun c => (c < 128)%N) s) as Hall.
    { apply not_Exists_high. intros Hthrows%encodeAscii_throws. by rewrite Hok in Hthrows. }
    rewrite encodeAscii_ascii in Hok by done. by simplify_eq.
  - intros [-> Hall]. by apply encodeAscii_ascii.
Qed.

(** X3.  The error of [encodeAscii] names the first character whose code is
    128 or more, and that code. *)
Theorem encodeAscii_names_first_offender (before after : Encodings.JsString) (c : N) :
  Forall (fun c => (c < 128)%N) before -> (128 <= c)%N ->
  Encodings.encodeAscii (before ++ c :: after)
  = Encodings.Throw
      (Encodings.lit "Character '" ++ [c] ++ Encodings.lit "' (code: " ++ Encodings.showN c
       ++ Encodings.lit ") can't be encoded as a standard ASCII character").
Proof.
  intros Hbefore Hc. unfold Encodings.encodeAscii.
  by apply (encodeAsciiFrom_first_offender _ _ after _ _ _ before); [lia|..].
Qed.

Lemma encodeAscii_names_first_offender_witness :
  Encodings.encodeAscii (Encodings.lit "caf" ++ 233%N :: Encodings.lit "s")
  = Encodings.Throw
      (Encodings.lit "Character '" ++ [233%N] ++ Encodings.lit "' (code: 233"
       ++ Encodings.lit ") can't be encoded as a standard ASCII character").
Proof.
  apply (encodeAscii_names_first_offender (Encodings.lit "caf") (Encodings.lit "s") 233).
  - repeat constructor.
  - lia.
Defined.

(** X4.  [decodeAscii] decodes byte by byte, whatever the chunks: the result
    has one code unit for each byte, the windows-1252 code unit of that
    byte, so that decoding a concatenation is concatenating the decodings. *)
Theorem decodeAscii_bytewise (a b : list N) :
  length (Encodings.decodeAscii a) = length a
  /\ (forall i, Encodings.decodeAscii a !! i = Encodings.windows1252 <$> a !! i)
  /\ Encodings.decodeAscii (a ++ b) = Encodings.decodeAscii a ++ Encodings.decodeAscii b.
Proof.
  rewrite !decodeAscii_spec. unfold Encodings.textDecode.
  split; [by rewrite length_map|]. split; [intros i; apply list_lookup_fmap|apply map_app].
Qed.

(** X5.  A [ChunkedAsciiDecoder] fed chunk after chunk holds the decoding of
    the concatenated chunks: cutting a buffer into chunks, of any sizes,
    changes nothing. *)
Theorem chunked_decoder_streams (chunks : list (list N)) :
  Encodings.toString (fold_left Encodings.writeChunk chunks Encodings.newChunkedAsciiDecoder)
  = Encodings.decodeAscii (concat chunks).
Proof.
  rewrite decodeAscii_spec. unfold Encodings.toString.
  change (Encodings.textDecode (concat chunks))
    with (Encodings.str Encodings.newChunkedAsciiDecoder ++ Encodings.textDecode (concat chunks)).
  generalize Encodings.newChunkedAsciiDecoder.
  induction chunks as [|chunk chunks IH]; intros decoder; simpl.
  - by rewrite app_nil_r.
  - rewrite IH. unfold Encodings.writeChunk; cbn [Encodings.str].
    by rewrite textDecode_app, app_assoc.
Qed.

(** ** Requests of the transport client *)

Section RequestFacts.
Import Transport.

Lemma keys_setProperty (key : string) (value : JsValue) (props : list (string * JsValue)) :
  (setProperty key value props).*1
  = if bool_decide (key ∈ props.*1) then props.*1 else props.*1 ++ [key].
Proof.
  induction props as [|[k v] props IH]; [done|]. cbn [setProperty fmap list_fmap fst].
  destruct (decide (k = key)) as [->|Hne].
  - by rewrite bool_decide_eq_true_2 by set_solver.
  - cbn [fmap list_fmap fst]. fold (@fmap list _ _ _ (@fst string JsValue)).
    rewrite IH. case_bool_decide as Hin.
    + by rewrite bool_decide_eq_true_2 by set_solver.
    + by rewrite bool_decide_eq_false_2 by set_solver.
Qed.

Lemma NoDup_setProperty (key : string) (value : JsValue) (props : list (string * JsValue)) :
  NoDup props.*1 -> NoDup (setProperty key value props).*1.
Proof.
  intros Hnodup. rewrite keys_setProperty. case_bool_decide as Hin; [done|].
  apply NoDup_app. split; [done|]. split; [|apply NoDup_singleton].
  intros k Hk ->%list_elem_of_singleton. done.
Qed.

Lemma lastBinding_None (key : string) (props : list (string * JsValue)) :
  key ∉ props.*1 -> lastBinding key props = None.
Proof.
  induction props as [|[k v] props IH]; [done|]. intros Hnotin.
  cbn [lastBinding]. rewrite IH by set_solver.
  destruct (decide (k = key)) as [->|]; [set_solver|done].
Qed.

Lemma lastBinding_setProperty (key k : string) (value : JsValue)
    (props : list (string * JsValue)) :
  NoDup props.*1 ->
  lastBinding k (setProperty key value props)
  = if decide (k = key) then Some value else lastBinding k props.
Proof.
  induction props as [|[k' v'] props IH]; intros Hnodup.
  - cbn. destruct (decide (key = k)), (decide (k = key)); by simplify_eq.
  - apply NoDup_cons in Hnodup as [Hnotin Hnodup]. cbn [setProperty].
    destruct (decide (k' = key)) as [->|Hne].
    + cbn [lastBinding]. destruct (decide (k = key)) as [->|Hk].
      * rewrite lastBinding_None by done. by rewrite decide_True.
      * destruct (lastBinding k props); [done|]. by rewrite !decide_False.
    + cbn [lastBinding]. rewrite IH by done.
      destruct (decide (k = key)) as [->|Hk]; [done|].
      done.
Qed.

Lemma lastBinding_fold_setProperty (k : string) (request object : list (string * JsValue)) :
  NoDup object.*1 ->
  lastBinding k (fold_left (fun object property => setProperty property.1 property.2 object)
                           request object)
  = match lastBinding k request with
    | Some value => Some value
    | None => lastBinding k object
    end.
Proof.
  revert object. induction request as [|[k' v'] request IH]; intros object Hnodup; [done|].
  cbn [fold_left lastBinding fst snd]. rewrite IH by by apply NoDup_setProperty.
  destruct (lastBinding k request); [done|].
  rewrite lastBinding_setProperty by done.
  destruct (decide (k = k')), (decide (k' = k)); by simplify_eq.
Qed.

Lemma lastBinding_withRequestId (k requestId : string) (request : list (string * JsValue)) :
  lastBinding k (withRequestId requestId request)
  = match lastBinding k request with
    | Some value => Some value
    | None => if decide (k = "requestId") then Some (JsStr requestId) else None
    end.
Proof.
  unfold withRequestId. rewrite lastBinding_fold_setProperty by (apply NoDup_singleton).
  destruct (lastBinding k request); [done|]. cbn.
  destruct (decide ("requestId" = k)), (decide (k = "requestId")); by simplify_eq.
Qed.

End RequestFacts.

(** X6.  A request that was sent is answered: once [sendRequest] returned,
    an incoming message that carries the identifier of the request is handed
    to the listener of the request, and to no other; the listeners
    registered under other identifiers stay as they were. *)
Theorem sendRequest_then_onMessage {Listener : Type}
    (encodeMsgPack : Transport.JsValue -> Transport.Exception + list N)
    (wsSend : list N -> Transport.Completion)
    (callListener : Listener -> Transport.JsValue -> Transport.Completion)
    (this : Transport.Client Listener) (requestId : string)
    (request : list (string * Transport.JsValue)) (onResponse : Listener)
    (props : list (string * Transport.JsValue)) :
  let outcome := Transport.sendRequest encodeMsgPack wsSend this requestId request onResponse in
  Transport.ended outcome = Transport.Returns ->
  requestId <> ""%string ->
  Transport.lastBinding "requestId" props = Some (Transport.JsStr requestId) ->
  Transport.onMessage callListener (Transport.after outcome) (Transport.JsObject props)
  = {| Transport.effects := [Transport.Invoke onResponse (Transport.JsObject props)];
       Transport.completion := callListener onResponse (Transport.JsObject props) |}
  /\ (forall other, other <> requestId ->
        Transport.responseListeners (Transport.after outcome) !! other
        = Transport.responseListeners this !! other).
Proof.
  intros outcome Hended Hid Hprops. subst outcome. unfold Transport.sendRequest in *.
  destruct (encodeMsgPack _) as [e|frame]; [done|].
  destruct (wsSend frame); [|done]. cbn [Transport.after]. split.
  - unfold Transport.onMessage, Transport.getRequestId. rewrite Hprops. cbn [default from_option]. unfold id.
    assert (Transport.truthy (Transport.JsStr requestId) = true) as ->
      by (cbn; by rewrite decide_False).
    cbn [negb].
    unfold Transport.getListener, Transport.registerListener; cbn [Transport.responseListeners].
    by rewrite lookup_insert_eq.
  - intros other Hother. unfold Transport.registerListener; cbn [Transport.responseListeners].
    by rewrite lookup_insert_ne.
Qed.

Lemma sendRequest_then_onMessage_witness :
  let encodeMsgPack := fun _ : Transport.JsValue =>
    inr [0x80%N] : Transport.Exception + list N in
  let wsSend := fun _ : list N => Transport.Returns in
  let callListener := fun (_ : nat) (_ : Transport.JsValue) => Transport.Returns in
  let this := {| Transport.responseListeners := {["0a" := 1%nat]} |} in
  let message := Transport.JsObject [("requestId", Transport.JsStr "ff");
                                     ("messageType", Transport.JsStr "VoiceListResponse")] in
  let outcome := Transport.sendRequest encodeMsgPack wsSend this "ff" [] 2%nat in
  Transport.onMessage callListener (Transport.after outcome) message
  = {| Transport.effects := [Transport.Invoke 2%nat message];
       Transport.completion := Transport.Returns |}
  /\ (forall other, other <> "ff"%string ->
        Transport.responseListeners (Transport.after outcome) !! other
        = Transport.responseListeners this !! other).
Proof.
  intros encodeMsgPack wsSend callListener this message outcome.
  apply (sendRequest_then_onMessage encodeMsgPack wsSend callListener this "ff" [] 2%nat
           [("requestId", Transport.JsStr "ff");
            ("messageType", Transport.JsStr "VoiceListResponse")]).
  - reflexivity.
  - discriminate.
  - reflexivity.
Defined.

(** X7.  The object [sendRequest] encodes and sends holds the properties of
    the request, and the generated identifier as [requestId] unless the
    request has a [requestId] of its own, which then replaces it (while the
    listener is still registered under the generated one). *)
Theorem sendRequest_sends_request_with_id {Listener : Type}
    (encodeMsgPack : Transport.JsValue -> Transport.Exception + list N)
    (wsSend : list N -> Transport.Completion)
    (this : Transport.Client Listener) (requestId : string)
    (request : list (string * Transport.JsValue)) (onResponse : Listener) :
  let outcome := Transport.sendRequest encodeMsgPack wsSend this requestId request onResponse in
  exists object,
    (forall frame, frame ∈ Transport.sent outcome ->
       encodeMsgPack (Transport.JsObject object) = inr frame
       /\ Transport.sent outcome = [frame])
    /\ Transport.lastBinding "requestId" object
       = Some (default (Transport.JsStr requestId) (Transport.lastBinding "requestId" request))
    /\ (forall key, key <> "requestId"%string ->
          Transport.lastBinding key object = Transport.lastBinding key request)
    /\ NoDup object.*1
    /\ (Transport.ended outcome = Transport.Returns ->
        Transport.responseListeners (Transport.after outcome) !! requestId = Some onResponse).
Proof.
  intros outcome. exists (Transport.withRequestId requestId request).
  split; [|split; [|split; [|split]]].
  - subst outcome. unfold Transport.sendRequest.
    destruct (encodeMsgPack _) as [e|frame0] eqn:Hencode; [by intros ? ?%elem_of_nil|].
    destruct (wsSend frame0); cbn [Transport.sent];
      by intros frame ->%list_elem_of_singleton.
  - rewrite lastBinding_withRequestId. by destruct (Transport.lastBinding _ request).
  - intros key Hkey. rewrite lastBinding_withRequestId.
    destruct (Transport.lastBinding key request); [done|]. by rewrite decide_False.
  - unfold Transport.withRequestId. generalize (NoDup_singleton "requestId"%string).
    change ["requestId"%string] with [("requestId"%string, Transport.JsStr requestId)].*1.
    generalize [("requestId"%string, Transport.JsStr requestId)].
    induction request as [|[k v] request IH]; intros object Hnodup; [done|].
    cbn [fold_left]. by apply IH, NoDup_setProperty.
  - subst outcome. unfold Transport.sendRequest.
    destruct (encodeMsgPack _) as [e|frame0]; [done|].
    destruct (wsSend frame0); [|done]. intros _.
    unfold Transport.registerListener; cbn. by rewrite lookup_insert_eq.
Qed.

Section ClientApiFacts.
Import Transport.
Context {Callback : Type}.
Variable encodeMsgPack : JsValue -> Exception + list N.
Variable wsSend : list N -> Completion.

(** A request either was sent, and its listener is registered, or it
    failed, and the promise is rejected with the client left as it was. *)
Lemma rejectOnThrow_sendRequest (this : Client (ResponseListener Callback))
    (requestId : string) (request : list (string * JsValue))
    (listener : ResponseListener Callback) :
  let outcome :=
    rejectOnThrow (sendRequest encodeMsgPack wsSend this requestId request listener) in
  (settled outcome = []
   /\ client outcome = registerListener this requestId listener
   /\ exists frame, frames outcome = [frame] /\ wsSend frame = Returns)
  \/ (exists e, settled outcome = [Reject e] /\ client outcome = this).
Proof.
  unfold rejectOnThrow, sendRequest.
  destruct (encodeMsgPack _) as [e|frame]; cbn; [right; by exists e|].
  destruct (wsSend frame) as [|e] eqn:Hsend; cbn; [left|right; by exists e].
  split; [done|]. split; [done|]. by exists frame.
Qed.

(** A binary frame that decodes to an object with the identifier of a
    registered listener reaches that listener. *)
Lemma registered_listener_receives
    (decodeMsgPack : list N -> Exception + JsValue)
    (callListener : ResponseListener Callback -> JsValue -> Completion)
    (this : Client (ResponseListener Callback)) (requestId : string)
    (listener : ResponseListener Callback) (messageData : list N)
    (props : list (string * JsValue)) :
  requestId <> ""%string ->
  decodeMsgPack messageData = inr (JsObject props) ->
  lastBinding "requestId" props = Some (JsStr requestId) ->
  onWebSocketMessage decodeMsgPack callListener
    (registerListener this requestId listener) messageData true
  = {| effects := [Invoke listener (JsObject props)];
       completion := callListener listener (JsObject props) |}.
Proof.
  intros Hid Hdecode Hprops. unfold onWebSocketMessage. cbn [negb]. rewrite Hdecode.
  unfold onMessage, getRequestId. rewrite Hprops. cbn [default from_option]. unfold id.
  assert (truthy (JsStr requestId) = true) as -> by (cbn; by rewrite decide_False).
  cbn [negb]. unfold getListener, registerListener; cbn [responseListeners].
  by rewrite lookup_insert_eq.
Qed.

End ClientApiFacts.

(** X8.  [Client.synthesizeSegments] does not throw: when the request
    cannot be sent its promise is rejected and no listener is left behind.
    Once sent, a binary frame that decodes to a message with the identifier
    of the request reaches the listener of the request, which resolves the
    promise with the whole message on a [SynthesizeSegmentsResponse], hands
    a segment or sentence event to the callback given for it, and ignores
    everything else. *)
Theorem client_synthesizeSegments_routes_responses {Callback : Type}
    (encodeMsgPack : Transport.JsValue -> Transport.Exception + list N)
    (wsSend : list N -> Transport.Completion)
    (decodeMsgPack : list N -> Transport.Exception + Transport.JsValue)
    (callListener : Transport.ResponseListener Callback -> Transport.JsValue
                    -> Transport.Completion)
    (this : Transport.Client (Transport.ResponseListener Callback))
    (requestId : string) (segments options : Transport.JsValue)
    (onSegment onSentence : option Callback) :
  let outcome :=
    Transport.synthesizeSegments encodeMsgPack wsSend this requestId segments options
      onSegment onSentence in
  let listener := Transport.SynthesizeSegmentsListener onSegment onSentence in
  (forall e, Transport.Reject e ∈ Transport.settled outcome -> Transport.client outcome = this)
  /\ (Transport.settled outcome = [] ->
      requestId <> ""%string ->
      forall messageData props messageType,
        decodeMsgPack messageData = inr (Transport.JsObject props) ->
        Transport.lastBinding "requestId" props = Some (Transport.JsStr requestId) ->
        Transport.lastBinding "messageType" props = Some (Transport.JsStr messageType) ->
        Transport.onWebSocketMessage decodeMsgPack callListener (Transport.client outcome)
          messageData true
        = {| Transport.effects := [Transport.Invoke listener (Transport.JsObject props)];
             Transport.completion := callListener listener (Transport.JsObject props) |}
        /\ Transport.onResponse listener (Transport.JsObject props)
           = Some (if bool_decide (messageType = "SynthesizeSegmentsResponse"%string) then
                     [Transport.Resolve (Transport.JsObject props)]
                   else if bool_decide (messageType = "SynthesisSegmentEvent"%string) then
                     Transport.invoke onSegment (Transport.JsObject props)
                   else if bool_decide (messageType = "SynthesisSentenceEvent"%string) then
                     Transport.invoke onSentence (Transport.JsObject props)
                   else [])).
Proof.
  intros outcome listener.
  destruct (rejectOnThrow_sendRequest encodeMsgPack wsSend this requestId
              [("messageType", Transport.JsStr "SynthesizeSegmentsRequest");
               ("segments", segments); ("options", options)] listener)
    as [(Hsettled & Hclient & _)|(e & Hsettled & Hclient)].
  - change (Transport.settled outcome = []) in Hsettled.
    change (Transport.client outcome = Transport.registerListener this requestId listener)
      in Hclient.
    split; [intros e'; rewrite Hsettled; by intros ?%elem_of_nil|].
    intros _ Hid messageData props messageType Hdecode Hprops Htype. rewrite Hclient. split.
    + by apply registered_listener_receives.
    + unfold Transport.onResponse, Transport.messageTypeOf. rewrite Htype. f_equal.
      subst listener. cbv beta iota.
      destruct onSegment, onSentence; repeat case_bool_decide; simplify_eq;
        cbn [andb Transport.invoke]; try done; exfalso;
        match goal with
        | Hnone : ~ is_Some (Some _) |- _ => apply Hnone; eauto
        | Hnone : is_Some None |- _ => by apply is_Some_None in Hnone
        end.
  - change (Transport.settled outcome = [Transport.Reject e]) in Hsettled.
    change (Transport.client outcome = this) in Hclient.
    split; [by intros _ _|]. by rewrite Hsettled.
Qed.

Lemma client_synthesizeSegments_routes_responses_witness :
  let encodeMsgPack := fun _ : Transport.JsValue =>
    inr [0x80%N] : Transport.Exception + list N in
  let wsSend := fun _ : list N => Transport.Returns in
  let props := [("requestId", Transport.JsStr "ff");
                ("messageType", Transport.JsStr "SynthesisSegmentEvent");
                ("index", Transport.JsNumber 0%Qc)] in
  let decodeMsgPack := fun _ : list N =>
    inr (Transport.JsObject props) : Transport.Exception + Transport.JsValue in
  let callListener :=
    fun (_ : Transport.ResponseListener nat) (_ : Transport.JsValue) => Transport.Returns in
  let this : Transport.Client (Transport.ResponseListener nat) :=
    {| Transport.responseListeners := ∅ |} in
  let outcome :=
    Transport.synthesizeSegments encodeMsgPack wsSend this "ff"
      (Transport.JsArray [Transport.JsStr "Hello."]) (Transport.JsObject [])
      (Some 1%nat) None in
  let listener := Transport.SynthesizeSegmentsListener (Some 1%nat) None in
  Transport.onWebSocketMessage decodeMsgPack callListener (Transport.client outcome) [0x83%N] true
  = {| Transport.effects := [Transport.Invoke listener (Transport.JsObject props)];
       Transport.completion := Transport.Returns |}
  /\ Transport.onResponse listener (Transport.JsObject props)
     = Some [Transport.CallBack 1%nat (Transport.JsObject props)].
Proof.
  intros encodeMsgPack wsSend props decodeMsgPack callListener this outcome listener.
  apply (proj2 (client_synthesizeSegments_routes_responses encodeMsgPack wsSend decodeMsgPack
                  callListener this "ff" (Transport.JsArray [Transport.JsStr "Hello."])
                  (Transport.JsObject []) (Some 1%nat) None)
           eq_refl ltac:(discriminate) [0x83%N] props "SynthesisSegmentEvent"%string
           eq_refl eq_refl eq_refl).
Defined.

(** X9.  [Client.requestVoiceList] does not throw either: a request that
    cannot be sent rejects its promise.  Once sent, only a message of type
    [VoiceListResponse] with the identifier of the request resolves the
    promise, with the whole message; any other message with that identifier
    is handed to the listener and ignored. *)
Theorem client_requestVoiceList_routes_responses {Callback : Type}
    (encodeMsgPack : Transport.JsValue -> Transport.Exception + list N)
    (wsSend : list N -> Transport.Completion)
    (decodeMsgPack : list N -> Transport.Exception + Transport.JsValue)
    (callListener : Transport.ResponseListener Callback -> Transport.JsValue
                    -> Transport.Completion)
    (this : Transport.Client (Transport.ResponseListener Callback))
    (requestId : string) (options : Transport.JsValue) :
  let outcome := Transport.requestVoiceList encodeMsgPack wsSend this requestId options in
  let listener : Transport.ResponseListener Callback := Transport.VoiceListListener in
  (forall e, Transport.Reject e ∈ Transport.settled outcome -> Transport.client outcome = this)
  /\ (Transport.settled outcome = [] ->
      requestId <> ""%string ->
      forall messageData props messageType,
        decodeMsgPack messageData = inr (Transport.JsObject props) ->
        Transport.lastBinding "requestId" props = Some (Transport.JsStr requestId) ->
        Transport.lastBinding "messageType" props = Some (Transport.JsStr messageType) ->
        Transport.onWebSocketMessage decodeMsgPack callListener (Transport.client outcome)
          messageData true
        = {| Transport.effects := [Transport.Invoke listener (Transport.JsObject props)];
             Transport.completion := callListener listener (Transport.JsObject props) |}
        /\ Transport.onResponse listener (Transport.JsObject props)
           = Some (if bool_decide (messageType = "VoiceListResponse"%string)
                   then [Transport.Resolve (Transport.JsObject props)] else [])).
Proof.
  intros outcome listener.
  destruct (rejectOnThrow_sendRequest encodeMsgPack wsSend this requestId
              [("messageType", Transport.JsStr "VoiceListRequest"); ("options", options)]
              listener)
    as [(Hsettled & Hclient & _)|(e & Hsettled & Hclient)].
  - change (Transport.settled outcome = []) in Hsettled.
    change (Transport.client outcome = Transport.registerListener this requestId listener)
      in Hclient.
    split; [intros e'; rewrite Hsettled; by intros ?%elem_of_nil|].
    intros _ Hid messageData props messageType Hdecode Hprops Htype. rewrite Hclient. split.
    + by apply registered_listener_receives.
    + unfold Transport.onResponse, Transport.messageTypeOf. by rewrite Htype.
  - change (Transport.settled outcome = [Transport.Reject e]) in Hsettled.
    change (Transport.client outcome = this) in Hclient.
    split; [by intros _ _|]. by rewrite Hsettled.
Qed.

Lemma client_requestVoiceList_routes_responses_witness :
  let encodeMsgPack := fun _ : Transport.JsValue =>
    inr [0x80%N] : Transport.Exception + list N in
  let wsSend := fun _ : list N => Transport.Returns in
  let props := [("requestId", Transport.JsStr "0a");
                ("messageType", Transport.JsStr "VoiceListResponse");
                ("voiceList", Transport.JsArray [])] in
  let decodeMsgPack := fun _ : list N =>
    inr (Transport.JsObject props) : Transport.Exception + Transport.JsValue in
  let callListener :=
    fun (_ : Transport.ResponseListener nat) (_ : Transport.JsValue) => Transport.Returns in
  let this : Transport.Client (Transport.ResponseListener nat) :=
    {| Transport.responseListeners := ∅ |} in
  let outcome :=
    Transport.requestVoiceList encodeMsgPack wsSend this "0a"
      (Transport.JsObject [("engine", Transport.JsStr "pico")]) in
  Transport.onWebSocketMessage decodeMsgPack callListener (Transport.client outcome) [0x83%N] true
  = {| Transport.effects :=
         [Transport.Invoke Transport.VoiceListListener (Transport.JsObject props)];
       Transport.completion := Transport.Returns |}
  /\ Transport.onResponse (Transport.VoiceListListener : Transport.ResponseListener nat)
       (Transport.JsObject props)
     = Some [Transport.Resolve (Transport.JsObject props)].
Proof.
  intros encodeMsgPack wsSend props decodeMsgPack callListener this outcome.
  apply (proj2 (client_requestVoiceList_routes_responses encodeMsgPack wsSend decodeMsgPack
                  callListener this "0a"
                  (Transport.JsObject [("engine", Transport.JsStr "pico")]))
           eq_refl ltac:(discriminate) [0x83%N] props "VoiceListResponse"%string
           eq_refl eq_refl eq_refl).
Defined.

(** ** Runs that fail early *)

Section FailureFacts.
Import Js Synthesis.
Context `{Collaborators}.
Local Open Scope string_scope.

Lemma FailsWithin_throw {A} (P : Event -> Prop) (message : string) :
  FailsWithin P (throw (A := A) message).
Proof. intros w. split; [by eexists|constructor]. Qed.

(** The first part fails. *)
Lemma FailsWithin_bind_l {A B} (P : Event -> Prop) (m : M A) (k : A -> M B) :
  FailsWithin P m -> FailsWithin P (bind m k).
Proof.
  intros Hm w. destruct (Hm w) as [[e He] Htrace].
  rewrite result_bind, trace_bind, He, app_nil_r. split; [by eexists|done].
Qed.

(** Whatever the first part returns, the second fails. *)
Lemma FailsWithin_bind_r {A B} (P : Event -> Prop) (m : M A) (k : A -> M B) :
  AllEvents P m -> (forall a, FailsWithin P (k a)) -> FailsWithin P (bind m k).
Proof.
  intros Hm Hk w. rewrite result_bind, trace_bind.
  destruct (result (m w)) as [a|e].
  - destruct (Hk a (final (m w))) as [Herr Htrace]. split; [done|].
    apply Forall_app. split; [apply Hm|done].
  - split; [by eexists|]. rewrite app_nil_r. apply Hm.
Qed.

Lemma FailsWithin_mono {A} (P Q : Event -> Prop) (m : M A) :
  (forall ev, P ev -> Q ev) -> FailsWithin P m -> FailsWithin Q m.
Proof.
  intros HPQ Hm w. destruct (Hm w) as [Herr Htrace]. split; [done|].
  eapply Forall_impl; [done|]. done.
Qed.

Lemma AllEvents_bind_Returns {A B} (P : Event -> Prop) (Q : A -> Prop)
    (m : M A) (k : A -> M B) :
  Returns Q m -> AllEvents P m -> (forall a, Q a -> AllEvents P (k a)) ->
  AllEvents P (bind m k).
Proof.
  intros HQ Hm Hk w. rewrite trace_bind. apply Forall_app. split; [apply Hm|].
  destruct (result (m w)) as [a|e] eqn:Hresult; [|constructor].
  by eapply Hk, HQ.
Qed.

End FailureFacts.

(** Steps through the shape of a computation for a goal [FailsWithin P m]:
    a condition the context decides is rewritten, another one is split. *)
Ltac fails_within :=
  first
    [ progress cbv beta iota zeta; fails_within
    | apply FailsWithin_throw
    | match goal with
      | Hf : ?b = false |- Synthesis.FailsWithin _ (if ?b then _ else _) => rewrite Hf
      | Ht : ?b = true |- Synthesis.FailsWithin _ (if ?b then _ else _) => rewrite Ht
      | |- Synthesis.FailsWithin _ (if ?b then _ else _) => destruct b eqn:?
      | |- Synthesis.FailsWithin _ (match ?x with _ => _ end) => destruct x eqn:?
      end; fails_within
    | apply FailsWithin_bind_l; fails_within
    | apply FailsWithin_bind_r; [solve [all_events]|intros ?; fails_within]
    | progress unfold Synthesis.requireString, Synthesis.refuseSSML; fails_within ].

Section DispatchFacts.
Import Js Synthesis.
Context `{Collaborators}.
Local Open Scope string_scope.

Lemma dispatch_refuses_ssml (P : Event -> Prop) (engine : option SynthesisEngine)
    (c : DispatchContext) :
  ctx_isSSML c = true ->
  engine ∉ [Some espeak; Some google_cloud; Some microsoft_azure; Some amazon_polly] ->
  FailsWithin P (dispatch engine c).
Proof.
  intros Hssml Hengine.
  destruct engine as [[]|]; unfold dispatch; rewrite ?Hssml;
    try (exfalso; apply Hengine;
         solve [repeat first [apply list_elem_of_here|apply list_elem_of_further]]);
    fails_within.
Qed.

(** The credentials a case of the [switch] asks for before it calls its
    back end. *)
Lemma dispatch_requires_credentials (P : Event -> Prop) (engine : option SynthesisEngine)
    (c : DispatchContext) :
  let options := ctx_options c in
  let required :=
    match engine with
    | Some coqui_server => [coquiServer_serverUrl options]
    | Some google_cloud => [googleCloud_apiKey options]
    | Some microsoft_azure =>
      [microsoftAzure_subscriptionKey options; microsoftAzure_serviceRegion options]
    | Some amazon_polly =>
      [awsPolly_region options; awsPolly_accessKeyId options;
       awsPolly_secretAccessKey options]
    | Some elevenlabs => [elevenlabs_apiKey options]
    | Some microsoft_edge => [microsoftEdge_trustedClientToken options]
    | _ => []
    end in
  Exists (fun value => truthyString value = false) required ->
  FailsWithin P (dispatch engine c).
Proof.
  intros options required Hmissing. subst options required.
  destruct engine as [[]|]; try (by apply Exists_nil in Hmissing);
    repeat (apply Exists_cons in Hmissing as [Hmissing|Hmissing]);
    try (by apply Exists_nil in Hmissing);
    unfold dispatch; fails_within.
Qed.

End DispatchFacts.

(** X10.  SSML input is synthesized by four engines only: with
    [options.ssml] set, [synthesizeSegment] fails for every engine other
    than espeak, google-cloud, microsoft-azure and amazon-polly, after
    having loaded at most the voice list and the package of the voice: no
    back end is called, nothing is aligned. *)
Theorem ssml_input_reaches_four_engines `{Synthesis.Collaborators}
    (text : string) (options : Synthesis.SynthesisOptions) :
  Synthesis.ssml options = Some true ->
  Synthesis.engine options
    ∉ [Some Synthesis.espeak; Some Synthesis.google_cloud;
       Some Synthesis.microsoft_azure; Some Synthesis.amazon_polly] ->
  Synthesis.FailsWithin (fun ev => Synthesis.isPreparation ev = true)
                        (Synthesis.synthesizeSegment text options).
Proof.
  intros Hssml Hengine. unfold Synthesis.synthesizeSegment.
  apply FailsWithin_bind_r; [by apply requestVoiceList_events|intros found].
  destruct (Synthesis.bestMatchingVoice found) as [selectedVoice|]; [|fails_within].
  apply FailsWithin_bind_r; [all_events|intros voicePackagePath].
  apply FailsWithin_bind_l, dispatch_refuses_ssml; [|done].
  cbn. by rewrite Hssml.
Qed.

Lemma ssml_input_reaches_four_engines_witness :
  let C := Fixture.collaborators [Fixture.voiceOf "v" ["en-US"; "en"]%string "unknown"] 9
             [1%Qc] None in
  let options :=
    Fixture.with_ssml
      (Synthesis.set_engine (Synthesis.set_language Synthesis.emptyOptions (Some "en"%string))
                            (Some Synthesis.vits))
      (Some true) in
  @Synthesis.FailsWithin C _ (fun ev => Synthesis.isPreparation ev = true)
                         (@Synthesis.synthesizeSegment C "<speak>Hi</speak>" options).
Proof.
  intros C options.
  apply (@ssml_input_reaches_four_engines C "<speak>Hi</speak>" options).
  - reflexivity.
  - repeat (apply not_elem_of_cons; split; [discriminate|]). apply not_elem_of_nil.
Defined.


(** X11.  No cloud back end is called without its credentials: when the
    server URL of coqui-server, the API key of google-cloud or elevenlabs,
    the subscription key or the service region of microsoft-azure, the
    region or either access key of amazon-polly, or the client token of
    microsoft-edge is missing or empty, [synthesizeSegment] fails after
    having loaded at most the voice list and the package of the voice. *)
Theorem missing_credentials_reach_no_backend `{Synthesis.Collaborators}
    (text : string) (options : Synthesis.SynthesisOptions) :
  let required :=
    match Synthesis.engine options with
    | Some Synthesis.coqui_server => [Synthesis.coquiServer_serverUrl options]
    | Some Synthesis.google_cloud => [Synthesis.googleCloud_apiKey options]
    | Some Synthesis.microsoft_azure =>
      [Synthesis.microsoftAzure_subscriptionKey options;
       Synthesis.microsoftAzure_serviceRegion options]
    | Some Synthesis.amazon_polly =>
      [Synthesis.awsPolly_region options; Synthesis.awsPolly_accessKeyId options;
       Synthesis.awsPolly_secretAccessKey options]
    | Some Synthesis.elevenlabs => [Synthesis.elevenlabs_apiKey options]
    | Some Synthesis.microsoft_edge => [Synthesis.microsoftEdge_trustedClientToken options]
    | _ => []
    end in
  Exists (fun value => Js.truthyString value = false) required ->
  Synthesis.FailsWithin (fun ev => Synthesis.isPreparation ev = true)
                        (Synthesis.synthesizeSegment text options).
Proof.
  intros required Hmissing. unfold Synthesis.synthesizeSegment.
  apply FailsWithin_bind_r; [by apply requestVoiceList_events|intros found].
  destruct (Synthesis.bestMatchingVoice found) as [selectedVoice|]; [|fails_within].
  apply FailsWithin_bind_r; [all_events|intros voicePackagePath].
  by apply FailsWithin_bind_l, dispatch_requires_credentials.
Qed.

Lemma missing_credentials_reach_no_backend_witness :
  let C := Fixture.collaborators [Fixture.voiceOf "v" ["en-US"; "en"]%string "unknown"] 9
             [1%Qc] None in
  let options :=
    Synthesis.set_engine (Synthesis.set_language Synthesis.emptyOptions (Some "en"%string))
                         (Some Synthesis.google_cloud) in
  @Synthesis.FailsWithin C _ (fun ev => Synthesis.isPreparation ev = true)
                         (@Synthesis.synthesizeSegment C "Hi" options).
Proof.
  intros C options.
  apply (@missing_credentials_reach_no_backend C "Hi" options).
  apply Exists_cons_hd. reflexivity.
Defined.

Section StringFacts.

Lemma append_assoc (a b c : string) : ((a +:+ b) +:+ c = a +:+ (b +:+ c))%string.
Proof.
  induction a as [|x a IH]; [done|].
  change (String x ((a +:+ b) +:+ c) = String x (a +:+ (b +:+ c)))%string. by rewrite IH.
Qed.

Lemma ends_with_append (a rest x : string) :
  (exists tags, rest = tags +:+ x)%string -> (exists tags, a +:+ rest = tags +:+ x)%string.
Proof. intros [tags ->]. exists (a +:+ tags)%string. symmetry. apply append_assoc. Qed.

Lemma ends_with_String (c : ascii) (rest x : string) :
  (exists tags, rest = tags +:+ x)%string -> (exists tags, String c rest = tags +:+ x)%string.
Proof. intros [tags ->]. by exists (String c tags). Qed.

End StringFacts.

(** X12.  Every request [synthesizeSegment] makes to a back end is a
    request to the back end of [options.engine], and carries the text as
    that engine's case passes it: the text as given for vits, sapi,
    msspeech, microsoft-azure, google-translate, microsoft-edge and
    streamlabs-polly; the text with simplified punctuation for flite,
    espeak, sam, coqui-server, google-cloud, amazon-polly and elevenlabs,
    and for pico, wrapped in its speed, pitch and volume tags. *)
Theorem backend_requests_follow_the_engine `{Synthesis.Collaborators}
    (text : string) (options : Synthesis.SynthesisOptions) :
  let engine := Synthesis.engine options in
  let simplifiedText := Synthesis.simplifyPunctuationCharacters text in
  Synthesis.AllEvents
    (fun ev =>
       match ev with
       | Synthesis.BackendSynthesize request =>
         match request with
         | Synthesis.VitsRequest t _ _ _ _ _ => engine = Some Synthesis.vits /\ t = text
         | Synthesis.PicoRequest preparedText _ _ =>
           engine = Some Synthesis.pico
           /\ exists tags,
               preparedText = (tags +:+ simplifiedText +:+ "</volume></pitch></speed>")%string
         | Synthesis.FliteRequest t _ _ _ => engine = Some Synthesis.flite /\ t = simplifiedText
         | Synthesis.EspeakRequest _ _ _ _ t _ =>
           engine = Some Synthesis.espeak /\ t = simplifiedText
         | Synthesis.SamRequest t _ _ _ _ => engine = Some Synthesis.sam /\ t = simplifiedText
         | Synthesis.SapiRequest t _ _ useSpeechPlatform =>
           engine = Some (if useSpeechPlatform then Synthesis.msspeech else Synthesis.sapi)
           /\ t = text
         | Synthesis.CoquiServerRequest t _ _ =>
           engine = Some Synthesis.coqui_server /\ t = simplifiedText
         | Synthesis.GoogleCloudRequest t _ _ _ _ _ _ =>
           engine = Some Synthesis.google_cloud /\ t = simplifiedText
         | Synthesis.AzureRequest t _ _ _ _ _ _ _ =>
           engine = Some Synthesis.microsoft_azure /\ t = text
         | Synthesis.PollyRequest t _ _ _ _ _ _ _ =>
           engine = Some Synthesis.amazon_polly /\ t = simplifiedText
         | Synthesis.ElevenLabsRequest t _ _ _ _ =>
           engine = Some Synthesis.elevenlabs /\ t = simplifiedText
         | Synthesis.GoogleTranslateRequest t _ _ _ _ =>
           engine = Some Synthesis.google_translate /\ t = text
         | Synthesis.EdgeRequest t _ _ _ _ => engine = Some Synthesis.microsoft_edge /\ t = text
         | Synthesis.StreamlabsPollyRequest t _ _ _ _ =>
           engine = Some Synthesis.streamlabs_polly /\ t = text
         end
       | _ => True
       end)
    (Synthesis.synthesizeSegment text options).
Proof.
  intros engine simplifiedText. subst engine simplifiedText.
  unfold Synthesis.synthesizeSegment.
  apply AllEvents_bind; [by apply requestVoiceList_events|intros found].
  destruct (Synthesis.bestMatchingVoice found) as [selectedVoice|]; [|all_events].
  apply AllEvents_bind; [all_events|intros voicePackagePath].
  apply AllEvents_bind; [|intros output; apply postprocess_events; by intros []].
  destruct (Synthesis.engine options) as [[]|]; unfold Synthesis.dispatch;
    cbv beta iota zeta;
    cbn [Synthesis.ctx_text Synthesis.ctx_simplifiedText];
    all_events; try (split; [reflexivity|]); try reflexivity.
  repeat first [by exists ""%string|apply ends_with_String|apply ends_with_append].
Qed.

(** ** The cases of the [switch] and the post-processing *)

(** Steps through the shape of a computation for a goal [Returns Q m]. *)
Ltac returns :=
  repeat first
    [ apply Returns_throw
    | apply Returns_ret; solve [done|by split]
    | eapply Returns_bind; [apply Returns_True|intros ? _]
    | match goal with
      | |- Synthesis.Returns _ (match ?x with _ => _ end) => destruct x
      | |- Synthesis.Returns _ (if ?b then _ else _) => destruct b
      end
    | progress unfold Synthesis.refuseSSML, Synthesis.requireString,
        Synthesis.checkSpeakerId, Synthesis.synthesizeWith, Synthesis.channel0 ].

Section SwitchFacts.
Import Js Synthesis.
Context `{Collaborators}.
Local Open Scope string_scope.
Local Open Scope Qc_scope.

(** The flags a case of the [switch] sets. *)
Lemma dispatch_flags (engine : option SynthesisEngine) (c : DispatchContext) :
  Returns (fun output =>
             shouldPostprocessSpeed output = postprocessesSpeed engine
             /\ shouldPostprocessPitch output = postprocessesPitch engine)
          (dispatch engine c).
Proof. destruct engine as [[]|]; unfold dispatch; cbv beta iota zeta; returns. Qed.

(** The [switch] calls back ends and the alignment of segments only. *)
Lemma dispatch_events (P : Event -> Prop) (engine : option SynthesisEngine)
    (c : DispatchContext) :
  (forall request, P (BackendSynthesize request)) ->
  (forall audio segmentTimeline, P (AlignSegments audio segmentTimeline)) ->
  AllEvents P (dispatch engine c).
Proof.
  intros Hbackend Halign.
  destruct engine as [[]|]; unfold dispatch; cbv beta iota zeta; all_events;
    first [apply Hbackend|apply Halign].
Qed.

Lemma orNumber_one_nonzero (a : option number) : orNumber a 1 <> 0.
Proof.
  unfold orNumber. destruct a as [v|]; [case_bool_decide|]; try done; by intros [=].
Qed.

(** The one call of the time and pitch shifting, and its factors. *)
Lemma shiftTimeAndPitch_events (options : SynthesisOptions) (speed pitch : number)
    (shouldPostprocessSpeed shouldPostprocessPitch : bool)
    (synthesizedAudio : RawAudio) (timeline : Timeline) :
  let timeStretchFactor :=
    orNumber (match postProcessing_speed options with
              | Some factor => Some factor
              | None => if shouldPostprocessSpeed then Some speed else None
              end) 1 in
  let pitchShiftFactor :=
    orNumber (match postProcessing_pitch options with
              | Some factor => Some factor
              | None => if shouldPostprocessPitch then Some pitch else None
              end) 1 in
  AllEvents
    (fun ev =>
       match ev with
       | StretchTimePitch method _ timeStretch pitchShift =>
         postProcessing_timePitchShiftingMethod options = Some method
         /\ (method = "sonic" \/ method = "rubberband")
         /\ timeStretch = timeStretchFactor /\ pitchShift = pitchShiftFactor
       | ev => isProtocolEvent ev = false /\ isAlignment ev = false
       end)
    (shiftTimeAndPitch options speed pitch shouldPostprocessSpeed shouldPostprocessPitch
                       synthesizedAudio timeline).
Proof.
  intros timeStretchFactor pitchShiftFactor. unfold shiftTimeAndPitch.
  assert ((if shouldPostprocessSpeed && bool_decide (postProcessing_speed options = None)
           then Some speed else postProcessing_speed options)
          = match postProcessing_speed options with
            | Some factor => Some factor
            | None => if shouldPostprocessSpeed then Some speed else None
            end) as ->
    by (destruct (postProcessing_speed options), shouldPostprocessSpeed; done).
  assert ((if shouldPostprocessPitch && bool_decide (postProcessing_pitch options = None)
           then Some pitch else postProcessing_pitch options)
          = match postProcessing_pitch options with
            | Some factor => Some factor
            | None => if shouldPostprocessPitch then Some pitch else None
            end) as ->
    by (destruct (postProcessing_pitch options), shouldPostprocessPitch; done).
  fold timeStretchFactor pitchShiftFactor.
  match goal with |- AllEvents _ (if ?b then _ else _) => destruct b end; [|all_events].
  apply AllEvents_bind; [|intros audio; all_events].
  case_bool_decide as Hsonic; [apply AllEvents_call; by eauto 6|].
  case_bool_decide as Hrubberband; [apply AllEvents_call; by eauto 6|].
  all_events.
Qed.

End SwitchFacts.

(** X13.  The speaker of a vits voice is checked before the back end is
    called.  With [options.vits.speakerId] set, a voice without
    [speakerCount] accepts the speaker 0 only, and a voice with
    [speakerCount] accepts the speakers from 0 to [speakerCount - 1];
    another speaker makes the vits case fail with the message of the
    source, before any call; an accepted one is passed to the back end. *)
Theorem vits_speaker_id_is_checked `{Synthesis.Collaborators}
    (c : Synthesis.DispatchContext) (id : Z) (language : string) (w : Synthesis.World) :
  Synthesis.ctx_isSSML c = false ->
  Synthesis.vits_speakerId (Synthesis.ctx_options c) = Some id ->
  Synthesis.ctx_language c = Some language ->
  let run := Synthesis.dispatch (Some Synthesis.vits) c w in
  match Synthesis.speakerCount (Synthesis.ctx_selectedVoice c) with
  | None =>
    if bool_decide (id = 0)%Z then
      exists lexicons,
        Synthesis.trace run
        = [Synthesis.BackendSynthesize
             (Synthesis.VitsRequest (Synthesis.ctx_text c) (Synthesis.ctx_voice c)
                (Synthesis.ctx_voicePackagePath c) (1 / Synthesis.ctx_speed c)%Qc
                (Some id) lexicons)]
    else
      run = Synthesis.throw
              "Selected VITS model has only one speaker. Speaker ID must be 0 if specified." w
  | Some count =>
    if bool_decide (0 <= id < count)%Z then
      exists lexicons,
        Synthesis.trace run
        = [Synthesis.BackendSynthesize
             (Synthesis.VitsRequest (Synthesis.ctx_text c) (Synthesis.ctx_voice c)
                (Synthesis.ctx_voicePackagePath c) (1 / Synthesis.ctx_speed c)%Qc
                (Some id) lexicons)]
    else
      run = Synthesis.throw
              ("Selected VITS model has " +:+ Js.showZ count
               +:+ " voices. Speaker ID should be in the range 0 to "
               +:+ Js.showZ (count - 1))%string w
  end.
Proof.
  intros Hssml Hid Hlanguage run. subst run.
  unfold Synthesis.dispatch. cbv beta iota zeta.
  rewrite Hssml, Hid, Hlanguage. unfold Synthesis.refuseSSML, Synthesis.checkSpeakerId.
  rewrite bind_ret_l.
  destruct (Synthesis.speakerCount (Synthesis.ctx_selectedVoice c)) as [count|].
  - destruct (bool_decide_reflect (0 <= id < count)%Z) as [Hin|Hout].
    + rewrite !bool_decide_eq_false_2 by lia. cbn [orb]. rewrite bind_ret_l.
      eexists. rewrite trace_bind. unfold Synthesis.synthesizeWith, Synthesis.call.
      destruct (Synthesis.backendSynthesize _ w) as [[response|e] w']; reflexivity.
    + assert (bool_decide (id < 0)%Z || bool_decide (count <= id)%Z = true) as ->.
      { apply orb_true_iff. rewrite !bool_decide_eq_true. lia. }
      reflexivity.
  - destruct (bool_decide_reflect (id = 0)%Z) as [->|Hne].
    + rewrite bool_decide_eq_false_2 by (intros Hne; by apply Hne). rewrite bind_ret_l.
      eexists. rewrite trace_bind. unfold Synthesis.synthesizeWith, Synthesis.call.
      destruct (Synthesis.backendSynthesize _ w) as [[response|e] w']; reflexivity.
    + rewrite bool_decide_eq_true_2 by done. reflexivity.
Qed.

Lemma vits_speaker_id_is_checked_witness :
  let C := Fixture.collaborators [] 9 [1%Qc] None in
  let c :=
    {| Synthesis.ctx_text := "Hi"; Synthesis.ctx_simplifiedText := "Hi";
       Synthesis.ctx_options := Fixture.with_vits_speakerId Synthesis.emptyOptions (Some 3%Z);
       Synthesis.ctx_selectedVoice := Fixture.voiceOf "en_US-amy" ["en-US"; "en"]%string "female";
       Synthesis.ctx_voicePackagePath := Some "vits-en_US-amy"%string;
       Synthesis.ctx_voice := "en_US-amy"; Synthesis.ctx_language := Some "en-US"%string;
       Synthesis.ctx_voiceGender := "female"; Synthesis.ctx_speed := 1%Qc;
       Synthesis.ctx_pitch := 1%Qc; Synthesis.ctx_isSSML := false |} in
  @Synthesis.dispatch C (Some Synthesis.vits) c 0%nat
  = @Synthesis.throw C _
      "Selected VITS model has only one speaker. Speaker ID must be 0 if specified." 0%nat.
Proof.
  intros C c.
  exact (@vits_speaker_id_is_checked C c 3%Z "en-US" 0%nat eq_refl eq_refl eq_refl).
Defined.

(** X14.  The time and pitch shifting is called with the method of
    [options.postProcessing] (sonic or rubberband) and with these factors:
    the time factor is [postProcessing.speed] when set, otherwise the
    clipped speed for the engines that do not render the speed themselves
    (sapi, msspeech, coqui-server, amazon-polly, elevenlabs,
    google-translate, streamlabs-polly); the pitch factor is
    [postProcessing.pitch] when set, otherwise the clipped pitch for those
    engines and for vits and flite; a factor that is unset or 0 is 1.  No
    factor handed to the shifting is ever 0. *)
Theorem stretch_factors_of_the_engines `{Synthesis.Collaborators}
    (text : string) (options : Synthesis.SynthesisOptions) :
  let engine := Synthesis.engine options in
  let speed := Synthesis.clip (default 1%Qc (Synthesis.speed options))
                              (Js.ratio 1 10) (Js.num 10) in
  let pitch := Synthesis.clip (default 1%Qc (Synthesis.pitch options))
                              (Js.ratio 1 10) (Js.num 10) in
  let timeStretchFactor :=
    Js.orNumber (match Synthesis.postProcessing_speed options with
                 | Some factor => Some factor
                 | None => if Synthesis.postprocessesSpeed engine then Some speed else None
                 end) 1%Qc in
  let pitchShiftFactor :=
    Js.orNumber (match Synthesis.postProcessing_pitch options with
                 | Some factor => Some factor
                 | None => if Synthesis.postprocessesPitch engine then Some pitch else None
                 end) 1%Qc in
  Synthesis.AllEvents
    (fun ev =>
       match ev with
       | Synthesis.StretchTimePitch method _ timeStretch pitchShift =>
         Synthesis.postProcessing_timePitchShiftingMethod options = Some method
         /\ (method = "sonic"%string \/ method = "rubberband"%string)
         /\ timeStretch = timeStretchFactor /\ pitchShift = pitchShiftFactor
         /\ timeStretch <> 0%Qc /\ pitchShift <> 0%Qc
       | _ => True
       end)
    (Synthesis.synthesizeSegment text options).
Proof.
  intros engine speed pitch timeStretchFactor pitchShiftFactor.
  unfold Synthesis.synthesizeSegment.
  apply AllEvents_bind; [by apply requestVoiceList_events|intros found].
  destruct (Synthesis.bestMatchingVoice found) as [selectedVoice|]; [|all_events].
  apply AllEvents_bind; [all_events|intros voicePackagePath].
  eapply AllEvents_bind_Returns; [apply dispatch_flags|by apply dispatch_events|].
  intros output [Hspeed Hpitch]. unfold Synthesis.postprocess.
  apply AllEvents_bind; [unfold Synthesis.trimLeadingSilence; all_events|intros [audio given]].
  apply AllEvents_bind; [unfold Synthesis.alignIfMissing; all_events|intros timeline].
  apply AllEvents_bind; [|intros [audio' timeline']; all_events].
  rewrite Hspeed, Hpitch.
  eapply AllEvents_mono; [|apply shiftTimeAndPitch_events].
  intros [] Hev; try done. destruct Hev as (Hmethod & Hvalid & -> & ->).
  repeat split; try done; apply orNumber_one_nonzero.
Qed.

Section AlignmentFacts.
Import Js Synthesis.
Context `{Collaborators}.
Local Open Scope string_scope.

Lemma trace_call {A} (ev : Event) (f : World -> Result A * World) (w : World) :
  trace (call ev f w) = [ev].
Proof. unfold call. by destruct (f w). Qed.

Lemma AllEvents_False_nil {A} (m : M A) (w : World) :
  AllEvents (fun _ => False) m -> trace (m w) = [].
Proof. intros Hm. specialize (Hm w). destruct (trace (m w)); [done|]. by inversion Hm. Qed.

(** The trim of the leading silence makes no call, and keeps a time line
    that was given. *)
Lemma trimLeadingSilence_trace (options : SynthesisOptions) (audio : RawAudio)
    (timeline : option Timeline) (w : World) :
  trace (trimLeadingSilence options audio timeline w) = [].
Proof. apply AllEvents_False_nil. unfold trimLeadingSilence. all_events. Qed.

Lemma trimLeadingSilence_keeps_timeline (options : SynthesisOptions) (audio : RawAudio)
    (timeline : option Timeline) :
  Returns (fun trimmed => trimmed.2 = None <-> timeline = None)
          (trimLeadingSilence options audio timeline).
Proof.
  intros w [audio' timeline'] (samples & _ & _ & ->)%trimLeadingSilence_Ok_inv.
  by destruct timeline.
Qed.

Lemma shiftTimeAndPitch_no_alignment (options : SynthesisOptions) (speed pitch : number)
    (shouldPostprocessSpeed shouldPostprocessPitch : bool)
    (synthesizedAudio : RawAudio) (timeline : Timeline) :
  AllEvents (fun ev => isAlignment ev = false)
            (shiftTimeAndPitch options speed pitch shouldPostprocessSpeed
                               shouldPostprocessPitch synthesizedAudio timeline).
Proof.
  eapply AllEvents_mono; [|apply shiftTimeAndPitch_events].
  intros [] Hev; try done; by destruct Hev.
Qed.

(** With a time line from the back end, nothing is aligned. *)
Lemma postprocess_with_timeline (text : string) (options : SynthesisOptions) (isSSML : bool)
    (language : option string) (speed pitch : number) (output : EngineOutput) :
  engineTimeline output <> None ->
  AllEvents (fun ev => isAlignment ev = false)
            (postprocess text options isSSML language speed pitch output).
Proof.
  intros Hgiven. unfold postprocess.
  eapply AllEvents_bind_Returns; [apply trimLeadingSilence_keeps_timeline| |].
  - unfold trimLeadingSilence. all_events.
  - intros [audio [kept|]] Hkept; [|by destruct Hgiven; apply Hkept].
    apply AllEvents_bind; [unfold alignIfMissing; all_events|intros timeline].
    apply AllEvents_bind; [apply shiftTimeAndPitch_no_alignment|].
    intros [audio' timeline']. all_events.
Qed.

(** Without one, the alignment comes first. *)
Lemma postprocess_without_timeline (text : string) (options : SynthesisOptions)
    (isSSML : bool) (language : option string) (speed pitch : number)
    (output : EngineOutput) (w : World) (audio : RawAudio) (timeline : Timeline) :
  engineTimeline output = None ->
  result (postprocess text options isSSML language speed pitch output w)
  = Ok (audio, timeline) ->
  exists trimmedAudio plainText rest,
    trace (postprocess text options isSSML language speed pitch output w)
    = ((if isSSML then [ConvertHtmlToText text] else [])
       ++ Align trimmedAudio plainText :: rest)%list
    /\ (isSSML = false -> plainText = text)
    /\ Forall (fun ev => isAlignment ev = false) rest.
Proof.
  intros Hgiven Hok. unfold postprocess in *. rewrite Hgiven in *.
  apply bind_Ok_inv in Hok as ([trimmedAudio kept] & Htrim & Hok & -> & _).
  rewrite trimLeadingSilence_trace. cbn [app].
  assert (kept = None) as ->.
  { by apply (trimLeadingSilence_keeps_timeline _ _ _ _ _ Htrim). }
  apply bind_Ok_inv in Hok as (base & Halign & Hok & -> & _).
  unfold alignIfMissing in Halign |- *.
  apply bind_Ok_inv in Halign as (plainText & Hplain & Halign & -> & _).
  rewrite trace_call.
  exists trimmedAudio, plainText. eexists.
  split; [|split].
  - rewrite <- app_assoc. f_equal. destruct isSSML; [by rewrite trace_call|done].
  - intros ->. by injection Hplain.
  - clear Hok.
    match goal with |- Forall _ (trace (?m ?w')) => generalize w' end.
    change (AllEvents (fun ev => isAlignment ev = false)
      (shifted <- shiftTimeAndPitch options speed pitch (shouldPostprocessSpeed output)
                    (shouldPostprocessPitch output) trimmedAudio base ;;
       let '(synthesizedAudio0, timeline0) := shifted in
       ret (synthesizedAudio0, keepWords timeline0))).
    apply AllEvents_bind; [apply shiftTimeAndPitch_no_alignment|].
    intros [audio' timeline']. all_events.
Qed.

End AlignmentFacts.

(** X15.  The forced alignment stands in for a missing time line, and for
    nothing else.  When the back end gave a time line, the post-processing
    neither aligns nor converts the text.  When it gave none, a
    post-processing that returns has aligned exactly once, first of all its
    calls, on the text as given, or, for SSML input, on what
    [convertHtmlToText] made of it just before. *)
Theorem alignment_stands_in_for_missing_timeline `{Synthesis.Collaborators}
    (text : string) (options : Synthesis.SynthesisOptions) (isSSML : bool)
    (language : option string) (speed pitch : Js.number)
    (output : Synthesis.EngineOutput) (w : Synthesis.World) :
  let run := Synthesis.postprocess text options isSSML language speed pitch output w in
  match Synthesis.engineTimeline output with
  | Some _ => Forall (fun ev => Synthesis.isAlignment ev = false) (Synthesis.trace run)
  | None =>
    forall audio timeline,
      Synthesis.result run = Synthesis.Ok (audio, timeline) ->
      exists trimmedAudio plainText rest,
        Synthesis.trace run
        = ((if isSSML then [Synthesis.ConvertHtmlToText text] else [])
           ++ Synthesis.Align trimmedAudio plainText :: rest)%list
        /\ (isSSML = false -> plainText = text)
        /\ Forall (fun ev => Synthesis.isAlignment ev = false) rest
  end.
Proof.
  intros run. subst run.
  destruct (Synthesis.engineTimeline output) as [given|] eqn:Hgiven.
  - apply postprocess_with_timeline. by rewrite Hgiven.
  - intros audio timeline. by apply postprocess_without_timeline.
Qed.

(** ** The shape of the result *)

Section ResultShapeFacts.
Import Js Synthesis.
Context `{Collaborators}.
Local Open Scope string_scope.
Local Open Scope Qc_scope.

Lemma Returns_mono {A} (Q R : A -> Prop) (m : M A) :
  (forall a, Q a -> R a) -> Returns Q m -> Returns R m.
Proof. intros HQR Hm w a Ha. by eapply HQR, Hm. Qed.

Lemma chained_snoc (from to : number) (entries : Timeline) (entry : TimelineEntry) :
  chained from entries to -> startTime entry = to ->
  chained from (entries ++ [entry]) (endTime entry).
Proof.
  revert from. induction entries as [|first entries IH]; intros from; simpl.
  - by intros -> ->.
  - intros [-> Hrest] Hstart. split; [done|]. by apply IH.
Qed.

(** A segment has at least one sentence. *)
Lemma sentencesOf_nonempty (options : SynthesisOptions) (segmentText : string) :
  sentencesOf options segmentText <> [].
Proof.
  unfold sentencesOf.
  destruct ((default false (splitToSentences options)
             || bool_decide (engineName <$> engine options = Some "vits"))
            && negb (default false (ssml options))); [|done].
  case_bool_decide as Hempty; [done|]. intros Hnil. by rewrite Hnil in Hempty.
Qed.

(** One turn of the loop over the sentences appends one entry, from the
    time offset before the turn to the time offset after it. *)
Lemma sentenceTurn_chained (options : SynthesisOptions)
    (onSentence : option SynthesisSegmentEvent) (total sentenceIndex : nat)
    (sentence : string) (state : SentenceLoop) (from : number) (n : nat) :
  chained from (segmentEntryTimeline state) (timeOffset state) ->
  length (segmentEntryTimeline state) = n ->
  Returns (fun state' =>
             chained from (segmentEntryTimeline state') (timeOffset state')
             /\ length (segmentEntryTimeline state') = S n)
          (sentenceTurn options onSentence total sentenceIndex sentence state).
Proof.
  intros Hstate Hlength. unfold sentenceTurn.
  eapply Returns_bind; [apply Returns_True|intros [] _].
  eapply Returns_bind; [apply Returns_True|intros [sentenceAudio sentenceTimeline] _].
  eapply Returns_bind; [apply Returns_True|intros samples _].
  destruct onSentence as [callback|];
    [eapply Returns_bind; [apply Returns_True|intros [] _]|];
    apply Returns_ret; cbn [segmentEntryTimeline timeOffset];
    (split; [eapply (chained_snoc _ _ _ (MkTimelineEntry _ _ _ _ _));
               [exact Hstate|reflexivity]
            |rewrite length_app; simpl; lia]).
Qed.

Lemma sentenceLoop_chained (options : SynthesisOptions)
    (onSentence : option SynthesisSegmentEvent) (total : nat) (sentences : list string)
    (from : number) :
  forall sentenceIndex state n,
    chained from (segmentEntryTimeline state) (timeOffset state) ->
    length (segmentEntryTimeline state) = n ->
    Returns (fun state' =>
               chained from (segmentEntryTimeline state') (timeOffset state')
               /\ length (segmentEntryTimeline state') = (n + length sentences)%nat)
            (sentenceLoop options onSentence total sentenceIndex sentences state).
Proof.
  induction sentences as [|sentence sentences IH]; intros sentenceIndex state n Hstate Hn; simpl.
  - apply Returns_ret. split; [done|lia].
  - eapply Returns_bind; [by apply sentenceTurn_chained|].
    intros state' [Hstate' Hn']. eapply Returns_mono; [|by apply IH].
    intros state'' [? ->]. split; [done|lia].
Qed.

Lemma segmentTurn_invariant (options : SynthesisOptions)
    (onSegment onSentence : option SynthesisSegmentEvent) (total segmentIndex : nat)
    (segment : string) (state : SegmentLoop) (n : nat) :
  segmentsInvariant n state ->
  Returns (segmentsInvariant (S n))
          (segmentTurn options onSegment onSentence total segmentIndex segment state).
Proof.
  intros (Hchain & Hsegments & Hlength & Haudio & Htimelines). unfold segmentTurn.
  eapply Returns_bind.
  { apply (sentenceLoop_chained _ _ _ _ (loop_timeOffset state) _ _ 0%nat); by cbn. }
  intros after [Hafter Hcount].
  assert (segmentEntryTimeline after <> []) as Hsentences.
  { intros Hnil. rewrite Hnil in Hcount. simpl in Hcount.
    by apply (sentencesOf_nonempty options (trim segment)), nil_length_inv. }
  destruct onSegment as [callback|];
    [eapply Returns_bind; [apply Returns_True|intros [] _]|];
    apply Returns_ret; unfold segmentsInvariant;
    cbn [loop_timeline loop_timeOffset loop_segmentsAudio loop_segmentsTimelines];
    (split; [eapply (chained_snoc _ _ _ (MkTimelineEntry _ _ _ _ _));
               [exact Hchain|reflexivity]|]);
    (split; [apply Forall_app; split; [done|]; by repeat constructor|]);
    rewrite !length_app, map_app, Htimelines; simpl; (split; [lia|]); (split; [lia|done]).
Qed.

Lemma segmentLoop_invariant (options : SynthesisOptions)
    (onSegment onSentence : option SynthesisSegmentEvent) (total : nat)
    (segments : list string) :
  forall segmentIndex state n,
    segmentsInvariant n state ->
    Returns (segmentsInvariant (n + length segments))
            (segmentLoop options onSegment onSentence total segmentIndex segments state).
Proof.
  induction segments as [|segment segments IH]; intros segmentIndex state n Hstate; simpl.
  - apply Returns_ret. by rewrite Nat.add_0_r.
  - eapply Returns_bind; [by apply segmentTurn_invariant|].
    intros state' Hstate'. replace (n + S (length segments))%nat
      with (S n + length segments)%nat by lia.
    by apply IH.
Qed.

Lemma synthesizeSegments_invariant (segments : list string) (options : SynthesisOptions)
    (onSegment onSentence : option SynthesisSegmentEvent) :
  Returns (fun r =>
             exists options' final,
               r = assembleResult options' final
               /\ segmentsInvariant (length segments) final)
          (synthesizeSegments segments options onSegment onSentence).
Proof.
  unfold synthesizeSegments.
  eapply Returns_bind; [apply Returns_True|intros options' _].
  eapply Returns_bind.
  { apply (segmentLoop_invariant _ _ _ _ _ _ _ 0%nat). by repeat split. }
  intros final Hfinal. apply Returns_ret. by exists options', final.
Qed.

End ResultShapeFacts.

(** X16.  The time line [synthesizeSegments] returns has one entry for each
    segment, and leaves no gap: the first segment starts at 0, every next
    one starts where the one before it ends, the sentences of a segment
    follow one another from the start of the segment to its end, and every
    segment, even an empty one, has at least one sentence.  Beside it come
    one audio for each segment, and for each segment the time line of its
    sentences moved back by the start of the segment. *)
Theorem result_timeline_is_contiguous `{Synthesis.Collaborators}
    (segments : list string) (options : Synthesis.SynthesisOptions)
    (onSegment onSentence : option Synthesis.SynthesisSegmentEvent)
    (w : Synthesis.World) (r : Synthesis.SynthesizeSegmentsResult) :
  Synthesis.result (Synthesis.synthesizeSegments segments options onSegment onSentence w)
  = Synthesis.Ok r ->
  (exists total, Synthesis.chained 0%Qc (Synthesis.resultTimeline r) total)
  /\ Forall (fun segment =>
               Synthesis.chained (Synthesis.startTime segment) (Synthesis.timeline segment)
                                 (Synthesis.endTime segment)
               /\ Synthesis.timeline segment <> [])
            (Synthesis.resultTimeline r)
  /\ length (Synthesis.resultTimeline r) = length segments
  /\ length (Synthesis.segmentsAudio r) = length segments
  /\ Synthesis.segmentsTimelines r
     = map (fun segment =>
              Synthesis.addTimeOffsetToTimeline (Synthesis.timeline segment)
                                                (- Synthesis.startTime segment)%Qc)
           (Synthesis.resultTimeline r).
Proof.
  intros Hok.
  destruct (synthesizeSegments_invariant _ _ _ _ _ _ Hok)
    as (options' & final & -> & Hchain & Hsegments & Hlength & Haudio & Htimelines).
  cbn. split; [by eexists|]. done.
Qed.

Lemma result_timeline_is_contiguous_witness :
  let C := Fixture.collaborators [Fixture.voiceOf "v" ["en-US"; "en"]%string "unknown"] 9
             [1; 1; 1; 1]%Qc None in
  let options :=
    Synthesis.set_engine (Synthesis.set_language Synthesis.emptyOptions (Some "en"%string))
                         (Some Synthesis.espeak) in
  match Synthesis.result
          (@Synthesis.synthesizeSegments C ["One. Two."; " Three "]%string options None None
             0%nat) with
  | Synthesis.Ok r =>
    (exists total, Synthesis.chained 0%Qc (Synthesis.resultTimeline r) total)
    /\ Forall (fun segment =>
                 Synthesis.chained (Synthesis.startTime segment) (Synthesis.timeline segment)
                                   (Synthesis.endTime segment)
                 /\ Synthesis.timeline segment <> [])
              (Synthesis.resultTimeline r)
    /\ length (Synthesis.resultTimeline r) = 2%nat
    /\ length (Synthesis.segmentsAudio r) = 2%nat
    /\ Synthesis.segmentsTimelines r
       = map (fun segment =>
                Synthesis.addTimeOffsetToTimeline (Synthesis.timeline segment)
                                                  (- Synthesis.startTime segment)%Qc)
             (Synthesis.resultTimeline r)
  | Synthesis.Err _ => False
  end.
Proof.
  intros C options.
  destruct (Synthesis.result
              (@Synthesis.synthesizeSegments C ["One. Two."; " Three "]%string options None None
                 0%nat)) as [r|e] eqn:Hrun.
  - exact (@result_timeline_is_contiguous C _ _ _ _ _ _ Hrun).
  - vm_compute in Hrun. discriminate.
Defined.

(** ** The callbacks *)

Section CallbackFacts.
Import Js Synthesis.
Context `{Collaborators}.
Local Open Scope string_scope.

(** The post-processing calls the conversion to plain text, the alignment
    and the time and pitch shifting only. *)
Lemma postprocess_calls (P : Event -> Prop) (text : string) (options : SynthesisOptions)
    (isSSML : bool) (language : option string) (speed pitch : number) (output : EngineOutput) :
  (forall html, P (ConvertHtmlToText html)) ->
  (forall audio plainText, P (Align audio plainText)) ->
  (forall method audio timeStretch pitchShift,
      P (StretchTimePitch method audio timeStretch pitchShift)) ->
  AllEvents P (postprocess text options isSSML language speed pitch output).
Proof.
  intros Hconvert Halign Hstretch.
  unfold postprocess, trimLeadingSilence, alignIfMissing, shiftTimeAndPitch.
  all_events; first [apply Hconvert|apply Halign|apply Hstretch].
Qed.

(** [synthesizeSegment] calls no callback. *)
Lemma synthesizeSegment_no_callback (P : Event -> Prop) (text : string)
    (options : SynthesisOptions) :
  (forall ev, segmentEventOf ev = None -> sentenceEventOf ev = None -> P ev) ->
  AllEvents P (synthesizeSegment text options).
Proof.
  intros HP. unfold synthesizeSegment.
  apply AllEvents_bind; [apply requestVoiceList_events; intros; by apply HP|intros found].
  destruct (bestMatchingVoice found) as [selectedVoice|]; [|all_events].
  apply AllEvents_bind; [all_events; by apply HP|intros voicePackagePath].
  apply AllEvents_bind; [apply dispatch_events; intros; by apply HP|intros output].
  apply postprocess_calls; intros; by apply HP.
Qed.

Lemma sentenceLoop_no_segment_event (options : SynthesisOptions)
    (onSentence : option SynthesisSegmentEvent) (total : nat) (sentences : list string) :
  forall sentenceIndex state,
    AllEvents (fun ev => segmentEventOf ev = None)
              (sentenceLoop options onSentence total sentenceIndex sentences state).
Proof.
  induction sentences as [|sentence sentences IH]; intros sentenceIndex state; simpl.
  - all_events.
  - apply AllEvents_bind; [|intros state'; apply IH].
    unfold sentenceTurn.
    apply AllEvents_bind; [unfold cancellationCheckpoint|intros []].
    { apply AllEvents_bind; [all_events|intros []].
      apply AllEvents_bind; [by intros w; repeat constructor|intros canceled]. all_events. }
    apply AllEvents_bind; [by apply synthesizeSegment_no_callback|].
    intros [sentenceAudio sentenceTimeline].
    apply AllEvents_bind; [all_events|intros samples].
    destruct onSentence; all_events.
Qed.

Lemma omap_Forall_None {A B} (f : A -> option B) (l : list A) :
  Forall (fun x => f x = None) l -> omap f l = [].
Proof. induction 1 as [|x l Hx _ IH]; [done|]. cbn. by rewrite Hx. Qed.

(** One turn of the loop over the segments calls [onSegment] once, last,
    unless it failed before. *)
Lemma segmentTurn_delivers (options : SynthesisOptions)
    (callback : SynthesisSegmentEvent) (onSentence : option SynthesisSegmentEvent)
    (total segmentIndex : nat) (segment : string) (state : SegmentLoop) (w : World) :
  let run := segmentTurn options (Some callback) onSentence total segmentIndex segment state w in
  eventSummary <$> omap segmentEventOf (trace run) = [(segmentIndex, total, trim segment)]
  \/ (omap segmentEventOf (trace run) = [] /\ exists e, result run = Err e).
Proof.
  intros run. subst run. unfold segmentTurn.
  rewrite trace_bind, result_bind, omap_app.
  rewrite (omap_Forall_None _ _ (sentenceLoop_no_segment_event _ _ _ _ _ _ _)).
  destruct (result (sentenceLoop _ _ _ _ _ _ _)) as [after|e]; [left|right; by eauto].
  cbn [app]. rewrite trace_bind, trace_call, omap_app. cbn.
  by destruct (result (call _ _ _)).
Qed.

Lemma segmentTurn_silent (options : SynthesisOptions)
    (onSentence : option SynthesisSegmentEvent)
    (total segmentIndex : nat) (segment : string) (state : SegmentLoop) :
  AllEvents (fun ev => segmentEventOf ev = None)
            (segmentTurn options None onSentence total segmentIndex segment state).
Proof.
  unfold segmentTurn.
  apply AllEvents_bind; [apply sentenceLoop_no_segment_event|intros after]. all_events.
Qed.

Lemma segmentLoop_delivers (options : SynthesisOptions)
    (callback : SynthesisSegmentEvent) (onSentence : option SynthesisSegmentEvent)
    (total : nat) (segments : list string) :
  forall segmentIndex state w,
    let run :=
      segmentLoop options (Some callback) onSentence total segmentIndex segments state w in
    let expected :=
      imap (fun i segment => ((segmentIndex + i)%nat, total, trim segment)) segments in
    exists n,
      eventSummary <$> omap segmentEventOf (trace run) = take n expected
      /\ (forall final, result run = Ok final -> eventSummary <$> omap segmentEventOf (trace run)
                                                 = expected).
Proof.
  induction segments as [|segment segments IH]; intros segmentIndex state w; cbn zeta.
  - exists 0%nat. by split.
  - cbn [segmentLoop]. rewrite trace_bind, result_bind, omap_app, fmap_app.
    rewrite imap_cons, Nat.add_0_r.
    destruct (segmentTurn_delivers options callback onSentence total segmentIndex segment
                state w) as [Hone|[Hnone [e He]]].
    + rewrite Hone. cbn [app].
      destruct (result (segmentTurn _ _ _ _ _ _ _ _)) as [state'|e].
      * destruct (IH (S segmentIndex) state'
                    (final (segmentTurn options (Some callback) onSentence total segmentIndex
                              segment state w))) as (n & Htake & Hall).
        cbn zeta in Htake, Hall.
        assert (imap (fun i segment0 => ((segmentIndex + S i)%nat, total, trim segment0)) segments
                = imap (fun i segment0 => ((S segmentIndex + i)%nat, total, trim segment0))
                       segments) as Hshift
          by (apply imap_ext; intros; do 2 f_equal; lia).
        exists (S n). unfold compose. rewrite Hshift. split.
        -- cbn [take]. by rewrite Htake.
        -- intros final Hfinal. by rewrite (Hall final).
      * exists 1%nat. cbn [omap fmap list_fmap take]. split; [by rewrite take_0|done].
    + rewrite Hnone, He. exists 0%nat. by split.
Qed.

Lemma segmentLoop_silent (options : SynthesisOptions)
    (onSentence : option SynthesisSegmentEvent) (total : nat) (segments : list string) :
  forall segmentIndex state,
    AllEvents (fun ev => segmentEventOf ev = None)
              (segmentLoop options None onSentence total segmentIndex segments state).
Proof.
  induction segments as [|segment segments IH]; intros segmentIndex state; simpl.
  - all_events.
  - apply AllEvents_bind; [apply segmentTurn_silent|intros state'; apply IH].
Qed.

(** The resolution of the options calls the language detection and the
    voice list only. *)
Lemma resolveOptions_events (P : Event -> Prop) (segments : list string)
    (options : SynthesisOptions) :
  P (DetectTextLanguage (join lineFeed segments)) ->
  (forall engine, P (LoadVoiceList engine)) ->
  AllEvents P (resolveOptions segments options).
Proof.
  intros Hdetect Hload. unfold resolveOptions, detectLanguageIfNeeded, selectEngineIfNeeded,
    selectVoice.
  apply AllEvents_bind; [all_events|intros options1].
  apply AllEvents_bind; [all_events|intros options2].
  apply AllEvents_bind; [by apply requestVoiceList_events|intros found]. all_events.
Qed.

Lemma synthesizeSegments_delivers (segments : list string) (options : SynthesisOptions)
    (onSegment onSentence : option SynthesisSegmentEvent) (w : World) :
  let run := synthesizeSegments segments options onSegment onSentence w in
  let delivered := eventSummary <$> omap segmentEventOf (trace run) in
  let expected := imap (fun i segment => (i, length segments, trim segment)) segments in
  match onSegment with
  | None => delivered = []
  | Some _ =>
    (exists n, delivered = take n expected)
    /\ (forall r, result run = Ok r -> delivered = expected)
  end.
Proof.
  intros run delivered expected. subst run delivered expected.
  unfold synthesizeSegments. rewrite trace_bind, omap_app.
  rewrite (omap_Forall_None segmentEventOf (trace (resolveOptions segments options w)))
    by (by apply resolveOptions_events).
  cbn [app]. rewrite result_bind.
  destruct (result (resolveOptions segments options w)) as [options'|e];
    [|destruct onSegment; [split; [by exists 0%nat|done]|done]].
  rewrite trace_bind, omap_app, result_bind.
  destruct onSegment as [callback|].
  - destruct (segmentLoop_delivers options' callback onSentence (length segments) segments
                0%nat
                {| loop_timeOffset := 0; loop_peakDecibelsSoFar := num (-100);
                   loop_segmentsAudio := []; loop_segmentsTimelines := [];
                   loop_timeline := [] |}
                (final (resolveOptions segments options w))) as (n & Htake & Hall).
    cbn zeta in Htake, Hall.
    destruct (result (segmentLoop _ _ _ _ _ _ _ _)) as [final|e] eqn:Hloop.
    + cbn [trace ret omap app]. rewrite app_nil_r. split; [by exists n|].
      intros r _. by apply (Hall final).
    + rewrite app_nil_r. split; [by exists n|done].
  - rewrite (omap_Forall_None _ _ (segmentLoop_silent _ _ _ _ _ _ _)).
    by destruct (result (segmentLoop _ _ _ _ _ _ _ _)).
Qed.

End CallbackFacts.

(** X17.  [onSegment] is called once for each segment, in the order of the
    segments, with the index of the segment, the number of segments and the
    trimmed text of the segment: the calls made by a run that returns are
    exactly these, the calls made by a run that fails are the first of
    them.  Without [onSegment] there is no such call. *)
Theorem onSegment_is_called_in_order `{Synthesis.Collaborators}
    (segments : list string) (options : Synthesis.SynthesisOptions)
    (onSegment onSentence : option Synthesis.SynthesisSegmentEvent) (w : Synthesis.World) :
  let run := Synthesis.synthesizeSegments segments options onSegment onSentence w in
  let delivered :=
    map Synthesis.eventSummary (omap Synthesis.segmentEventOf (Synthesis.trace run)) in
  let expected := imap (fun i segment => (i, length segments, Js.trim segment)) segments in
  match onSegment with
  | None => delivered = []
  | Some _ =>
    (exists n, delivered = take n expected)
    /\ (forall r, Synthesis.result run = Synthesis.Ok r -> delivered = expected)
  end.
Proof. apply synthesizeSegments_delivers. Qed.

Section EdgeFacts.
Import Js Synthesis.
Context `{Collaborators}.
Local Open Scope string_scope.

Lemma synthesizeSegments_nil (options : SynthesisOptions)
    (onSegment onSentence : option SynthesisSegmentEvent) (w : World)
    (r : SynthesizeSegmentsResult) :
  result (synthesizeSegments [] options onSegment onSentence w) = Ok r ->
  r = {| synthesizedAudio := getEmptyRawAudio 1 (num 24000); resultTimeline := [];
         segmentsAudio := []; segmentsTimelines := [] |}
  /\ Forall (fun ev => match ev with
                       | DetectTextLanguage input => input = ""
                       | LoadVoiceList _ => True
                       | _ => False
                       end)
            (trace (synthesizeSegments [] options onSegment onSentence w)).
Proof.
  unfold synthesizeSegments. intros Hok.
  apply bind_Ok_inv in Hok as (options' & Hresolve & Hok & -> & _).
  cbn [segmentLoop] in *. rewrite bind_ret_l in *. injection Hok as <-.
  split; [done|]. cbn [trace ret]. rewrite app_nil_r.
  by apply resolveOptions_events.
Qed.

(** An engine and a language or a voice are given, and no voice of the
    engine passes the filters. *)
Lemma synthesizeSegments_no_voice (segments : list string) (options : SynthesisOptions)
    (onSegment onSentence : option SynthesisSegmentEvent) (w w' : World)
    (loaded : list SynthesisVoice) :
  truthyEngine (engine options) = true ->
  truthyString (language options) = true \/ truthyString (voice options) = true ->
  loadVoiceList
    (extendDeep defaultVoiceListRequestOptions (extendDeep defaultSynthesisOptions options)) w
  = (Ok loaded, w') ->
  voiceList (selectVoices loaded options) = [] ->
  synthesizeSegments segments options onSegment onSentence w
  = {| result := Err (Error "No matching voice found"); final := w';
       trace := [LoadVoiceList (engine options)] |}.
Proof.
  intros Hengine Hgiven Hload Hnone.
  destruct (extendDeep_defaults_fields options) as (Heng & Hlang & Hvoice).
  unfold synthesizeSegments, resolveOptions, detectLanguageIfNeeded.
  rewrite Hlang, Hvoice.
  assert (negb (truthyString (language options)) && negb (truthyString (voice options))
          = false) as ->
    by (destruct Hgiven as [-> | ->]; [done|by rewrite andb_false_r]).
  rewrite bind_assoc, bind_ret_l. unfold selectEngineIfNeeded. rewrite Heng, Hengine.
  cbn [negb]. rewrite bind_assoc, bind_ret_l. unfold selectVoice.
  rewrite !bind_assoc. unfold bind at 1. rewrite (requestVoiceList_run _ _ _ _ Hload).
  cbn [result final trace].
  rewrite selectVoices_defaults.
  assert (bestMatchingVoice (selectVoices loaded options) = None) as Hbest.
  { revert Hnone. unfold selectVoices. cbn [voiceList bestMatchingVoice]. by intros ->. }
  rewrite Hbest.
  destruct (extendDeep_defaults_fields (extendDeep defaultSynthesisOptions options))
    as (Heng' & _ & _).
  change defaultVoiceListRequestOptions with defaultSynthesisOptions.
  rewrite Heng', Heng. reflexivity.
Qed.

End EdgeFacts.

(** X18.  For no segment at all, [synthesizeSegments] still resolves the
    language (detected on the empty text when neither a language nor a voice
    is given), the engine and the voice; when it returns, the result is the
    empty audio of one channel at 24000 Hz with empty time lines, and it has
    called nothing but the language detection and the voice list. *)
Theorem no_segments_give_the_empty_result `{Synthesis.Collaborators}
    (options : Synthesis.SynthesisOptions)
    (onSegment onSentence : option Synthesis.SynthesisSegmentEvent)
    (w : Synthesis.World) (r : Synthesis.SynthesizeSegmentsResult) :
  Synthesis.result (Synthesis.synthesizeSegments [] options onSegment onSentence w)
  = Synthesis.Ok r ->
  r = {| Synthesis.synthesizedAudio := Synthesis.getEmptyRawAudio 1 (Js.num 24000);
         Synthesis.resultTimeline := [];
         Synthesis.segmentsAudio := []; Synthesis.segmentsTimelines := [] |}
  /\ Forall (fun ev => match ev with
                       | Synthesis.DetectTextLanguage input => input = ""%string
                       | Synthesis.LoadVoiceList _ => True
                       | _ => False
                       end)
            (Synthesis.trace (Synthesis.synthesizeSegments [] options onSegment onSentence w)).
Proof. apply synthesizeSegments_nil. Qed.

Lemma no_segments_give_the_empty_result_witness :
  let C := Fixture.collaborators [Fixture.voiceOf "v" ["en-US"; "en"]%string "unknown"] 9
             [1; 1; 1; 1]%Qc None in
  match Synthesis.result
          (@Synthesis.synthesizeSegments C [] Synthesis.emptyOptions None None 0%nat) with
  | Synthesis.Ok r =>
    r = {| Synthesis.synthesizedAudio := @Synthesis.getEmptyRawAudio C 1 (Js.num 24000);
           Synthesis.resultTimeline := [];
           Synthesis.segmentsAudio := []; Synthesis.segmentsTimelines := [] |}
    /\ Forall (fun ev => match ev with
                         | Synthesis.DetectTextLanguage input => input = ""%string
                         | Synthesis.LoadVoiceList _ => True
                         | _ => False
                         end)
              (Synthesis.trace
                 (@Synthesis.synthesizeSegments C [] Synthesis.emptyOptions None None 0%nat))
  | Synthesis.Err _ => False
  end.
Proof.
  intros C.
  destruct (Synthesis.result
              (@Synthesis.synthesizeSegments C [] Synthesis.emptyOptions None None 0%nat))
    as [r|e] eqn:Hrun.
  - exact (@no_segments_give_the_empty_result C _ _ _ _ _ Hrun).
  - vm_compute in Hrun. discriminate.
Defined.

(** X19.  When an engine is given, with a language or a voice, and no voice
    of the engine's list passes the filters, [synthesizeSegments] fails
    with "No matching voice found" right after the voice list was loaded:
    nothing is synthesized and no callback is called. *)
Theorem no_matching_voice_stops_the_synthesis `{Synthesis.Collaborators}
    (segments : list string) (options : Synthesis.SynthesisOptions)
    (onSegment onSentence : option Synthesis.SynthesisSegmentEvent)
    (w w' : Synthesis.World) (loaded : list Synthesis.SynthesisVoice) :
  Synthesis.truthyEngine (Synthesis.engine options) = true ->
  Js.truthyString (Synthesis.language options) = true
  \/ Js.truthyString (Synthesis.voice options) = true ->
  Synthesis.loadVoiceList
    (Synthesis.extendDeep Synthesis.defaultVoiceListRequestOptions
       (Synthesis.extendDeep Synthesis.defaultSynthesisOptions options)) w
  = (Synthesis.Ok loaded, w') ->
  Synthesis.voiceList (Synthesis.selectVoices loaded options) = [] ->
  Synthesis.synthesizeSegments segments options onSegment onSentence w
  = {| Synthesis.result := Synthesis.Err (Synthesis.Error "No matching voice found");
       Synthesis.final := w';
       Synthesis.trace := [Synthesis.LoadVoiceList (Synthesis.engine options)] |}.
Proof. apply synthesizeSegments_no_voice. Qed.

Lemma no_matching_voice_stops_the_synthesis_witness :
  let C := Fixture.collaborators [Fixture.voiceOf "v" ["fr-FR"; "fr"]%string "unknown"] 9
             [1%Qc] None in
  let options :=
    Synthesis.set_engine (Synthesis.set_language Synthesis.emptyOptions (Some "en"%string))
                         (Some Synthesis.espeak) in
  @Synthesis.synthesizeSegments C ["Hi"]%string options None None 0%nat
  = {| Synthesis.result := Synthesis.Err (Synthesis.Error "No matching voice found");
       Synthesis.final := 0%nat;
       Synthesis.trace := [Synthesis.LoadVoiceList (Some Synthesis.espeak)] |}.
Proof.
  intros C options.
  apply (@no_matching_voice_stops_the_synthesis C ["Hi"]%string options None None 0%nat 0%nat
           [Fixture.voiceOf "v" ["fr-FR"; "fr"]%string "unknown"]).
  - reflexivity.
  - left. reflexivity.
  - reflexivity.
  - reflexivity.
Defined.

(** ** More on voice lists *)

Section VoiceSelectionFacts.
Import Js Synthesis.
Context `{Collaborators}.
Local Open Scope string_scope.

(** The inner loop of [getAllLangCodesFromVoiceList] adds no code twice. *)
Lemma addLangCodes_NoDup (langCodes : list string) :
  forall (languageCodes : gset string) (langList : list string),
    (forall code, code ∈ languageCodes <-> code ∈ langList) ->
    NoDup langList ->
    NoDup (addLangCodes langCodes (languageCodes, langList)).2.
Proof.
  induction langCodes as [|langCode langCodes IH]; intros languageCodes langList Hinv Hnodup.
  - done.
  - cbn [addLangCodes]. case_bool_decide as Hseen; [by apply IH|].
    apply IH.
    + intros code. rewrite elem_of_union, elem_of_singleton, elem_of_app,
        list_elem_of_singleton, Hinv. tauto.
    + apply NoDup_app. split; [done|]. split; [|apply NoDup_singleton].
      intros code Hin ->%list_elem_of_singleton. by apply Hseen, Hinv.
Qed.

Lemma fold_addLangCodes_NoDup (voices : list SynthesisVoice) :
  forall (languageCodes : gset string) (langList : list string),
    (forall code, code ∈ languageCodes <-> code ∈ langList) ->
    NoDup langList ->
    NoDup (fold_left (fun state voice => addLangCodes (languages voice) state) voices
                     (languageCodes, langList)).2.
Proof.
  induction voices as [|voice voices IH]; intros languageCodes langList Hinv Hnodup; [done|].
  cbn [fold_left].
  pose proof (addLangCodes_NoDup (languages voice) languageCodes langList Hinv Hnodup) as Hnodup'.
  destruct (addLangCodes_spec (languages voice) languageCodes langList Hinv) as [Hset _].
  destruct (addLangCodes (languages voice) (languageCodes, langList)) as [set' list'].
  by apply IH.
Qed.

(** The filters keep the order of the voices. *)
Lemma filterByLanguage_sublist (voices : list SynthesisVoice) (code : string) :
  filterByLanguage voices code `sublist_of` voices.
Proof.
  unfold filterByLanguage. case_bool_decide; [done|].
  destruct (_ && _); apply sublist_filter.
Qed.

Lemma filterByGender_sublist (voices : list SynthesisVoice) (voiceGender : option string) :
  filterByGender voices voiceGender `sublist_of` voices.
Proof. unfold filterByGender. destruct (truthyString voiceGender); [apply sublist_filter|done]. Qed.

Lemma filterByName_sublist (voices : list SynthesisVoice) (voice : option string) :
  filterByName voices voice `sublist_of` voices.
Proof.
  unfold filterByName. destruct (truthyString voice); [|done].
  case_bool_decide; apply sublist_filter.
Qed.

Lemma firstVoiceDeclaring_elem (code : string) (voices : list SynthesisVoice)
    (candidate : SynthesisVoice) :
  firstVoiceDeclaring code voices candidate ∈ voices
  \/ firstVoiceDeclaring code voices candidate = candidate.
Proof.
  induction voices as [|voice voices IH]; [by right|]. cbn [firstVoiceDeclaring].
  case_bool_decide; [left; apply list_elem_of_here|].
  destruct IH as [?|?]; [left; by apply list_elem_of_further|by right].
Qed.

Lemma selectBestMatchingVoice_elem (voices : list SynthesisVoice) (code : string) :
  match selectBestMatchingVoice voices code with
  | Some voice => voice ∈ voices
  | None => voices = []
  end.
Proof.
  unfold selectBestMatchingVoice. destruct voices as [|first rest]; [done|].
  destruct (_ && _); [|apply list_elem_of_here].
  destruct (firstVoiceDeclaring_elem
              (default "" (shortLanguageCodeToLong code)) (first :: rest) first) as [?| ->];
    [done|apply list_elem_of_here].
Qed.

Lemma selectVoices_shape (loaded : list SynthesisVoice) (options : SynthesisOptions) :
  let found := selectVoices loaded options in
  voiceList found `sublist_of` loaded
  /\ match bestMatchingVoice found with
     | Some voice => voice ∈ voiceList found
     | None => voiceList found = []
     end.
Proof.
  unfold selectVoices. cbn [voiceList bestMatchingVoice]. split.
  - etrans; [apply filterByName_sublist|].
    etrans; [apply filterByGender_sublist|apply filterByLanguage_sublist].
  - apply selectBestMatchingVoice_elem.
Qed.

End VoiceSelectionFacts.

(** X20.  [getAllLangCodesFromVoiceList] lists every language code that a
    voice of the list declares, and no other, each code once. *)
Theorem getAllLangCodesFromVoiceList_lists_each_code_once `{Synthesis.Collaborators}
    (voiceList : list Synthesis.SynthesisVoice) :
  NoDup (Synthesis.getAllLangCodesFromVoiceList voiceList)
  /\ (forall code,
        code ∈ Synthesis.getAllLangCodesFromVoiceList voiceList
        <-> exists voice, voice ∈ voiceList /\ code ∈ Synthesis.languages voice).
Proof.
  split.
  - unfold Synthesis.getAllLangCodesFromVoiceList. apply fold_addLangCodes_NoDup.
    + intros code. rewrite elem_of_empty, elem_of_nil. tauto.
    + constructor.
  - intros code. rewrite elem_of_getAllLangCodesFromVoiceList, Exists_exists. done.
Qed.

(** X21.  The voices [requestVoiceList] returns are voices of the loaded
    list, in the order of that list; the best matching voice is one of the
    voices returned, and it is missing exactly when no voice is returned. *)
Theorem requestVoiceList_returns_loaded_voices `{Synthesis.Collaborators}
    (options : Synthesis.SynthesisOptions) (w : Synthesis.World)
    (found : Synthesis.RequestVoiceListResult) :
  Synthesis.result (Synthesis.requestVoiceList options w) = Synthesis.Ok found ->
  exists loaded w',
    Synthesis.loadVoiceList
      (Synthesis.extendDeep Synthesis.defaultVoiceListRequestOptions options) w
    = (Synthesis.Ok loaded, w')
    /\ Synthesis.voiceList found `sublist_of` loaded
    /\ match Synthesis.bestMatchingVoice found with
       | Some voice => voice ∈ Synthesis.voiceList found
       | None => Synthesis.voiceList found = []
       end.
Proof.
  destruct (Synthesis.loadVoiceList
              (Synthesis.extendDeep Synthesis.defaultVoiceListRequestOptions options) w)
    as [[loaded|e] w'] eqn:Hload; rewrite (requestVoiceList_run _ _ _ _ Hload); [|done].
  intros [= <-]. exists loaded, w'. split; [done|]. apply selectVoices_shape.
Qed.

Lemma requestVoiceList_returns_loaded_voices_witness :
  let loaded := [Fixture.voiceOf "a" ["en-GB"; "en"]%string "unknown";
                 Fixture.voiceOf "b" ["fr-FR"; "fr"]%string "unknown";
                 Fixture.voiceOf "c" ["en-US"; "en"]%string "unknown"] in
  let C := Fixture.collaborators loaded 9 [1%Qc] None in
  let options := Synthesis.set_language Synthesis.emptyOptions (Some "en"%string) in
  match Synthesis.result (@Synthesis.requestVoiceList C options 0%nat) with
  | Synthesis.Ok found =>
    exists loaded' w',
      @Synthesis.loadVoiceList C
        (Synthesis.extendDeep Synthesis.defaultVoiceListRequestOptions options) 0%nat
      = (Synthesis.Ok loaded', w')
      /\ Synthesis.voiceList found `sublist_of` loaded'
      /\ match Synthesis.bestMatchingVoice found with
         | Some voice => voice ∈ Synthesis.voiceList found
         | None => Synthesis.voiceList found = []
         end
  | Synthesis.Err _ => False
  end.
Proof.
  intros loaded C options.
  destruct (Synthesis.result (@Synthesis.requestVoiceList C options 0%nat))
    as [found|e] eqn:Hrun.
  - exact (@requestVoiceList_returns_loaded_voices C options 0%nat found Hrun).
  - vm_compute in Hrun. discriminate.
Defined.

Section NameFilterFacts.
Import Js Synthesis.
Context `{Collaborators}.
Local Open Scope string_scope.

Lemma prefix_refl (s : string) : String.prefix s s = true.
Proof.
  induction s as [|c s IH]; [done|]. cbn. by destruct (ascii_dec c c).
Qed.

Lemma includes_refl (s : string) : includes s s = true.
Proof. destruct s; cbn [includes]; by rewrite prefix_refl. Qed.

Lemma splitAtWordBoundaries_nonempty (s : string) : splitAtWordBoundaries s <> [].
Proof.
  induction s as [|c s IH]; [done|]. cbn [splitAtWordBoundaries].
  destruct s as [|c' s']; [done|].
  destruct (splitAtWordBoundaries (String c' s')) as [|part parts]; [done|].
  by destruct (Bool.eqb _ _).
Qed.

(** A string that [split(/\b/g)] does not cut is its own only part. *)
Lemma splitAtWordBoundaries_one_part (s : string) :
  (length (splitAtWordBoundaries s) <= 1)%nat -> splitAtWordBoundaries s = [s].
Proof.
  induction s as [|c s IH]; [done|]. cbn [splitAtWordBoundaries].
  destruct s as [|c' s']; [done|].
  destruct (splitAtWordBoundaries (String c' s')) as [|part parts] eqn:Hparts;
    [by apply splitAtWordBoundaries_nonempty in Hparts|].
  destruct (Bool.eqb _ _); cbn [length]; intros Hlen; [|lia].
  assert (part :: parts = [String c' s']) as [= -> ->]
    by (apply IH; cbn [length] in *; lia).
  done.
Qed.

(** A voice whose name is the requested one, letter case apart, passes
    the name filter. *)
Lemma filterByName_keeps_same_name (voices : list SynthesisVoice) (requested : option string)
    (voice : SynthesisVoice) :
  voice ∈ voices ->
  (truthyString requested = true ->
   toLocaleLowerCase (name voice) = toLocaleLowerCase (default "" requested)) ->
  voice ∈ filterByName voices requested.
Proof.
  intros Hin Hname. unfold filterByName.
  destruct (truthyString requested); [|done]. specialize (Hname eq_refl).
  case_bool_decide as Hparts; apply list_elem_of_filter; (split; [|done]).
  - rewrite Hname. apply includes_refl.
  - cbv zeta. rewrite Hname. rewrite splitAtWordBoundaries_one_part by lia.
    cbn [existsb]. unfold startsWith. by rewrite prefix_refl.
Qed.

Lemma filterByGender_keeps (voices : list SynthesisVoice) (requested : option string)
    (voice : SynthesisVoice) :
  voice ∈ voices ->
  (truthyString requested = true ->
   gender voice = "unknown" \/ gender voice = toLowerCase (default "" requested)) ->
  voice ∈ filterByGender voices requested.
Proof.
  intros Hin Hgender. unfold filterByGender.
  destruct (truthyString requested); [|done]. specialize (Hgender eq_refl).
  apply list_elem_of_filter. split; [tauto|done].
Qed.

End NameFilterFacts.

(** X22.  A voice that passes the language filter is among the voices
    [requestVoiceList] selects when its gender is "unknown" or the
    requested gender in lower case (or no gender is requested), and its
    name is the requested name, letter case apart (or no name is
    requested): asking for a voice by its exact name never loses it, and a
    voice of unknown gender is never dropped for its gender. *)
Theorem voice_of_requested_name_is_selected `{Synthesis.Collaborators}
    (loaded : list Synthesis.SynthesisVoice) (options : Synthesis.SynthesisOptions)
    (voice : Synthesis.SynthesisVoice) :
  voice ∈ Synthesis.filterByLanguage loaded
            (Synthesis.normalizeLanguageCode (Js.orString (Synthesis.language options) "")) ->
  (Js.truthyString (Synthesis.voiceGender options) = true ->
   Synthesis.gender voice = "unknown"%string
   \/ Synthesis.gender voice
      = Js.toLowerCase (default ""%string (Synthesis.voiceGender options))) ->
  (Js.truthyString (Synthesis.voice options) = true ->
   Js.toLocaleLowerCase (Synthesis.name voice)
   = Js.toLocaleLowerCase (default ""%string (Synthesis.voice options))) ->
  voice ∈ Synthesis.voiceList (Synthesis.selectVoices loaded options)
  /\ Synthesis.bestMatchingVoice (Synthesis.selectVoices loaded options) <> None.
Proof.
  intros Hlanguage Hgender Hname.
  assert (voice ∈ Synthesis.voiceList (Synthesis.selectVoices loaded options)) as Hin.
  { unfold Synthesis.selectVoices. cbn [Synthesis.voiceList].
    apply filterByName_keeps_same_name; [|done]. by apply filterByGender_keeps. }
  split; [done|]. intros Hnone.
  destruct (selectVoices_shape loaded options) as [_ Hbest]. rewrite Hnone in Hbest.
  rewrite Hbest in Hin. by apply not_elem_of_nil in Hin.
Qed.

Lemma voice_of_requested_name_is_selected_witness :
  let amy := Fixture.voiceOf "Amy" ["en-US"; "en"]%string "female" in
  let loaded := [Fixture.voiceOf "Brian" ["en-GB"; "en"]%string "male"; amy] in
  let C := Fixture.collaborators loaded 9 [1%Qc] None in
  let options :=
    Synthesis.set_voice (Synthesis.set_language Synthesis.emptyOptions (Some "en"%string))
                        (Some "AMY"%string) in
  amy ∈ Synthesis.voiceList (@Synthesis.selectVoices C loaded options)
  /\ Synthesis.bestMatchingVoice (@Synthesis.selectVoices C loaded options) <> None.
Proof.
  intros amy loaded C options.
  apply (@voice_of_requested_name_is_selected C loaded options amy).
  - vm_compute. apply list_elem_of_further, list_elem_of_here.
  - intros [=].
  - intros _. reflexivity.
Defined.

(** ** Loading the voice list of an engine *)

Section LoaderFacts.
Import Js Synthesis VoiceListLoader.
Context `{VoiceSources}.
Local Open Scope string_scope.

Lemma Load_bind_run {A B} (m : Load A) (k : A -> Load B) (w : World) :
  (m ≫= k) w
  = match m w with
    | Some r =>
      match outcome r with
      | Ok a =>
        match k a (world r) with
        | Some r' =>
          Some {| outcome := outcome r'; world := world r';
                  calls := (calls r ++ calls r')%list |}
        | None => None
        end
      | Err e => Some {| outcome := Err e; world := world r; calls := calls r |}
      end
    | None => None
    end.
Proof. reflexivity. Qed.

Lemma Load_bind_ret {A B} (a : A) (k : A -> Load B) (w : World) :
  (mret a ≫= k) w = k a w.
Proof. rewrite Load_bind_run. cbn. by destruct (k a w) as [[]|]. Qed.

Lemma Load_bind_fail {A B} (message : string) (k : A -> Load B) (w : World) :
  (fail message ≫= k) w = fail message w.
Proof. reflexivity. Qed.

(** A run of a sequence that returns: both parts ran and returned. *)
Lemma Load_bind_Ok_inv {A B} (m : Load A) (k : A -> Load B) (w : World)
    (r : Loading B) (b : B) :
  (m ≫= k) w = Some r -> outcome r = Ok b ->
  exists r1 a r2,
    m w = Some r1 /\ outcome r1 = Ok a
    /\ k a (world r1) = Some r2 /\ outcome r2 = Ok b
    /\ calls r = (calls r1 ++ calls r2)%list /\ world r = world r2.
Proof.
  rewrite Load_bind_run. destruct (m w) as [r1|]; [|done].
  destruct (outcome r1) as [a|e] eqn:Hr1; [|by intros [= <-]].
  destruct (k a (world r1)) as [r2|] eqn:Hr2; [|done].
  intros [= <-] Hb. by exists r1, a, r2.
Qed.

End LoaderFacts.

(** X23.  A cache file that exists and is up to date is trusted as it is:
    [requestVoiceList] selects among the voices of the file, and has
    neither called a listing nor written a file, whatever the engine and
    the credentials of the options. *)
Theorem fresh_cache_is_trusted `{VoiceListLoader.VoiceSources}
    (fuel : nat) (options : Synthesis.SynthesisOptions)
    (w w1 w2 w3 : Synthesis.World) (cacheFilePath : string)
    (before : list VoiceListLoader.Call) (cached : list Synthesis.SynthesisVoice) :
  let resolved := Synthesis.extendDeep Synthesis.defaultVoiceListRequestOptions options in
  VoiceListLoader.cacheFilePathOf resolved w
  = Some {| VoiceListLoader.outcome := Synthesis.Ok cacheFilePath;
            VoiceListLoader.world := w1; VoiceListLoader.calls := before |} ->
  cacheFilePath <> ""%string ->
  VoiceListLoader.existsSync cacheFilePath w1 = true ->
  VoiceListLoader.isFileIsUpToDate cacheFilePath (Synthesis.cache_duration resolved) w1
  = (Synthesis.Ok true, w2) ->
  VoiceListLoader.readAndParseJsonFile cacheFilePath w2 = (Synthesis.Ok cached, w3) ->
  VoiceListLoader.requestVoiceList fuel options w
  = Some {| VoiceListLoader.outcome := Synthesis.Ok (Synthesis.selectVoices cached options);
            VoiceListLoader.world := w3;
            VoiceListLoader.calls :=
              before ++ [VoiceListLoader.ExistsSync cacheFilePath true;
                         VoiceListLoader.IsFileIsUpToDate cacheFilePath
                           (Synthesis.cache_duration resolved);
                         VoiceListLoader.ReadAndParseJsonFile cacheFilePath] |}.
Proof.
  intros resolved Hpath Hnonempty Hexists Hfresh Hread.
  unfold VoiceListLoader.requestVoiceList. fold resolved.
  rewrite Load_bind_run, Hpath. cbn [VoiceListLoader.outcome VoiceListLoader.world
    VoiceListLoader.calls].
  rewrite Load_bind_run. unfold VoiceListLoader.cacheIsFresh.
  rewrite bool_decide_eq_true_2 by done.
  rewrite Load_bind_run, Hexists. cbn [VoiceListLoader.outcome VoiceListLoader.world
    VoiceListLoader.calls].
  unfold VoiceListLoader.await at 1. rewrite Hfresh.
  cbn [VoiceListLoader.outcome VoiceListLoader.world VoiceListLoader.calls].
  rewrite Load_bind_run. unfold VoiceListLoader.await. rewrite Hread.
  cbn [VoiceListLoader.outcome VoiceListLoader.world VoiceListLoader.calls].
  cbn [mret VoiceListLoader.Load_ret app].
  subst resolved. by rewrite selectVoices_defaults.
Qed.

Lemma fresh_cache_is_trusted_witness :
  let C := Fixture.collaborators [] 9 [1%Qc] None in
  let cached := [Fixture.voiceOf "old" ["en-US"; "en"]%string "unknown"] in
  let S := @Fixture.voiceSources C (Some cached) [] in
  let options :=
    Synthesis.set_engine Synthesis.emptyOptions (Some (Synthesis.OtherEngine "nope")) in
  let path := "/data/voice-list-cache/nope.voices.json"%string in
  @VoiceListLoader.requestVoiceList C S 1 options 0%nat
  = Some {| VoiceListLoader.outcome := Synthesis.Ok (@Synthesis.selectVoices C cached options);
            VoiceListLoader.world := 0%nat;
            VoiceListLoader.calls :=
              [VoiceListLoader.EnsureDir "/data/voice-list-cache"]
              ++ [VoiceListLoader.ExistsSync path true;
                  VoiceListLoader.IsFileIsUpToDate path (Some (Js.num 60));
                  VoiceListLoader.ReadAndParseJsonFile path] |}.
Proof.
  intros C cached S options path.
  apply (@fresh_cache_is_trusted C S 1 options 0%nat 0%nat 0%nat 0%nat path
           [VoiceListLoader.EnsureDir "/data/voice-list-cache"] cached).
  - reflexivity.
  - discriminate.
  - reflexivity.
  - reflexivity.
  - reflexivity.
Defined.

Section ListingFacts.
Import Js Synthesis VoiceListLoader.
Context `{VoiceSources}.
Local Open Scope string_scope.

Lemma require_falsy (value : option string) (message : string) :
  truthyString value = false -> require value message = fail message.
Proof. intros Hvalue. unfold require. by rewrite Hvalue. Qed.

Lemma require_truthy (value : option string) (message : string) :
  truthyString value = true -> require value message = mret (default "" value).
Proof. intros Hvalue. unfold require. by rewrite Hvalue. Qed.

(** The listing of a cloud engine fails, before any call, when a
    credential it asks for is missing. *)
Lemma listVoices_requires_credentials (fuel : nat) (options : SynthesisOptions) (w : World) :
  let required :=
    match engine options with
    | Some google_cloud => [googleCloud_apiKey options]
    | Some microsoft_azure =>
      [microsoftAzure_subscriptionKey options; microsoftAzure_serviceRegion options]
    | Some amazon_polly =>
      [awsPolly_region options; awsPolly_accessKeyId options;
       awsPolly_secretAccessKey options]
    | Some microsoft_edge => [microsoftEdge_trustedClientToken options]
    | _ => []
    end in
  Exists (fun value => truthyString value = false) required ->
  exists message, listVoices fuel options w = fail message w.
Proof.
  intros required Hmissing. subst required. unfold listVoices.
  destruct (engine options) as [[]|]; try (by apply Exists_nil in Hmissing);
    repeat (apply Exists_cons in Hmissing as [Hmissing|Hmissing]);
    try (by apply Exists_nil in Hmissing);
    repeat match goal with
           | |- context [require ?value ?message] =>
             let Htruthy := fresh "Htruthy" in
             destruct (truthyString value) eqn:Htruthy;
             [rewrite (require_truthy value message Htruthy), Load_bind_ret
             |rewrite (require_falsy value message Htruthy); by eexists]
           end;
    congruence.
Qed.

End ListingFacts.

(** X24.  No listing of a cloud engine is called without its credentials:
    when the API key of google-cloud, the subscription key or the service
    region of microsoft-azure, the region or either access key of
    amazon-polly, or the client token of microsoft-edge is missing or
    empty, [loadVoiceList] fails without a call: it lists nothing and
    writes no cache file. *)
Theorem listing_requires_credentials `{VoiceListLoader.VoiceSources}
    (fuel : nat) (options : Synthesis.SynthesisOptions) (cacheFilePath : string)
    (w : Synthesis.World) :
  let required :=
    match Synthesis.engine options with
    | Some Synthesis.google_cloud => [Synthesis.googleCloud_apiKey options]
    | Some Synthesis.microsoft_azure =>
      [Synthesis.microsoftAzure_subscriptionKey options;
       Synthesis.microsoftAzure_serviceRegion options]
    | Some Synthesis.amazon_polly =>
      [Synthesis.awsPolly_region options; Synthesis.awsPolly_accessKeyId options;
       Synthesis.awsPolly_secretAccessKey options]
    | Some Synthesis.microsoft_edge => [Synthesis.microsoftEdge_trustedClientToken options]
    | _ => []
    end in
  Exists (fun value => Js.truthyString value = false) required ->
  exists message,
    VoiceListLoader.loadVoiceList fuel options cacheFilePath w
    = Some {| VoiceListLoader.outcome := Synthesis.Err (Synthesis.Error message);
              VoiceListLoader.world := w; VoiceListLoader.calls := [] |}.
Proof.
  intros required Hmissing.
  destruct (listVoices_requires_credentials fuel options w Hmissing) as [message Hfail].
  exists message. unfold VoiceListLoader.loadVoiceList.
  by rewrite Load_bind_run, Hfail.
Qed.

Lemma listing_requires_credentials_witness :
  let C := Fixture.collaborators [] 9 [1%Qc] None in
  let S := @Fixture.voiceSources C None [] in
  let options := Synthesis.set_engine Synthesis.emptyOptions (Some Synthesis.google_cloud) in
  exists message,
    @VoiceListLoader.loadVoiceList C S 1 options "/cache/google-cloud.voices.json" 0%nat
    = Some {| VoiceListLoader.outcome := Synthesis.Err (Synthesis.Error message);
              VoiceListLoader.world := 0%nat; VoiceListLoader.calls := [] |}.
Proof.
  intros C S options.
  apply (@listing_requires_credentials C S 1 options "/cache/google-cloud.voices.json" 0%nat).
  apply Exists_cons_hd. reflexivity.
Defined.

Section WriteBackFacts.
Import Js Synthesis VoiceListLoader.
Context `{VoiceSources}.
Local Open Scope string_scope.

Lemma AllCalls_ret {A} (P : Call -> Prop) (a : A) : AllCalls P (mret a).
Proof. intros w r [= <-]. constructor. Qed.

Lemma AllCalls_fail {A} (P : Call -> Prop) (message : string) :
  AllCalls P (fail (A := A) message).
Proof. intros w r [= <-]. constructor. Qed.

Lemma AllCalls_diverge {A} (P : Call -> Prop) : AllCalls P (diverge (A := A)).
Proof. by intros w r. Qed.

Lemma AllCalls_await {A} (P : Call -> Prop) (c : Call) (f : World -> Result A * World) :
  P c -> AllCalls P (await c f).
Proof. intros Hc w r. unfold await. destruct (f w). intros [= <-]. by repeat constructor. Qed.

Lemma AllCalls_bind {A B} (P : Call -> Prop) (m : Load A) (k : A -> Load B) :
  AllCalls P m -> (forall a, AllCalls P (k a)) -> AllCalls P (m ≫= k).
Proof.
  intros Hm Hk w r. rewrite Load_bind_run.
  destruct (m w) as [r1|] eqn:Hr1; [|done]. specialize (Hm w r1 Hr1).
  destruct (outcome r1) as [a|e]; [|by intros [= <-]].
  destruct (k a (world r1)) as [r2|] eqn:Hr2; [|done]. intros [= <-]. cbn.
  apply Forall_app. split; [done|]. by eapply Hk.
Qed.

(** The listing calls no function of the file system. *)
Lemma listVoices_calls (fuel : nat) (options : SynthesisOptions) :
  AllCalls (fun c => isFileCall c = false) (listVoices fuel options).
Proof.
  unfold listVoices, require.
  destruct (engine options) as [[]|];
    repeat first
      [ apply AllCalls_ret
      | apply AllCalls_fail
      | apply AllCalls_diverge
      | apply AllCalls_await; reflexivity
      | apply AllCalls_bind; [|intros ?]
      | match goal with
        | |- AllCalls _ (match ?x with _ => _ end) => destruct x
        | |- AllCalls _ (if ?b then _ else _) => destruct b
        end ].
Qed.

Lemma loadVoiceList_Ok_inv (fuel : nat) (options : SynthesisOptions) (cacheFilePath : string)
    (w : World) (r : Loading (list SynthesisVoice)) (voiceList : list SynthesisVoice) :
  loadVoiceList fuel options cacheFilePath w = Some r ->
  outcome r = Ok voiceList ->
  cacheFilePath <> "" ->
  exists listed,
    listVoices fuel options w = Some listed
    /\ outcome listed = Ok voiceList
    /\ calls r = (calls listed ++ [WriteFileSafe cacheFilePath voiceList])%list.
Proof.
  intros Hrun Hok Hpath. unfold loadVoiceList in Hrun.
  destruct (Load_bind_Ok_inv _ _ _ _ _ Hrun Hok)
    as (listed & listedVoices & r2 & Hlisted & Hlist & Hrest & Hr2 & Hcalls & _).
  rewrite bool_decide_eq_true_2 in Hrest by done.
  destruct (Load_bind_Ok_inv _ _ _ _ _ Hrest Hr2)
    as (written & [] & r3 & Hwrite & _ & Hret & Hr3 & Hcalls2 & _).
  injection Hret as <-. cbn in Hr3. injection Hr3 as <-.
  unfold await in Hwrite. destruct (writeFileSafe _ _ _) as [result w'].
  injection Hwrite as <-. cbn in Hcalls2.
  exists listed. split; [done|]. split; [done|]. by rewrite Hcalls, Hcalls2.
Qed.

End WriteBackFacts.

(** X25.  [loadVoiceList] writes to the cache file the very list it
    returns, as the last of its calls, after a listing that touched no
    file; a listing that fails writes nothing.  For an engine it has no
    case for, and for no engine, it returns no voice, and the empty list is
    what it writes. *)
Theorem loadVoiceList_writes_what_it_returns `{VoiceListLoader.VoiceSources}
    (fuel : nat) (options : Synthesis.SynthesisOptions) (cacheFilePath : string)
    (w : Synthesis.World) (r : VoiceListLoader.Loading (list Synthesis.SynthesisVoice)) :
  VoiceListLoader.loadVoiceList fuel options cacheFilePath w = Some r ->
  cacheFilePath <> ""%string ->
  match VoiceListLoader.outcome r with
  | Synthesis.Ok voiceList =>
    exists listing,
      VoiceListLoader.calls r
      = listing ++ [VoiceListLoader.WriteFileSafe cacheFilePath voiceList]
      /\ Forall (fun c => VoiceListLoader.isFileCall c = false) listing
      /\ match Synthesis.engine options with
         | None | Some (Synthesis.OtherEngine _) => voiceList = [] /\ listing = []
         | _ => True
         end
  | Synthesis.Err _ =>
    forall voiceList,
      VoiceListLoader.WriteFileSafe cacheFilePath voiceList ∈ VoiceListLoader.calls r ->
      exists listed,
        VoiceListLoader.listVoices fuel options w = Some listed
        /\ VoiceListLoader.outcome listed = Synthesis.Ok voiceList
  end.
Proof.
  intros Hrun Hpath. destruct (VoiceListLoader.outcome r) as [voiceList|e] eqn:Hok.
  - destruct (loadVoiceList_Ok_inv _ _ _ _ _ _ Hrun Hok Hpath)
      as (listed & Hlisted & Hlist & Hcalls).
    exists (VoiceListLoader.calls listed). split; [done|].
    split; [by eapply listVoices_calls|].
    unfold VoiceListLoader.listVoices in Hlisted.
    destruct (Synthesis.engine options) as [[]|]; try done;
      injection Hlisted as <-; cbn in Hlist; by injection Hlist as <-.
  - intros voiceList Hin. unfold VoiceListLoader.loadVoiceList in Hrun.
    rewrite Load_bind_run in Hrun.
    destruct (VoiceListLoader.listVoices fuel options w) as [listed|] eqn:Hlisted; [|done].
    pose proof (listVoices_calls fuel options w listed Hlisted) as Hnofile.
    destruct (VoiceListLoader.outcome listed) as [listedVoices|e'] eqn:Hlist.
    + rewrite bool_decide_eq_true_2 in Hrun by done.
      rewrite Load_bind_run in Hrun. unfold VoiceListLoader.await in Hrun.
      destruct (VoiceListLoader.writeFileSafe _ _ _) as [[[]|e''] w'];
        cbn in Hrun; injection Hrun as <-; cbn in Hin, Hok; [done|].
      apply elem_of_app in Hin as [Hin|Hin].
      * eapply Forall_forall in Hnofile; [|exact Hin]. done.
      * apply list_elem_of_singleton in Hin. injection Hin as <-. by exists listed.
    + injection Hrun as <-. cbn in Hin.
      eapply Forall_forall in Hnofile; [|exact Hin]. done.
Qed.

Lemma loadVoiceList_writes_what_it_returns_witness :
  let C := Fixture.collaborators [] 9 [1%Qc] None in
  let S := @Fixture.voiceSources C None [] in
  let path := "/data/voice-list-cache/undefined.voices.json"%string in
  let r := {| VoiceListLoader.outcome := Synthesis.Ok [];
              VoiceListLoader.world := 0%nat;
              VoiceListLoader.calls := [VoiceListLoader.WriteFileSafe path []] |} in
  @VoiceListLoader.loadVoiceList C S 1 Synthesis.emptyOptions path 0%nat = Some r
  /\ exists listing,
      VoiceListLoader.calls r = listing ++ [VoiceListLoader.WriteFileSafe path []]
      /\ Forall (fun c => VoiceListLoader.isFileCall c = false) listing
      /\ (@nil Synthesis.SynthesisVoice = [] /\ listing = []).
Proof.
  intros C S path r. split; [reflexivity|].
  exact (@loadVoiceList_writes_what_it_returns C S 1 Synthesis.emptyOptions path 0%nat r
           eq_refl ltac:(discriminate)).
Defined.

Section EspeakFacts.
Import Js Synthesis VoiceListLoader.
Context `{Collaborators}.

(** The loop that adds the short codes, when the short code of a short
    code is itself: it ends within the fuel, having added, after the codes
    it started from, short codes of these that were missing, each once. *)
Lemma addShortLanguageCodes_spec (base : list string) :
  (forall code, getShortLanguageCode (getShortLanguageCode code) = getShortLanguageCode code) ->
  forall fuel added i,
    (i <= length (base ++ added))%nat ->
    (forall j language, (j < i)%nat -> (base ++ added) !! j = Some language ->
                        getShortLanguageCode language ∈ base ++ added) ->
    NoDup added ->
    (forall code, code ∈ added ->
                  (code ∉ base) /\ (exists language, language ∈ base
                                                   /\ code = getShortLanguageCode language)) ->
    ((length (base ++ added) - i) + (length base - i) + 1 <= fuel)%nat ->
    exists added',
      addShortLanguageCodes fuel (base ++ added) i = Some (base ++ added')
      /\ (forall code, code ∈ base ++ added' -> getShortLanguageCode code ∈ base ++ added')
      /\ NoDup added'
      /\ (forall code, code ∈ added' ->
                       (code ∉ base) /\ (exists language, language ∈ base
                                                        /\ code = getShortLanguageCode language)).
Proof.
  intros Hidem. induction fuel as [|fuel IH]; intros added i Hi Hvisited Hnodup Hadded Hfuel;
    [lia|].
  cbn [addShortLanguageCodes].
  destruct ((base ++ added) !! i) as [language|] eqn:Hlookup.
  - assert (i < length (base ++ added))%nat as Hlt by (by eapply lookup_lt_Some).
    case_bool_decide as Hseen.
    + apply IH; [lia| |done|done|lia].
      intros j language' Hj Hlanguage'. destruct (decide (j = i)) as [->|Hne].
      * by simplify_eq.
      * apply (Hvisited j); [lia|done].
    + assert (i < length base)%nat as Hbase.
      { destruct (decide (i < length base)%nat) as [|Hge]; [done|]. exfalso.
        pose proof Hlookup as Hin. rewrite lookup_app_r in Hin by lia.
        apply list_elem_of_lookup_2 in Hin.
        destruct (Hadded _ Hin) as [_ (origin & _ & Horigin)].
        apply Hseen. rewrite Horigin, Hidem, <- Horigin.
        apply elem_of_app. by right. }
      assert (language ∈ base) as Horigin.
      { rewrite lookup_app_l in Hlookup by done. by eapply list_elem_of_lookup_2. }
      rewrite length_app in Hlt, Hfuel, Hi.
      rewrite <- app_assoc. apply IH.
      * rewrite !length_app. cbn [length]. lia.
      * intros j language' Hj Hlanguage'. rewrite app_assoc.
        rewrite lookup_app_l in Hlanguage' by lia.
        apply elem_of_app. destruct (decide (j = i)) as [->|Hne].
        -- right. apply list_elem_of_singleton.
           rewrite lookup_app_l in Hlookup by done. by simplify_eq.
        -- left. apply (Hvisited j); [lia|]. by rewrite lookup_app_l by lia.
      * apply NoDup_app. split; [done|]. split; [|apply NoDup_singleton].
        intros code Hcode ->%list_elem_of_singleton. apply Hseen, elem_of_app. by right.
      * intros code [Hcode| ->%list_elem_of_singleton]%elem_of_app; [by apply Hadded|].
        split; [|by exists language]. intros Hin. apply Hseen, elem_of_app. by left.
      * rewrite !length_app. cbn [length]. lia.
  - apply lookup_ge_None in Hlookup. exists added. split; [done|]. split; [|done].
    intros code (j & Hj)%list_elem_of_lookup. apply (Hvisited j); [|done].
    apply lookup_lt_Some in Hj. lia.
Qed.

Lemma espeakVoice_spec (fuel : nat) (voice : EspeakVoice) :
  (forall code, getShortLanguageCode (getShortLanguageCode code) = getShortLanguageCode code) ->
  (2 * length (espeak_languageNames voice) + 1 <= fuel)%nat ->
  let given := map normalizeLanguageCode (espeak_languageNames voice) in
  exists added,
    espeakVoice fuel voice
    = Some (plainVoice (espeak_identifier voice) (given ++ added) "male")
    /\ (forall code, code ∈ given ++ added -> getShortLanguageCode code ∈ given ++ added)
    /\ NoDup added
    /\ (forall code, code ∈ added ->
                     (code ∉ given) /\ (exists language, language ∈ given
                                                       /\ code = getShortLanguageCode language)).
Proof.
  intros Hidem Hfuel given.
  destruct (addShortLanguageCodes_spec given Hidem fuel [] 0%nat)
    as (added & Hrun & Hclosed & Hnodup & Hadded).
  - lia.
  - intros j language Hj. lia.
  - constructor.
  - by intros code ?%elem_of_nil.
  - rewrite app_nil_r. subst given. rewrite length_map. lia.
  - exists added. split; [|done]. unfold espeakVoice. fold given.
    rewrite app_nil_r in Hrun. by rewrite Hrun.
Qed.

End EspeakFacts.

Section FixtureFacts.

Lemma beforeHyphen_idempotent (s : string) :
  Fixture.beforeHyphen (Fixture.beforeHyphen s) = Fixture.beforeHyphen s.
Proof.
  induction s as [|c s IH]; [done|]. cbn [Fixture.beforeHyphen].
  destruct (Ascii.eqb c "-") eqn:Hc; [done|].
  cbn [Fixture.beforeHyphen]. by rewrite Hc, IH.
Qed.

End FixtureFacts.

(** X26.  A voice of eSpeak is listed with the normalized names of its
    languages, in their order, followed by the short codes of these that
    were missing, each once, so that the short code of every language of
    the voice is among its languages; its gender is "male".  This holds
    when the short code of a short code is that short code, and the loop
    over the languages, which also visits the codes it adds, then ends
    within twice the number of names, plus one, tests of its condition. *)
Theorem espeak_voice_declares_short_codes `{Synthesis.Collaborators}
    (fuel : nat) (voice : VoiceListLoader.EspeakVoice) :
  (forall code,
      Synthesis.getShortLanguageCode (Synthesis.getShortLanguageCode code)
      = Synthesis.getShortLanguageCode code) ->
  (2 * length (VoiceListLoader.espeak_languageNames voice) + 1 <= fuel)%nat ->
  let given :=
    map Synthesis.normalizeLanguageCode (VoiceListLoader.espeak_languageNames voice) in
  exists added,
    VoiceListLoader.espeakVoice fuel voice
    = Some (VoiceListLoader.plainVoice (VoiceListLoader.espeak_identifier voice)
              (given ++ added) "male")
    /\ (forall code, code ∈ given ++ added ->
                     Synthesis.getShortLanguageCode code ∈ given ++ added)
    /\ NoDup added
    /\ (forall code, code ∈ added ->
                     (code ∉ given)
                     /\ (exists language, language ∈ given
                                          /\ code = Synthesis.getShortLanguageCode language)).
Proof. apply espeakVoice_spec. Qed.

Lemma espeak_voice_declares_short_codes_witness :
  let C := Fixture.collaborators [] 9 [1%Qc] None in
  let voice := {| VoiceListLoader.espeak_identifier := "gmw/en";
                  VoiceListLoader.espeak_languageNames := ["en-gb"; "en"; "en-029"]%string |} in
  let given := ["en-gb"; "en"; "en-029"]%string in
  exists added,
    @VoiceListLoader.espeakVoice C 7 voice
    = Some (VoiceListLoader.plainVoice "gmw/en" (given ++ added) "male")
    /\ (forall code, code ∈ given ++ added -> Fixture.beforeHyphen code ∈ given ++ added)
    /\ NoDup added
    /\ (forall code, code ∈ added ->
                     (code ∉ given)
                     /\ (exists language, language ∈ given
                                          /\ code = Fixture.beforeHyphen language)).
Proof.
  intros C voice given.
  apply (@espeak_voice_declares_short_codes C 7 voice).
  - apply beforeHyphen_idempotent.
  - cbn. lia.
Defined.
